(** * EntropySeed: seed-derived authenticated encryption

    A shallow embedding of the two scripts of the repository,

    - [src/ABB.py]: coordinate-seeded AES-GCM packaging
      ([coords_to_bytes], [derive_keys], [encrypt_with_coords],
      [decrypt_with_coords]);
    - [src/GVEMPlus/ABB.py]: the measurement-pool demo
      ([take_screenshot_and_process], [encrypt_phrase],
      [decrypt_ciphertext]),

    together with the properties of the specification that concern them.

    Python values are modelled as follows: [bytes] is [list byte]; [int] is
    [Z]; [float] is an IEEE-754 binary64 value ([spec_float] at precision
    53, maximal exponent 1024); a call that raises returns [Raise e], one
    that returns [v] returns [Ok v].  Randomness ([os.urandom],
    [random.randint]) is read from an explicit entropy state that every call
    advances.  Resource limits (memory, the 2^31-1 byte cap of the AEAD
    binding) are outside the model. *)

From Stdlib Require Import String Ascii.
From Stdlib Require Import ZArith List Bool Lia.
From Stdlib Require Import Strings.Byte.
From Stdlib Require Import Permutation Sorted.
From Stdlib Require Import Floats.SpecFloat.
Import ListNotations.

Set Implicit Arguments.
Local Open Scope Z_scope.

(** ** Exceptions and results *)

(** The exception classes that the modelled code can raise. *)
Inductive exn : Type :=
| ValueError          (* builtins.ValueError *)
| OverflowError       (* builtins.OverflowError *)
| StructError         (* struct.error *)
| InvalidTag          (* cryptography.exceptions.InvalidTag *)
| BinasciiError       (* binascii.Error *)
| UnicodeDecodeError  (* builtins.UnicodeDecodeError *)
| IndexError.         (* builtins.IndexError *)

Inductive result (A : Type) : Type :=
| Ok (a : A)
| Raise (e : exn).
Arguments Ok {A} a.
Arguments Raise {A} e.

Definition bind {A B : Type} (r : result A) (k : A -> result B) : result B :=
  match r with
  | Ok a => k a
  | Raise e => Raise e
  end.

Declare Scope py_scope.
Delimit Scope py_scope with py.
Notation "x <- c ;; k" := (bind c (fun x => k))
  (at level 61, c at next level, right associativity) : py_scope.
Notation "' p <- c ;; k" := (bind c (fun x => let 'p := x in k))
  (at level 61, p pattern, c at next level, right associativity) : py_scope.
Local Open Scope py_scope.

Definition is_ok {A : Type} (r : result A) : bool :=
  match r with Ok _ => true | Raise _ => false end.

(** ** Bytes *)

Definition bytes := list byte.

Definition byte_of_Z (z : Z) : byte :=
  match Byte.of_N (Z.to_N (z mod 256)) with
  | Some b => b
  | None => x00
  end.

Definition Z_of_byte (b : byte) : Z := Z.of_N (Byte.to_N b).

(** [packed[a:b]] on bytes: Python slices never raise, they clip. *)
Definition slice (a b : nat) (l : bytes) : bytes := firstn (b - a) (skipn a l).
Definition slice_to (b : nat) (l : bytes) : bytes := firstn b l.
Definition slice_from (a : nat) (l : bytes) : bytes := skipn a l.

(** Big-endian and little-endian fixed-width encodings of [z mod 2^(8n)]. *)
Fixpoint be_bytes (n : nat) (z : Z) : bytes :=
  match n with
  | O => []
  | S k => byte_of_Z (Z.shiftr z (8 * Z.of_nat k)) :: be_bytes k z
  end.

Fixpoint le_bytes (n : nat) (z : Z) : bytes :=
  match n with
  | O => []
  | S k => byte_of_Z z :: le_bytes k (Z.shiftr z 8)
  end.

Fixpoint be_value (l : bytes) (acc : Z) : Z :=
  match l with
  | [] => acc
  | b :: t => be_value t (acc * 256 + Z_of_byte b)
  end.

(** ** Python numbers *)

Definition pyfloat := spec_float.

Definition prec64 : Z := 53.
Definition emax64 : Z := 1024.

Definition fmul : pyfloat -> pyfloat -> pyfloat := SFmul prec64 emax64.
Definition fdiv : pyfloat -> pyfloat -> pyfloat := SFdiv prec64 emax64.

Definition is_finite (x : pyfloat) : bool :=
  match x with
  | S754_zero _ | S754_finite _ _ _ => true
  | S754_infinity _ | S754_nan => false
  end.

(** [float(n)] for a Python [int] (as done implicitly by [float * int]):
    correctly rounded, [OverflowError] when [n] is too large. *)
Definition float_of_int (n : Z) : result pyfloat :=
  match binary_normalize prec64 emax64 n 0 false with
  | S754_infinity _ => Raise OverflowError
  | f => Ok f
  end.

(** The float denoted by the decimal literal [n / 10^k] (correctly rounded;
    exact operands require [|n| < 2^53] and [k <= 22]). *)
Definition decimal (n : Z) (k : nat) : pyfloat :=
  fdiv (binary_normalize prec64 emax64 n 0 false)
       (binary_normalize prec64 emax64 (10 ^ Z.of_nat k) 0 false).

(** Round-half-to-even of the rational [m / 2^k]. *)
Definition round_half_even_shift (m : Z) (k : Z) : Z :=
  let d := 2 ^ k in
  let q := m / d in
  let r := m mod d in
  match 2 * r ?= d with
  | Lt => q
  | Gt => q + 1
  | Eq => if Z.even q then q else q + 1
  end.

(** [round(x)] for a float, one argument: the nearest integer, ties to even;
    [ValueError] on NaN and [OverflowError] on an infinity. *)
Definition py_round (x : pyfloat) : result Z :=
  match x with
  | S754_nan => Raise ValueError
  | S754_infinity _ => Raise OverflowError
  | S754_zero _ => Ok 0
  | S754_finite s m e =>
      let a := match e with
               | Zneg k => round_half_even_shift (Zpos m) (Zpos k)
               | _ => Zpos m * 2 ^ e
               end in
      Ok (if s then - a else a)
  end.

(** [int(x)] for a float: truncation toward zero, same errors. *)
Definition py_int_of_float (x : pyfloat) : result Z :=
  match x with
  | S754_nan => Raise ValueError
  | S754_infinity _ => Raise OverflowError
  | S754_zero _ => Ok 0
  | S754_finite s m e =>
      let a := match e with
               | Zneg k => Zpos m / 2 ^ Zpos k
               | _ => Zpos m * 2 ^ e
               end in
      Ok (if s then - a else a)
  end.

(** [struct.pack("!q", n)]: eight bytes, big-endian two's complement;
    [struct.error] outside the signed 64-bit range. *)
Definition int64_min : Z := - 2 ^ 63.
Definition int64_max : Z := 2 ^ 63 - 1.

Definition in_int64 (n : Z) : bool := (int64_min <=? n) && (n <=? int64_max).

Definition struct_pack_q (n : Z) : result bytes :=
  if in_int64 n then Ok (be_bytes 8 n) else Raise StructError.

(** ** [src/ABB.py] *)

Definition coord : Type := pyfloat * pyfloat.

(** One iteration of the loop of [coords_to_bytes]: both components are
    scaled and rounded before either is packed. *)
Definition encode_pair (scale : Z) (c : coord) : result bytes :=
  let '(x, y) := c in
  sx <- float_of_int scale ;;
  xi <- py_round (fmul x sx) ;;
  sy <- float_of_int scale ;;
  yi <- py_round (fmul y sy) ;;
  bx <- struct_pack_q xi ;;
  by_ <- struct_pack_q yi ;;
  Ok (bx ++ by_).

Fixpoint coords_loop (scale : Z) (coords : list coord) (b : bytes) : result bytes :=
  match coords with
  | [] => Ok b
  | c :: rest =>
      e <- encode_pair scale c ;;
      coords_loop scale rest (b ++ e)
  end.

Definition coords_to_bytes (coords : list coord) (precision : nat) : result bytes :=
  let b := [] in
  let scale := 10 ^ Z.of_nat precision in
  coords_loop scale coords b.

(** What one component contributes: [int(round(x * scale))], and whether
    [struct.pack] accepts it. *)
Definition scale_round (scale : Z) (x : pyfloat) : result Z :=
  s <- float_of_int scale ;;
  py_round (fmul x s).

Definition component_ok (scale : Z) (x : pyfloat) : bool :=
  match scale_round scale x with
  | Ok n => in_int64 n
  | Raise _ => false
  end.

Definition component_int (scale : Z) (x : pyfloat) : Z :=
  match scale_round scale x with
  | Ok n => n
  | Raise _ => 0
  end.

(** Every component of every pair scales and rounds into the signed 64-bit
    range. *)
Definition encodable (precision : nat) (coords : list coord) : bool :=
  forallb (fun c => component_ok (10 ^ Z.of_nat precision) (fst c)
                    && component_ok (10 ^ Z.of_nat precision) (snd c)) coords.

(** The sixteen bytes that an encodable pair contributes. *)
Definition pair_bytes (scale : Z) (c : coord) : bytes :=
  be_bytes 8 (component_int scale (fst c)) ++ be_bytes 8 (component_int scale (snd c)).

Definition pair_ints (scale : Z) (c : coord) : Z * Z :=
  (component_int scale (fst c), component_int scale (snd c)).

Definition all_finite (coords : list coord) : bool :=
  forallb (fun c => is_finite (fst c) && is_finite (snd c)) coords.


(** [struct.unpack("!q", b)[0]]: the signed value of eight big-endian bytes. *)
Definition unpack_q (b : bytes) : Z :=
  let u := be_value b 0 in
  if u <? 2 ^ 63 then u else u - 2 ^ 64.

(** ** The operating system's entropy source *)

(** An unbounded supply of bytes and a read position; [os.urandom(n)] returns
    the next [n] bytes and advances the position. *)
Record entropy : Type := { supply : nat -> byte; cursor : nat }.

Definition os_urandom (n : nat) (s : entropy) : bytes * entropy :=
  (map (supply s) (seq (cursor s) n),
   {| supply := supply s; cursor := (cursor s + n)%nat |}).

(** ** Library primitives

    The scripts call [hashlib], [cryptography] (HKDF, AESGCM), [base64] and
    the UTF-8 codec.  Their algorithms are not part of the repository: they
    are the fields of [primitives], and [primitives_ok] is the part of their
    documented contract that the proofs use.  The argument validation that
    the Python API performs around them is written out below ([HKDF_derive],
    [AESGCM], [AESGCM_encrypt], [AESGCM_decrypt]). *)

Record primitives : Type := {
  (* hashlib.sha256(data).digest() *)
  sha256_digest : bytes -> bytes;
  (* HKDF-SHA256 with salt=None: info, length, input key material *)
  hkdf_sha256 : bytes -> nat -> bytes -> bytes;
  (* AES-GCM: key, nonce, plaintext, associated data -> ciphertext ++ tag *)
  gcm_seal : bytes -> bytes -> bytes -> bytes -> bytes;
  (* AES-GCM: key, nonce, ciphertext ++ tag, associated data;
     [None] when the tag does not verify *)
  gcm_open : bytes -> bytes -> bytes -> bytes -> option bytes;
  (* base64.b64encode(data).decode("ascii") and base64.b64decode(text) *)
  b64encode : bytes -> string;
  b64decode : string -> result bytes;
  (* str.encode("utf-8") and bytes.decode("utf-8") *)
  utf8_encode : string -> bytes;
  utf8_decode : bytes -> result string
}.

Definition key_size_ok (key : bytes) : bool :=
  let n := length key in
  (Nat.eqb n 16 || Nat.eqb n 24 || Nat.eqb n 32)%bool.

Definition nonce_size_ok (nonce : bytes) : bool :=
  let n := length nonce in
  (Nat.leb 8 n && Nat.leb n 128)%bool.

Record primitives_ok (P : primitives) : Prop := {
  sha256_digest_length :
    forall d, length (sha256_digest P d) = 32%nat;
  hkdf_sha256_length :
    forall info n ikm, (n <= 255 * 32)%nat ->
      length (hkdf_sha256 P info n ikm) = n;
  gcm_seal_length :
    forall key nonce data ad,
      key_size_ok key = true -> nonce_size_ok nonce = true ->
      length (gcm_seal P key nonce data ad) = (length data + 16)%nat;
  gcm_open_seal :
    forall key nonce data ad,
      key_size_ok key = true -> nonce_size_ok nonce = true ->
      gcm_open P key nonce (gcm_seal P key nonce data ad) ad = Some data;
  b64decode_b64encode :
    forall d, b64decode P (b64encode P d) = Ok d
}.

(** AES-GCM recovers the plaintext from the key, the nonce and the
    ciphertext alone (counter mode); the associated data enter the tag
    only.  So the plaintext that [gcm_open] returns when it accepts does not
    depend on the associated data. *)
Definition open_ignores_ad (P : primitives) : Prop :=
  forall key nonce sealed ad ad' pt pt',
    gcm_open P key nonce sealed ad = Some pt ->
    gcm_open P key nonce sealed ad' = Some pt' ->
    pt = pt'.

Section Scripts.

Variable P : primitives.

(** [HKDF(algorithm=SHA256(), length, salt=None, info).derive(ikm)]: the
    constructor rejects a length above 255 hash blocks. *)
Definition HKDF_derive (length : nat) (info ikm : bytes) : result bytes :=
  if Nat.ltb (255 * 32) length then Raise ValueError
  else Ok (hkdf_sha256 P info length ikm).

(** [AESGCM(key)]: the key must be 128, 192 or 256 bits long. *)
Definition AESGCM (key : bytes) : result bytes :=
  if key_size_ok key then Ok key else Raise ValueError.

(** [aesgcm.encrypt(nonce, data, associated_data)]: the nonce must be 8 to
    128 bytes long. *)
Definition AESGCM_encrypt (aesgcm nonce data ad : bytes) : result bytes :=
  if nonce_size_ok nonce then Ok (gcm_seal P aesgcm nonce data ad)
  else Raise ValueError.

(** [aesgcm.decrypt(nonce, data, associated_data)]: same nonce check;
    [InvalidTag] when the data is shorter than a tag or the tag does not
    verify. *)
Definition AESGCM_decrypt (aesgcm nonce data ad : bytes) : result bytes :=
  if nonce_size_ok nonce then
    if Nat.ltb (length data) 16 then Raise InvalidTag
    else match gcm_open P aesgcm nonce data ad with
         | Some pt => Ok pt
         | None => Raise InvalidTag
         end
  else Raise ValueError.

(** *** [src/ABB.py], continued *)

Definition sha256 (data : bytes) : bytes := sha256_digest P data.

(** Both callers pass [info] and [length]; the defaults are not used. *)
Definition derive_keys (seed info : bytes) (length : nat) : result bytes :=
  HKDF_derive length info seed.

(** The byte string [b"coords->aes256"]. *)
Definition info_coords_aes256 : bytes :=
  [x63; x6f; x6f; x72; x64; x73; x2d; x3e; x61; x65; x73; x32; x35; x36].

(** The AES key that both directions derive from the encoded coordinates
    and the salt. *)
Definition package_key (coord_b salt : bytes) : bytes :=
  hkdf_sha256 P info_coords_aes256 32 (sha256 (coord_b ++ salt)).

Definition encrypt_with_coords (coords : list coord) (plaintext associated_data : bytes)
    (s : entropy) : result (bytes * entropy) :=
  coord_b <- coords_to_bytes coords 6 ;;
  let '(salt, s) := os_urandom 16 s in
  let '(nonce, s) := os_urandom 12 s in
  let seed := sha256 (coord_b ++ salt) in
  aes_key <- derive_keys seed info_coords_aes256 32 ;;
  aesgcm <- AESGCM aes_key ;;
  ct <- AESGCM_encrypt aesgcm nonce plaintext associated_data ;;
  Ok (salt ++ nonce ++ ct, s).

Definition decrypt_with_coords (coords : list coord) (packaged associated_data : bytes)
    : result bytes :=
  let salt := slice_to 16 packaged in
  let nonce := slice 16 28 packaged in
  let ct := slice_from 28 packaged in
  coord_b <- coords_to_bytes coords 6 ;;
  let seed := sha256 (coord_b ++ salt) in
  aes_key <- derive_keys seed info_coords_aes256 32 ;;
  aesgcm <- AESGCM aes_key ;;
  AESGCM_decrypt aesgcm nonce ct associated_data.

End Scripts.

(** ** [src/GVEMPlus/ABB.py] *)

Module GVEMPlus.

(** What OpenCV reports for one contour: [cv2.contourArea(c)] and the
    entries [m00], [m10], [m01] of [cv2.moments(c)]. *)
Record contour : Type := {
  contourArea : pyfloat;
  m00 : pyfloat;
  m10 : pyfloat;
  m01 : pyfloat
}.

(** A screenshot that [cv2.imread] could read: the grey image (its shape and
    its [uint8] pixels, indexed [gray[y, x]]) and the external contours found
    in it. *)
Record screenshot : Type := {
  shape_h : Z;
  shape_w : Z;
  gray : Z -> Z -> byte;
  cnts : list contour
}.

(** A feature [(cx, cy, int(area))]. *)
Definition feature : Type := (Z * Z * Z)%type.
Definition area_of (f : feature) : Z := snd f.

Definition float_20 : pyfloat := binary_normalize prec64 emax64 20 0 false.
Definition float_0 : pyfloat := S754_zero false.

(** The loop over [cnts] that appends to [features]. *)
Fixpoint detect (cs : list contour) (features : list feature) : result (list feature) :=
  match cs with
  | [] => Ok features
  | c :: rest =>
      let area := contourArea c in
      if SFltb area float_20 then detect rest features
      else if SFeqb (m00 c) float_0 then detect rest features
      else
        cx <- py_int_of_float (fdiv (m10 c) (m00 c)) ;;
        cy <- py_int_of_float (fdiv (m01 c) (m00 c)) ;;
        a <- py_int_of_float area ;;
        detect rest (features ++ [(cx, cy, a)])
  end.

(** The contours that the loop does not skip. *)
Definition kept (c : contour) : bool :=
  negb (SFltb (contourArea c) float_20) && negb (SFeqb (m00 c) float_0).

(** [f] is the feature that the loop appends for [c]. *)
Definition measures (c : contour) (f : feature) : Prop :=
  py_int_of_float (fdiv (m10 c) (m00 c)) = Ok (fst (fst f))
  /\ py_int_of_float (fdiv (m01 c) (m00 c)) = Ok (snd (fst f))
  /\ py_int_of_float (contourArea c) = Ok (area_of f).

(** [sorted(features, key=lambda x: x[2], reverse=True)]: a stable sort,
    largest area first. *)
Fixpoint insert_desc (f : feature) (l : list feature) : list feature :=
  match l with
  | [] => [f]
  | g :: t =>
      if area_of f <? area_of g then g :: insert_desc f t else f :: g :: t
  end.

Definition sorted_desc (features : list feature) : list feature :=
  fold_right insert_desc [] features.

(** [f] does not come after [g] in descending order of area. *)
Definition area_ge (f g : feature) : Prop := area_of g <= area_of f.

(** The features of area [a], used to compare orders among ties. *)
Definition with_area (a : Z) (f : feature) : bool := area_of f =? a.

(** The three array cells of a feature. *)
Definition triple (f : feature) : list Z := let '(cx, cy, a) := f in [cx; cy; a].

(** Storing a Python [int] into an [int32] array element: NumPy refuses a
    value outside the 32-bit range. *)
Definition int32_min : Z := - 2 ^ 31.
Definition int32_max : Z := 2 ^ 31 - 1.
Definition in_int32 (v : Z) : bool := (int32_min <=? v) && (v <=? int32_max).

Fixpoint list_set (i : nat) (v : Z) (l : list Z) : list Z :=
  match l, i with
  | [], _ => []
  | _ :: t, O => v :: t
  | x :: t, S j => x :: list_set j v t
  end.

Definition vec_store (i : nat) (v : Z) (vec : list Z) : result (list Z) :=
  if Nat.ltb i (length vec) then
    if in_int32 v then Ok (list_set i v vec) else Raise OverflowError
  else Raise IndexError.

(** [for i, f in enumerate(features): vec[i*3+0] = f[0]; ...] *)
Fixpoint fill_vec (i : nat) (features : list feature) (vec : list Z) : result (list Z) :=
  match features with
  | [] => Ok vec
  | (cx, cy, a) :: rest =>
      vec <- vec_store (i * 3 + 0) cx vec ;;
      vec <- vec_store (i * 3 + 1) cy vec ;;
      vec <- vec_store (i * 3 + 2) a vec ;;
      fill_vec (S i) rest vec
  end.

(** [vec.tobytes()] for [dtype=np.int32], little-endian host. *)
Definition tobytes (vec : list Z) : bytes := flat_map (le_bytes 4) vec.

(** The twelve bytes of one feature slot, and the 128-slot block: the
    features first, zero-filled slots after them. *)
Definition slot_bytes (f : feature) : bytes :=
  let '(cx, cy, a) := f in le_bytes 4 cx ++ le_bytes 4 cy ++ le_bytes 4 a.

Definition feature_block (top : list feature) : bytes :=
  flat_map slot_bytes top ++ repeat x00 (12 * (128 - length top)).

Definition feature_ok (f : feature) : bool :=
  let '(cx, cy, a) := f in in_int32 cx && in_int32 cy && in_int32 a.

(** Reading the block back, as [np.frombuffer(pool[:1536], dtype=np.int32)]
    does: the value of little-endian bytes, the signed 32-bit integer of
    four bytes, and the feature that a 12-byte slot holds. *)
Fixpoint le_value (l : bytes) : Z :=
  match l with
  | [] => 0
  | b :: t => Z_of_byte b + 256 * le_value t
  end.

Definition unpack_i32 (b : bytes) : Z :=
  let u := le_value b in
  if u <? 2 ^ 31 then u else u - 2 ^ 32.

Definition slot_feature (b : bytes) : feature :=
  (unpack_i32 (slice 0 4 b), unpack_i32 (slice 4 8 b), unpack_i32 (slice 8 12 b)).

(** Python's [random] module: a supply of raw draws and a position. *)
Record rng : Type := { raw : nat -> Z; rpos : nat }.

Definition randint (a b : Z) (g : rng) : result (Z * rng) :=
  if b <? a then Raise ValueError
  else Ok (a + raw g (rpos g) mod (b - a + 1),
           {| raw := raw g; rpos := S (rpos g) |}).

(** [for _ in range(64): ... pool += bytes([int(gray[y,x])])] *)
Fixpoint sample_pixels (n : nat) (img : screenshot) (pool : bytes) (g : rng)
    : result (bytes * rng) :=
  match n with
  | O => Ok (pool, g)
  | S k =>
      '(x, g) <- randint 0 (shape_w img - 1) g ;;
      '(y, g) <- randint 0 (shape_h img - 1) g ;;
      sample_pixels k img (pool ++ [gray img y x]) g
  end.

(** [b] is the intensity of some pixel inside the image. *)
Definition pixel_of (img : screenshot) (b : byte) : Prop :=
  exists x y, 0 <= x < shape_w img /\ 0 <= y < shape_h img /\ b = gray img y x.

(** The module's globals, the two random sources and the audit file. *)
Record world : Type := {
  derived_key : option bytes;
  ciphertext_b64 : option string;
  nonce : option bytes;
  plaintext_hash_hex : option string;
  raw_pool_sample : option bytes;
  os_entropy : entropy;
  py_random : rng;
  entropy_pool_bin : option bytes
}.

Definition initial (s : entropy) (g : rng) : world :=
  {| derived_key := None; ciphertext_b64 := None; nonce := None;
     plaintext_hash_hex := None; raw_pool_sample := None;
     os_entropy := s; py_random := g; entropy_pool_bin := None |}.

Definition hex_digit (n : Z) : ascii :=
  nth (Z.to_nat n)
      ["0"; "1"; "2"; "3"; "4"; "5"; "6"; "7";
       "8"; "9"; "a"; "b"; "c"; "d"; "e"; "f"]%char "0"%char.

Fixpoint hex (l : bytes) : string :=
  match l with
  | [] => EmptyString
  | b :: t =>
      String (hex_digit (Z_of_byte b / 16))
             (String (hex_digit (Z_of_byte b mod 16)) (hex t))
  end.

Section WithPrimitives.

Variable P : primitives.

(** The entropy pool of one capture, from the detected features on. *)
Definition build_pool (img : screenshot) (features : list feature)
    (g : rng) (s : entropy) : result (bytes * rng * entropy) :=
  let features := firstn 128 (sorted_desc features) in
  let vec := repeat 0 (128 * 3) in
  vec <- fill_vec 0 features vec ;;
  let pool := tobytes vec in
  '(pool, g) <- sample_pixels 64 img pool g ;;
  let '(r, s) := os_urandom 32 s in
  let pool := pool ++ r in
  Ok (pool, g, s).

(** [img] is what [cv2.imread] returned, together with what OpenCV computes
    from it. *)
Definition take_screenshot_and_process (img : option screenshot) (w : world)
    : result world :=
  match img with
  | None => Ok w
  | Some img =>
      features <- detect (cnts img) [] ;;
      '(pool, g, s) <- build_pool img features (py_random w) (os_entropy w) ;;
      let sample := slice_to 2048 pool in
      let k := sha256_digest P pool in
      Ok {| derived_key := Some k;
            ciphertext_b64 := ciphertext_b64 w;
            nonce := nonce w;
            plaintext_hash_hex := plaintext_hash_hex w;
            raw_pool_sample := Some sample;
            os_entropy := s;
            py_random := g;
            entropy_pool_bin := Some sample |}
  end.

Definition encrypt_phrase (phrase : string) (w : world) : result world :=
  match derived_key w with
  | None => Ok w
  | Some key =>
      let ph := utf8_encode P phrase in
      let h := hex (sha256_digest P ph) in
      aesgcm <- AESGCM key ;;
      let '(n, s) := os_urandom 12 (os_entropy w) in
      ct <- AESGCM_encrypt P aesgcm n ph [] ;;
      Ok {| derived_key := derived_key w;
            ciphertext_b64 := Some (b64encode P (n ++ ct));
            nonce := Some n;
            plaintext_hash_hex := Some h;
            raw_pool_sample := raw_pool_sample w;
            os_entropy := s;
            py_random := py_random w;
            entropy_pool_bin := entropy_pool_bin w |}
  end.

(** The [try] block of [decrypt_ciphertext]. *)
Definition decrypt_body (aesgcm nonce ct : bytes) : result (option string) :=
  pt <- AESGCM_decrypt P aesgcm nonce ct [] ;;
  s <- utf8_decode P pt ;;
  Ok (Some s).

Definition decrypt_ciphertext (w : world) : result (option string) :=
  match ciphertext_b64 w, derived_key w with
  | Some c, Some key =>
      raw <- b64decode P c ;;
      let nonce := slice_to 12 raw in
      let ct := slice_from 12 raw in
      aesgcm <- AESGCM key ;;
      match decrypt_body aesgcm nonce ct with
      | Ok r => Ok r
      | Raise _ => Ok None
      end
  | _, _ => Ok None
  end.

(** The states the globals can be in: the initial one and those left by a
    call that returned. *)
Inductive reachable : world -> Prop :=
| reach_initial : forall s g, reachable (initial s g)
| reach_capture : forall w img w',
    reachable w -> take_screenshot_and_process img w = Ok w' -> reachable w'
| reach_encrypt : forall w phrase w',
    reachable w -> encrypt_phrase phrase w = Ok w' -> reachable w'.

(** What the stored key and ciphertext always look like. *)
Definition well_formed (w : world) : Prop :=
  (forall key, derived_key w = Some key -> key_size_ok key = true)
  /\ (forall c, ciphertext_b64 w = Some c -> exists raw, c = b64encode P raw).

End WithPrimitives.

End GVEMPlus.

(** ** Reference primitives

    The algorithms behind the library calls, written out from their
    standards (FIPS 180-4, RFC 2104, RFC 5869, FIPS 197, NIST SP 800-38D,
    RFC 4648).  They give an executable instance of [primitives] on which
    the scripts can be run, and show that [primitives_ok] can be met. *)

Module Reference.

(** *** Bytes and words *)

Definition bxor (a b : byte) : byte :=
  byte_of_Z (Z.lxor (Z_of_byte a) (Z_of_byte b)).

(** Exclusive or of [data] with a key stream (which is never shorter than
    the data where this is used). *)
Fixpoint xor_bytes (data ks : bytes) : bytes :=
  match data with
  | [] => []
  | d :: t =>
      match ks with
      | [] => d :: xor_bytes t []
      | k :: ks' => bxor d k :: xor_bytes t ks'
      end
  end.

Definition byte_eqb (a b : byte) : bool := Z_of_byte a =? Z_of_byte b.

Fixpoint bytes_eqb (a b : bytes) : bool :=
  match a, b with
  | [], [] => true
  | x :: a', y :: b' => byte_eqb x y && bytes_eqb a' b'
  | _, _ => false
  end.

Definition w32 (x : Z) : Z := x mod 2 ^ 32.
Definition rotr (n x : Z) : Z := Z.lor (Z.shiftr x n) (w32 (Z.shiftl x (32 - n))).
Definition not32 (x : Z) : Z := Z.lxor x 0xffffffff.

(** *** SHA-256 *)

(** The round constants: the first 32 bits of the fractional parts of the
    cube roots of the first 64 primes; the initial hash value: the same of
    the square roots of the first 8. *)
Definition is_prime (n : nat) : bool :=
  forallb (fun d => negb (Nat.eqb (n mod d) 0)) (seq 2 (n - 2)).

Definition primes_upto (n : nat) : list Z :=
  map Z.of_nat (filter is_prime (seq 2 (n - 1))).

(** The largest [r' >= r], built from the [i] low bits, with [r' ^ 3 <= n]. *)
Fixpoint cube_root_bits (i : nat) (n r : Z) : Z :=
  match i with
  | O => r
  | S j =>
      let c := r + 2 ^ Z.of_nat j in
      cube_root_bits j n (if c ^ 3 <=? n then c else r)
  end.

Definition cbrt_frac32 (p : Z) : Z := cube_root_bits 40 (p * 2 ^ 96) 0 mod 2 ^ 32.
Definition sqrt_frac32 (p : Z) : Z := Z.sqrt (p * 2 ^ 64) mod 2 ^ 32.

Definition K256 : list Z := Eval vm_compute in map cbrt_frac32 (primes_upto 311).

Definition sha_state : Type := (Z * Z * Z * Z * Z * Z * Z * Z)%type.

Definition H256 : sha_state :=
  Eval vm_compute in
    match map sqrt_frac32 (primes_upto 19) with
    | [a; b; c; d; e; f; g; h] => (a, b, c, d, e, f, g, h)
    | _ => (0, 0, 0, 0, 0, 0, 0, 0)
    end.

Definition ch (x y z : Z) : Z := Z.lxor (Z.land x y) (Z.land (not32 x) z).
Definition maj (x y z : Z) : Z :=
  Z.lxor (Z.land x y) (Z.lxor (Z.land x z) (Z.land y z)).
Definition bsig0 (x : Z) : Z := Z.lxor (rotr 2 x) (Z.lxor (rotr 13 x) (rotr 22 x)).
Definition bsig1 (x : Z) : Z := Z.lxor (rotr 6 x) (Z.lxor (rotr 11 x) (rotr 25 x)).
Definition ssig0 (x : Z) : Z := Z.lxor (rotr 7 x) (Z.lxor (rotr 18 x) (Z.shiftr x 3)).
Definition ssig1 (x : Z) : Z := Z.lxor (rotr 17 x) (Z.lxor (rotr 19 x) (Z.shiftr x 10)).

(** [n] big-endian 32-bit words read from [l]. *)
Fixpoint words_be (n : nat) (l : bytes) : list Z :=
  match n with
  | O => []
  | S k => be_value (firstn 4 l) 0 :: words_be k (skipn 4 l)
  end.

(** The message schedule, most recent word first while it is built. *)
Fixpoint schedule (n : nat) (rev_ws : list Z) : list Z :=
  match n with
  | O => rev rev_ws
  | S k =>
      let w := w32 (ssig1 (nth 1 rev_ws 0) + nth 6 rev_ws 0
                    + ssig0 (nth 14 rev_ws 0) + nth 15 rev_ws 0) in
      schedule k (w :: rev_ws)
  end.

Definition sha_round (st : sha_state) (kw : Z * Z) : sha_state :=
  let '(a, b, c, d, e, f, g, h) := st in
  let '(k, w) := kw in
  let t1 := h + bsig1 e + ch e f g + k + w in
  let t2 := bsig0 a + maj a b c in
  (w32 (t1 + t2), a, b, c, w32 (d + t1), e, f, g).

Definition compress (hs : sha_state) (block : bytes) : sha_state :=
  let ws := schedule 48 (rev (words_be 16 block)) in
  let '(a, b, c, d, e, f, g, h) := fold_left sha_round (combine K256 ws) hs in
  let '(h0, h1, h2, h3, h4, h5, h6, h7) := hs in
  (w32 (h0 + a), w32 (h1 + b), w32 (h2 + c), w32 (h3 + d),
   w32 (h4 + e), w32 (h5 + f), w32 (h6 + g), w32 (h7 + h)).

Fixpoint sha_blocks (n : nat) (hs : sha_state) (msg : bytes) : sha_state :=
  match n with
  | O => hs
  | S k => sha_blocks k (compress hs (firstn 64 msg)) (skipn 64 msg)
  end.

Definition sha_pad (msg : bytes) : bytes :=
  let l := length msg in
  msg ++ [x80] ++ repeat x00 ((119 - l mod 64) mod 64)
      ++ be_bytes 8 (8 * Z.of_nat l).

Definition sha256 (msg : bytes) : bytes :=
  let p := sha_pad msg in
  let '(h0, h1, h2, h3, h4, h5, h6, h7) := sha_blocks (length p / 64) H256 p in
  be_bytes 4 h0 ++ be_bytes 4 h1 ++ be_bytes 4 h2 ++ be_bytes 4 h3
  ++ be_bytes 4 h4 ++ be_bytes 4 h5 ++ be_bytes 4 h6 ++ be_bytes 4 h7.

(** *** HMAC-SHA256 and HKDF *)

Definition hmac (key msg : bytes) : bytes :=
  let key := if Nat.ltb 64 (length key) then sha256 key else key in
  let key := key ++ repeat x00 (64 - length key) in
  let ipad := xor_bytes key (repeat x36 64) in
  let opad := xor_bytes key (repeat x5c 64) in
  sha256 (opad ++ sha256 (ipad ++ msg)).

Definition hkdf_extract (salt ikm : bytes) : bytes := hmac salt ikm.

(** [T(i) = HMAC(prk, T(i-1) ++ info ++ [i])], for [i = c, c+1, ...]. *)
Fixpoint hkdf_blocks (n : nat) (prk info prev : bytes) (c : Z) : bytes :=
  match n with
  | O => []
  | S k =>
      let t := hmac prk (prev ++ info ++ [byte_of_Z c]) in
      t ++ hkdf_blocks k prk info t (c + 1)
  end.

Definition hkdf_expand (prk info : bytes) (length : nat) : bytes :=
  firstn length (hkdf_blocks ((length + 31) / 32) prk info [] 1).

(** HKDF with [salt=None], that is a salt of 32 zero bytes. *)
Definition hkdf (info : bytes) (length : nat) (ikm : bytes) : bytes :=
  hkdf_expand (hkdf_extract (repeat x00 32) ikm) info length.

(** *** AES *)

Definition xtime (b : Z) : Z :=
  let s := 2 * b in
  if 256 <=? s then Z.lxor (s - 256) 0x1b else s.

(** The product in GF(2^8) modulo [x^8 + x^4 + x^3 + x + 1]. *)
Fixpoint gf8_mul_loop (n : nat) (a b r : Z) : Z :=
  match n with
  | O => r
  | S k =>
      gf8_mul_loop k (xtime a) (Z.shiftr b 1) (if Z.odd b then Z.lxor r a else r)
  end.

Definition gf8_mul (a b : Z) : Z := gf8_mul_loop 8 a b 0.

Definition gf8_inv (a : Z) : Z :=
  match find (fun b => gf8_mul a b =? 1) (map Z.of_nat (seq 1 255)) with
  | Some b => b
  | None => 0
  end.

Definition rotl8 (n x : Z) : Z := Z.lor (Z.shiftl x n mod 256) (Z.shiftr x (8 - n)).

(** The S-box: the inverse in GF(2^8) followed by the affine map. *)
Definition sbox_entry (a : Z) : Z :=
  let b := gf8_inv a in
  Z.lxor b (Z.lxor (rotl8 1 b) (Z.lxor (rotl8 2 b)
    (Z.lxor (rotl8 3 b) (Z.lxor (rotl8 4 b) 0x63)))).

Definition sbox : list Z :=
  Eval vm_compute in map sbox_entry (map Z.of_nat (seq 0 256)).

Definition sub_byte (b : Z) : Z := nth (Z.to_nat b) sbox 0.

Definition xor_list (a b : list Z) : list Z :=
  map (fun p => Z.lxor (fst p) (snd p)) (combine a b).

(** The key schedule, as a list of words, most recent first while built:
    [nk] words of key, [i] the index of the next word. *)
Fixpoint expand_key (n : nat) (nk i : nat) (rcon : Z) (rev_ws : list (list Z))
    : list (list Z) :=
  match n with
  | O => rev rev_ws
  | S k =>
      let prev := nth 0 rev_ws [] in
      let back := nth (nk - 1) rev_ws [] in
      if Nat.eqb (i mod nk) 0 then
        let rot := skipn 1 prev ++ firstn 1 prev in
        let t := xor_list (map sub_byte rot) [rcon; 0; 0; 0] in
        expand_key k nk (S i) (xtime rcon) (xor_list back t :: rev_ws)
      else if (Nat.ltb 6 nk && Nat.eqb (i mod nk) 4)%bool then
        expand_key k nk (S i) rcon (xor_list back (map sub_byte prev) :: rev_ws)
      else
        expand_key k nk (S i) rcon (xor_list back prev :: rev_ws)
  end.

Fixpoint chunks (n : nat) (size : nat) (l : list Z) : list (list Z) :=
  match n with
  | O => []
  | S k => firstn size l :: chunks k size (skipn size l)
  end.

(** The round keys of a key of [4 * nk] bytes: [nk + 7] blocks of 16. *)
Definition round_keys (key : list Z) : list (list Z) :=
  let nk := (length key / 4)%nat in
  let ws := expand_key (4 * (nk + 7) - nk) nk nk 1 (rev (chunks nk 4 key)) in
  chunks (nk + 7) 16 (concat ws).

Definition shift_rows (s : list Z) : list Z :=
  map (fun i => nth ((i mod 4 + 4 * ((i / 4 + i mod 4) mod 4)))%nat s 0) (seq 0 16).

Definition mix_column (c : list Z) : list Z :=
  let a0 := nth 0 c 0 in let a1 := nth 1 c 0 in
  let a2 := nth 2 c 0 in let a3 := nth 3 c 0 in
  let x3 b := Z.lxor (xtime b) b in
  [ Z.lxor (xtime a0) (Z.lxor (x3 a1) (Z.lxor a2 a3));
    Z.lxor a0 (Z.lxor (xtime a1) (Z.lxor (x3 a2) a3));
    Z.lxor a0 (Z.lxor a1 (Z.lxor (xtime a2) (x3 a3)));
    Z.lxor (x3 a0) (Z.lxor a1 (Z.lxor a2 (xtime a3))) ].

Definition mix_columns (s : list Z) : list Z :=
  concat (map mix_column (chunks 4 4 s)).

Fixpoint aes_rounds (s : list Z) (rks : list (list Z)) : list Z :=
  match rks with
  | [] => s
  | [rk] => xor_list (shift_rows (map sub_byte s)) rk
  | rk :: rest =>
      aes_rounds (xor_list (mix_columns (shift_rows (map sub_byte s))) rk) rest
  end.

(** One block under [key]; the block is a 128-bit big-endian number. *)
Definition aes_block (key : bytes) (block : Z) : Z :=
  match round_keys (map Z_of_byte key) with
  | [] => block
  | rk0 :: rest =>
      let s := map Z_of_byte (be_bytes 16 block) in
      be_value (map byte_of_Z (aes_rounds (xor_list s rk0) rest)) 0
  end.

(** *** GCM *)

(** The product in GF(2^128) with the bit order of GCM. *)
Fixpoint gf_mul_loop (n : nat) (x v z : Z) : Z :=
  match n with
  | O => z
  | S k =>
      let z := if Z.testbit x (Z.of_nat k) then Z.lxor z v else z in
      let v := if Z.testbit v 0
               then Z.lxor (Z.shiftr v 1) (Z.shiftl 0xe1 120)
               else Z.shiftr v 1 in
      gf_mul_loop k x v z
  end.

Definition gf_mul (x y : Z) : Z := gf_mul_loop 128 x y 0.

(** [l] cut into 16-byte blocks, the last one padded with zeros. *)
Fixpoint blocks16 (n : nat) (l : bytes) : list Z :=
  match n with
  | O => []
  | S k =>
      be_value (firstn 16 (firstn 16 l ++ repeat x00 16)) 0
      :: blocks16 k (skipn 16 l)
  end.

Definition padded_blocks (l : bytes) : list Z := blocks16 ((length l + 15) / 16) l.

Definition ghash (h : Z) (xs : list Z) : Z :=
  fold_left (fun y x => gf_mul (Z.lxor y x) h) xs 0.

Definition len_block (a c : bytes) : Z :=
  Z.lor (Z.shiftl (8 * Z.of_nat (length a)) 64) (8 * Z.of_nat (length c)).

Definition inc32 (ctr : Z) : Z :=
  Z.lor (Z.shiftl (Z.shiftr ctr 32) 32) ((ctr + 1) mod 2 ^ 32).

Definition j0 (h : Z) (nonce : bytes) : Z :=
  if Nat.eqb (length nonce) 12 then Z.lor (Z.shiftl (be_value nonce 0) 32) 1
  else ghash h (padded_blocks nonce ++ [8 * Z.of_nat (length nonce)]).

Fixpoint ctr_stream (n : nat) (key : bytes) (ctr : Z) : bytes :=
  match n with
  | O => []
  | S k => be_bytes 16 (aes_block key ctr) ++ ctr_stream k key (inc32 ctr)
  end.

Definition gctr (key : bytes) (icb : Z) (data : bytes) : bytes :=
  xor_bytes data (ctr_stream ((length data + 15) / 16) key icb).

Definition gcm_tag (key : bytes) (h j : Z) (ad ct : bytes) : bytes :=
  let s := ghash h (padded_blocks ad ++ padded_blocks ct ++ [len_block ad ct]) in
  be_bytes 16 (Z.lxor (aes_block key j) s).

Definition aes_gcm_seal (key nonce data ad : bytes) : bytes :=
  let h := aes_block key 0 in
  let j := j0 h nonce in
  let ct := gctr key (inc32 j) data in
  ct ++ gcm_tag key h j ad ct.

Definition aes_gcm_open (key nonce data ad : bytes) : option bytes :=
  let h := aes_block key 0 in
  let j := j0 h nonce in
  let n := (length data - 16)%nat in
  let ct := firstn n data in
  let tag := skipn n data in
  if bytes_eqb tag (gcm_tag key h j ad ct)
  then Some (gctr key (inc32 j) ct)
  else None.

(** *** Base64 and UTF-8 *)

Definition b64_alphabet : list ascii :=
  list_ascii_of_string
    "ABCDEFGHIJKLMNOPQRSTUVWXYZabcdefghijklmnopqrstuvwxyz0123456789+/".

Definition b64_char (n : Z) : ascii := nth (Z.to_nat n) b64_alphabet "A"%char.

Fixpoint index_of (c : ascii) (l : list ascii) (i : Z) : option Z :=
  match l with
  | [] => None
  | d :: t => if Ascii.eqb c d then Some i else index_of c t (i + 1)
  end.

Definition b64_value (c : ascii) : option Z := index_of c b64_alphabet 0.

Fixpoint base64_encode (l : bytes) : string :=
  match l with
  | [] => EmptyString
  | [a] =>
      let x := Z_of_byte a in
      String (b64_char (x / 4)) (String (b64_char (x mod 4 * 16)) "==")
  | [a; b] =>
      let x := Z_of_byte a in
      let y := Z_of_byte b in
      String (b64_char (x / 4))
        (String (b64_char (x mod 4 * 16 + y / 16))
           (String (b64_char (y mod 16 * 4)) "="))
  | a :: b :: c :: rest =>
      let x := Z_of_byte a in
      let y := Z_of_byte b in
      let z := Z_of_byte c in
      String (b64_char (x / 4))
        (String (b64_char (x mod 4 * 16 + y / 16))
           (String (b64_char (y mod 16 * 4 + z / 64))
              (String (b64_char (z mod 64)) (base64_encode rest))))
  end.

(** Decoding of canonical, padded Base64; anything else is rejected.
    (Python's default decoder also skips characters outside the alphabet.) *)
Fixpoint base64_decode (s : string) : result bytes :=
  match s with
  | EmptyString => Ok []
  | String c0 (String c1 (String c2 (String c3 rest))) =>
      match b64_value c0, b64_value c1 with
      | Some s0, Some s1 =>
          let b0 := byte_of_Z (s0 * 4 + s1 / 16) in
          if (Ascii.eqb c2 "=" && Ascii.eqb c3 "=")%bool then
            match rest with
            | EmptyString => Ok [b0]
            | _ => Raise BinasciiError
            end
          else
            match b64_value c2 with
            | Some s2 =>
                let b1 := byte_of_Z (s1 mod 16 * 16 + s2 / 4) in
                if Ascii.eqb c3 "=" then
                  match rest with
                  | EmptyString => Ok [b0; b1]
                  | _ => Raise BinasciiError
                  end
                else
                  match b64_value c3 with
                  | Some s3 =>
                      let b2 := byte_of_Z (s2 mod 4 * 64 + s3) in
                      r <- base64_decode rest ;;
                      Ok (b0 :: b1 :: b2 :: r)
                  | None => Raise BinasciiError
                  end
            | None => Raise BinasciiError
            end
      | _, _ => Raise BinasciiError
      end
  | _ => Raise BinasciiError
  end.

(** Text is modelled by [string], that is by code points below 256. *)
Fixpoint encode_utf8 (s : string) : bytes :=
  match s with
  | EmptyString => []
  | String c t =>
      let n := Z.of_nat (nat_of_ascii c) in
      if n <? 128 then byte_of_Z n :: encode_utf8 t
      else byte_of_Z (192 + n / 64) :: byte_of_Z (128 + n mod 64) :: encode_utf8 t
  end.

Fixpoint decode_utf8 (l : bytes) : result string :=
  match l with
  | [] => Ok EmptyString
  | b :: t =>
      let n := Z_of_byte b in
      if n <? 128 then
        r <- decode_utf8 t ;;
        Ok (String (ascii_of_nat (Z.to_nat n)) r)
      else
        match t with
        | b' :: t' =>
            let m := Z_of_byte b' in
            if ((194 <=? n) && (n <=? 195) && (128 <=? m) && (m <=? 191))%bool then
              r <- decode_utf8 t' ;;
              Ok (String (ascii_of_nat (Z.to_nat ((n - 192) * 64 + (m - 128)))) r)
            else Raise UnicodeDecodeError
        | [] => Raise UnicodeDecodeError
        end
  end.

Definition prims : primitives :=
  {| sha256_digest := sha256;
     hkdf_sha256 := hkdf;
     gcm_seal := aes_gcm_seal;
     gcm_open := aes_gcm_open;
     b64encode := base64_encode;
     b64decode := base64_decode;
     utf8_encode := encode_utf8;
     utf8_decode := decode_utf8 |}.

End Reference.

(** ** Concrete inputs *)

Module Scenario.

(** The byte strings [b"hello"], [b"header"] and [b"other"]. *)
Definition hello : bytes := [x68; x65; x6c; x6c; x6f].
Definition header : bytes := [x68; x65; x61; x64; x65; x72].
Definition other : bytes := [x6f; x74; x68; x65; x72].

Definition zero : pyfloat := S754_zero false.

(** [[(12.971599, 77.594566), (12.9716, 77.59456)]], the seed of the
    specification's scenario. *)
Definition seed : list coord :=
  [(decimal 12971599 6, decimal 77594566 6); (decimal 129716 4, decimal 7759456 5)].

(** [[(12.9715987, 77.594566), (12.9716000, 77.594560)]], the coordinates
    of the script's [__main__]. *)
Definition main_coords : list coord :=
  [(decimal 129715987 7, decimal 77594566 6); (decimal 129716000 7, decimal 77594560 6)].

(** [[(1e13, 0.0)]]: finite, but [1e13 * 10**6] exceeds [2**63 - 1]. *)
Definition far : list coord := [(decimal 10000000000000 0, zero)].

(** [[(1e19, 0.0)]], likewise. *)
Definition farther : list coord := [(decimal 10000000000000000000 0, zero)].


(** An entropy source whose bytes are 0, 1, 2, ... *)
Definition counting : entropy :=
  {| supply := fun i => byte_of_Z (Z.of_nat i); cursor := 0 |}.

(** A blob of 27 zero bytes. *)
Definition blob27 : bytes := repeat x00 27.

(** Sixteen bytes of associated data under which the tag of the scenario's
    package (seed [seed], entropy [counting], plaintext [hello], associated
    data [header]) verifies as well. *)
Definition forged : bytes :=
  [xcd; x56; x83; xcf; x74; x11; xd3; xf9; xf1; x49; x38; xca; xcd; x8b; xc7; xf3].

(** Two coordinates that differ in the seventh decimal only, and two that
    differ in the sixth. *)
Definition seventh_a : list coord := [(decimal 129715987 7, zero)].
Definition seventh_b : list coord := [(decimal 129715984 7, zero)].
Definition sixth_a : list coord := [(decimal 15 7, zero)].
Definition sixth_b : list coord := [(decimal 25 7, zero)].

(** A capture with four contours: one below the area threshold and two whose
    truncated areas tie. *)
Definition contours : list GVEMPlus.contour :=
  [ {| GVEMPlus.contourArea := decimal 305 1; GVEMPlus.m00 := decimal 305 1;
       GVEMPlus.m10 := decimal 3050 0; GVEMPlus.m01 := decimal 6100 0 |};
    {| GVEMPlus.contourArea := decimal 10 0; GVEMPlus.m00 := decimal 10 0;
       GVEMPlus.m10 := decimal 50 0; GVEMPlus.m01 := decimal 50 0 |};
    {| GVEMPlus.contourArea := decimal 30 0; GVEMPlus.m00 := decimal 30 0;
       GVEMPlus.m10 := decimal 9000 0; GVEMPlus.m01 := decimal 1500 0 |};
    {| GVEMPlus.contourArea := decimal 50 0; GVEMPlus.m00 := decimal 50 0;
       GVEMPlus.m10 := decimal 500 0; GVEMPlus.m01 := decimal 2500 0 |} ].

Definition shot : GVEMPlus.screenshot :=
  {| GVEMPlus.shape_h := 700; GVEMPlus.shape_w := 1000;
     GVEMPlus.gray := fun y x => byte_of_Z (x + y);
     GVEMPlus.cnts := contours |}.

Definition draws : GVEMPlus.rng :=
  {| GVEMPlus.raw := fun i => 7919 * Z.of_nat i; GVEMPlus.rpos := 0 |}.

Definition start : GVEMPlus.world := GVEMPlus.initial counting draws.

(** The globals after a capture of [shot] in the initial state. *)
Definition captured : GVEMPlus.world :=
  Eval vm_compute in
    match GVEMPlus.take_screenshot_and_process Reference.prims (Some shot) start with
    | Ok w => w
    | Raise _ => start
    end.

(** The globals after the phrase "hello" has then been encrypted, and
    after a second capture of [shot] has replaced the key. *)
Definition encrypted : GVEMPlus.world :=
  Eval vm_compute in
    match GVEMPlus.encrypt_phrase Reference.prims "hello" captured with
    | Ok w => w
    | Raise _ => start
    end.

Definition recaptured : GVEMPlus.world :=
  Eval vm_compute in
    match GVEMPlus.take_screenshot_and_process Reference.prims (Some shot) encrypted with
    | Ok w => w
    | Raise _ => start
    end.

(** Globals that no function of the script has set: a 5-byte key and the
    Base64 text of [b"hello"]. *)
Definition foreign : GVEMPlus.world :=
  {| GVEMPlus.derived_key := Some hello;
     GVEMPlus.ciphertext_b64 := Some "aGVsbG8="%string;
     GVEMPlus.nonce := None;
     GVEMPlus.plaintext_hash_hex := None;
     GVEMPlus.raw_pool_sample := None;
     GVEMPlus.os_entropy := counting;
     GVEMPlus.py_random := draws;
     GVEMPlus.entropy_pool_bin := None |}.

End Scenario.

(** ** [src/ABB.py]: the entry point *)

Definition newline : string := String (ascii_of_nat 10) EmptyString.

(** The block under [if __name__ == "__main__"].  [line] is what [input]
    returned; the result is the text written to standard output: the prompt
    and the two printed lines. *)
Definition main (P : primitives) (line : string) (s : entropy)
    : result (string * entropy) :=
  let coords := Scenario.main_coords in
  let user_input := utf8_encode P line in
  '(packaged, s) <- encrypt_with_coords P coords user_input Scenario.header s ;;
  recovered <- decrypt_with_coords P coords packaged Scenario.header ;;
  text <- utf8_decode P recovered ;;
  Ok (("Enter text to encrypt: "
       ++ newline ++ "Encrypted (hex): " ++ GVEMPlus.hex packaged ++ newline
       ++ "Decrypted text: " ++ text ++ newline)%string, s).

(** ** [src/GVEMPlus/ABB.py]: the simulation's types and the event loop *)

Module Simulator.
Import GVEMPlus.

Definition W : Z := 1000.
Definition H : Z := 700.

(** [pygame.Rect(left, top, width, height)] and [Rect.collidepoint]: the
    right and bottom edges are outside. *)
Record Rect : Type := { left : Z; top : Z; width : Z; height : Z }.

Definition collidepoint (r : Rect) (x y : Z) : bool :=
  (left r <=? x) && (x <? left r + width r)
  && (top r <=? y) && (y <? top r + height r).

Definition capture_rect : Rect :=
  {| left := W - 180; top := H - 70; width := 160; height := 44 |}.
Definition decrypt_rect : Rect :=
  {| left := W - 360; top := H - 70; width := 160; height := 44 |}.

(** Float arithmetic on small integers and floats. *)
Definition fl (z : Z) : pyfloat := binary_normalize prec64 emax64 z 0 false.
Definition fadd : pyfloat -> pyfloat -> pyfloat := SFadd prec64 emax64.
Definition fsub : pyfloat -> pyfloat -> pyfloat := SFsub prec64 emax64.

Definition next (g : rng) : rng := {| raw := raw g; rpos := S (rpos g) |}.

(** [random.random()]: [k / 2**53] for a 53-bit [k]. *)
Definition random_random (g : rng) : pyfloat * rng :=
  (binary_normalize prec64 emax64 (raw g (rpos g) mod 2 ^ 53) (-53) false, next g).

(** [random.uniform(a, b)], that is [a + (b - a) * random()]. *)
Definition uniform (a b : pyfloat) (g : rng) : pyfloat * rng :=
  let '(r, g) := random_random g in
  (fadd a (fmul (fsub b a) r), g).

(** One element of [np.random.randint(low, high, n)], from NumPy's own
    generator. *)
Definition np_randint (low high : Z) (g : rng) : Z * rng :=
  (low + raw g (rpos g) mod (high - low), next g).

(** [max(a, b)] on floats: the first argument unless the second is greater. *)
Definition py_max (a b : pyfloat) : pyfloat := if SFltb a b then b else a.

(** [math.pi] *)
Definition math_pi : pyfloat := decimal 3141592653589793 15.

(** [class MicroType] *)
Record MicroType : Type := {
  kind_id : nat;
  shape : string;
  color : Z * Z * Z;
  size : pyfloat;
  v_mean : pyfloat;
  tumble_rate : pyfloat;
  D_t : pyfloat;
  D_r : pyfloat
}.

(** [class Micro], as [__init__] leaves it. *)
Record Micro : Type := {
  type_ : MicroType;
  pos : pyfloat * pyfloat;
  theta : pyfloat;
  v0 : pyfloat
}.

Definition shapes : list string := ["circle"; "rect"; "triangle"; "star"]%string.

(** The body of the loop of [make_types] for index [i]. *)
Definition make_type (i : nat) (g npg : rng) : MicroType * rng * rng :=
  let shape := nth (i mod length shapes) shapes EmptyString in
  let '(c0, npg) := np_randint 50 230 npg in
  let '(c1, npg) := np_randint 50 230 npg in
  let '(c2, npg) := np_randint 50 230 npg in
  let color := (c0, c1, c2) in
  let fi := fl (Z.of_nat i) in
  let '(size, g) := uniform (fadd (fl 3) (fmul fi (decimal 3 1)))
                            (fadd (fl 8) (fmul fi (decimal 6 1))) g in
  let '(v_mean, g) := uniform (fl (10 + Z.of_nat i * 3)) (fl (80 + Z.of_nat i * 5)) g in
  let '(tumble_rate, g) := uniform (decimal 2 2) (decimal 3 1) g in
  let '(D_t, g) := uniform (decimal 1 1) (decimal 12 1) g in
  let '(D_r, g) := uniform (decimal 5 2) (decimal 8 1) g in
  ({| kind_id := i; shape := shape; color := color; size := size;
      v_mean := v_mean; tumble_rate := tumble_rate; D_t := D_t; D_r := D_r |},
   g, npg).

Fixpoint make_types_loop (n i : nat) (g npg : rng) (types : list MicroType)
    : list MicroType * rng * rng :=
  match n with
  | O => (types, g, npg)
  | S k =>
      let '(t, g, npg) := make_type i g npg in
      make_types_loop k (S i) g npg (types ++ [t])
  end.

Definition make_types (count_types : Z) (g npg : rng) : list MicroType * rng * rng :=
  make_types_loop (Z.to_nat count_types) 0 g npg [].

(** The built-ins that the loop calls and whose algorithms are outside the
    model: [int(text.strip())], [str.isdigit] and [random.gauss(mu, sigma)]. *)
Record builtins : Type := {
  py_int : string -> result Z;
  isdigit : string -> bool;
  gauss : pyfloat -> pyfloat -> rng -> pyfloat * rng
}.

(** [typed_text[:-1]] *)
Fixpoint drop_last (s : string) : string :=
  match s with
  | EmptyString => EmptyString
  | String c EmptyString => EmptyString
  | String c t => String c (drop_last t)
  end.

(** The value of the global [state]. *)
Inductive ui_state : Type := ask_count | state_running | phrase_input | done.

Definition ui_state_eqb (a b : ui_state) : bool :=
  match a, b with
  | ask_count, ask_count | state_running, state_running
  | phrase_input, phrase_input | done, done => true
  | _, _ => false
  end.

(** What the event handlers print: ["Spawning {count_types} types, total
    microbes: {len(microbes)}"], ["Decrypted text: {pt}"] and ["Decryption
    failed or key not available."].  The lines that
    [take_screenshot_and_process] prints itself are not recorded. *)
Inductive output : Type :=
| Spawning (count_types total : Z)
| DecryptedText (pt : string)
| DecryptionFailed.

Inductive key : Type := K_RETURN | K_BACKSPACE | K_other.

(** An event of [pygame.event.get()].  A mouse click carries what
    [pygame.mouse.get_pos()] returns while it is handled and what a capture
    made at that moment would read. *)
Inductive event : Type :=
| QUIT
| KEYDOWN (k : key) (unicode : string)
| MOUSEBUTTONDOWN (mx my : Z) (img : option screenshot)
| other_event.

(** The globals of the script: the loop's own, and those of the crypto
    functions in [globals]. *)
Record session : Type := {
  running : bool;
  state : ui_state;
  typed_text : string;
  count_types : option Z;
  micro_types : list MicroType;
  microbes : list Micro;
  globals : world;
  np_random : rng;
  printed : list output
}.

Definition start (s : entropy) (g npg : rng) : session :=
  {| running := true; state := ask_count; typed_text := EmptyString;
     count_types := None; micro_types := []; microbes := [];
     globals := initial s g; np_random := npg; printed := [] |}.

Definition set_running (b : bool) (u : session) : session :=
  {| running := b; state := state u; typed_text := typed_text u;
     count_types := count_types u; micro_types := micro_types u;
     microbes := microbes u; globals := globals u; np_random := np_random u;
     printed := printed u |}.

Definition set_state (st : ui_state) (u : session) : session :=
  {| running := running u; state := st; typed_text := typed_text u;
     count_types := count_types u; micro_types := micro_types u;
     microbes := microbes u; globals := globals u; np_random := np_random u;
     printed := printed u |}.

Definition set_typed_text (t : string) (u : session) : session :=
  {| running := running u; state := state u; typed_text := t;
     count_types := count_types u; micro_types := micro_types u;
     microbes := microbes u; globals := globals u; np_random := np_random u;
     printed := printed u |}.

Definition set_globals (w : world) (u : session) : session :=
  {| running := running u; state := state u; typed_text := typed_text u;
     count_types := count_types u; micro_types := micro_types u;
     microbes := microbes u; globals := w; np_random := np_random u;
     printed := printed u |}.

Definition print (o : output) (u : session) : session :=
  {| running := running u; state := state u; typed_text := typed_text u;
     count_types := count_types u; micro_types := micro_types u;
     microbes := microbes u; globals := globals u; np_random := np_random u;
     printed := printed u ++ [o] |}.

Definition set_py_random (g : rng) (w : world) : world :=
  {| derived_key := derived_key w; ciphertext_b64 := ciphertext_b64 w;
     nonce := nonce w; plaintext_hash_hex := plaintext_hash_hex w;
     raw_pool_sample := raw_pool_sample w; os_entropy := os_entropy w;
     py_random := g; entropy_pool_bin := entropy_pool_bin w |}.

(** The order in which the states follow one another. *)
Definition rank (st : ui_state) : nat :=
  match st with
  | ask_count => 0
  | state_running => 1
  | phrase_input => 2
  | done => 3
  end.

Definition in_colour_range (c : Z * Z * Z) : Prop :=
  let '(r, g, b) := c in 50 <= r < 230 /\ 50 <= g < 230 /\ 50 <= b < 230.

(** [Micro.step] moves and turns a microbe; its type and its speed stay. *)
Definition same_kind (m m' : Micro) : Prop := type_ m' = type_ m /\ v0 m' = v0 m.

Definition after_steps (ms : list Micro) (g npg : rng) (u : session) : session :=
  {| running := running u; state := state u; typed_text := typed_text u;
     count_types := count_types u; micro_types := micro_types u;
     microbes := ms; globals := set_py_random g (globals u); np_random := npg;
     printed := printed u |}.

(** What the rest of the loop body, after the events, can change.  In state
    ["ask_count"] it only draws.  In the other states every microbe takes a
    step, which draws from both generators, and the screen is drawn. *)
Inductive frame (u : session) : session -> Prop :=
| frame_prompt : state u = ask_count -> frame u u
| frame_steps : forall ms g npg,
    state u <> ask_count -> Forall2 same_kind (microbes u) ms ->
    frame u (after_steps ms g npg u).

(** The microbes exist: between 1 and 12 types, and 40 microbes of each
    type, type after type. *)
Definition spawned (u : session) : Prop :=
  exists n, count_types u = Some n /\ 1 <= n <= 12
    /\ length (micro_types u) = Z.to_nat n
    /\ map type_ (microbes u) = flat_map (fun t => repeat t 40) (micro_types u).

(** What an event or a frame leaves in place: the state does not go back;
    from ["phrase_input"] on the key and the audit file stay; in ["done"]
    the ciphertext stays. *)
Definition keeps (u u' : session) : Prop :=
  (rank (state u) <= rank (state u'))%nat
  /\ ((2 <= rank (state u))%nat ->
      derived_key (globals u') = derived_key (globals u)
      /\ entropy_pool_bin (globals u') = entropy_pool_bin (globals u))
  /\ ((3 <= rank (state u))%nat ->
      ciphertext_b64 (globals u') = ciphertext_b64 (globals u)).

Section Loop.

Variable B : builtins.
Variable P : primitives.

(** [Micro(mtype)] *)
Definition new_micro (mtype : MicroType) (g : rng) : Micro * rng :=
  let '(x, g) := uniform (fl 0) (fl W) g in
  let '(y, g) := uniform (fl 0) (fl H) g in
  let '(th, g) := uniform (fl 0) (fmul (fl 2) math_pi) g in
  let '(v, g) := gauss B (v_mean mtype)
                   (py_max (fl 1) (fmul (decimal 2 1) (v_mean mtype))) g in
  ({| type_ := mtype; pos := (x, y); theta := th; v0 := py_max (fl 1) v |}, g).

(** [for _ in range(n): microbes.append(Micro(t))] *)
Fixpoint spawn_type (n : nat) (t : MicroType) (g : rng) (microbes : list Micro)
    : list Micro * rng :=
  match n with
  | O => (microbes, g)
  | S k =>
      let '(m, g) := new_micro t g in
      spawn_type k t g (microbes ++ [m])
  end.

(** [for t in micro_types: for _ in range(40): ...] *)
Fixpoint spawn (types : list MicroType) (g : rng) (microbes : list Micro)
    : list Micro * rng :=
  match types with
  | [] => (microbes, g)
  | t :: rest =>
      let '(microbes, g) := spawn_type 40 t g microbes in
      spawn rest g microbes
  end.

(** The [try] block that Enter runs in state ["ask_count"], once [int]
    returned [val]. *)
Definition start_simulation (val : Z) (u : session) : session :=
  let val := if val <? 1 then 1 else val in
  let val := if 12 <? val then 12 else val in
  let '(types, g, npg) :=
    make_types val (py_random (globals u)) (np_random u) in
  let '(ms, g) := spawn types g [] in
  {| running := running u; state := state_running; typed_text := EmptyString;
     count_types := Some val; micro_types := types; microbes := ms;
     globals := set_py_random g (globals u); np_random := npg;
     printed := printed u ++ [Spawning val (Z.of_nat (length ms))] |}.

Definition handle_keydown (k : key) (unicode : string) (u : session)
    : result session :=
  match state u with
  | ask_count =>
      match k with
      | K_RETURN =>
          match py_int B (typed_text u) with
          | Ok val => Ok (start_simulation val u)
          | Raise _ => Ok (set_typed_text EmptyString u)
          end
      | K_BACKSPACE => Ok (set_typed_text (drop_last (typed_text u)) u)
      | K_other =>
          if isdigit B unicode
          then Ok (set_typed_text (typed_text u ++ unicode) u)
          else Ok u
      end
  | phrase_input =>
      match k with
      | K_RETURN =>
          let phrase := typed_text u in
          let u := set_typed_text EmptyString u in
          w <- encrypt_phrase P phrase (globals u) ;;
          Ok (set_state done (set_globals w u))
      | K_BACKSPACE => Ok (set_typed_text (drop_last (typed_text u)) u)
      | K_other => Ok (set_typed_text (typed_text u ++ unicode) u)
      end
  | _ => Ok u
  end.

Definition handle_click (mx my : Z) (img : option screenshot) (u : session)
    : result session :=
  u <- (if collidepoint capture_rect mx my && ui_state_eqb (state u) state_running
        then
          w <- take_screenshot_and_process P img (globals u) ;;
          Ok (set_typed_text EmptyString (set_state phrase_input (set_globals w u)))
        else Ok u) ;;
  if collidepoint decrypt_rect mx my
     && (ui_state_eqb (state u) done || ui_state_eqb (state u) phrase_input)
  then
    pt <- decrypt_ciphertext P (globals u) ;;
    match pt with
    | Some text => Ok (print (DecryptedText text) u)
    | None => Ok (print DecryptionFailed u)
    end
  else Ok u.

(** The body of [for event in pygame.event.get()]. *)
Definition handle_event (e : event) (u : session) : result session :=
  match e with
  | QUIT => Ok (set_running false u)
  | KEYDOWN k unicode => handle_keydown k unicode u
  | MOUSEBUTTONDOWN mx my img => handle_click mx my img u
  | other_event => Ok u
  end.

(** The events of a run, handled in order. *)
Fixpoint handle_events (es : list event) (u : session) : result session :=
  match es with
  | [] => Ok u
  | e :: rest =>
      u <- handle_event e u ;;
      handle_events rest u
  end.

(** The sessions that a run can get to from [u]: events are handled and
    frames pass, in any order. *)
Inductive reaches (u : session) : session -> Prop :=
| reaches_here : reaches u u
| reaches_event : forall e u1 u2,
    reaches u u1 -> handle_event e u1 = Ok u2 -> reaches u u2
| reaches_frame : forall u1 u2,
    reaches u u1 -> frame u1 u2 -> reaches u u2.

(** What holds of the globals in each state. *)
Definition consistent (u : session) : Prop :=
  let w := globals u in
  (forall k, derived_key w = Some k -> length k = 32%nat)
  /\ match state u with
     | ask_count =>
         count_types u = None /\ micro_types u = [] /\ microbes u = []
         /\ derived_key w = None /\ ciphertext_b64 w = None
     | state_running =>
         spawned u /\ derived_key w = None /\ ciphertext_b64 w = None
     | phrase_input => spawned u /\ ciphertext_b64 w = None
     | done =>
         spawned u /\ (ciphertext_b64 w = None <-> derived_key w = None)
     end.

End Loop.

(** Built-ins for running the loop on concrete input: [int] on strings of
    ASCII digits (what the key handler lets through on a plain keyboard), and
    a sampler that returns its mean. *)
Fixpoint digits_value (s : string) (acc : Z) : option Z :=
  match s with
  | EmptyString => Some acc
  | String c t =>
      let n := Z.of_nat (nat_of_ascii c) in
      if (48 <=? n) && (n <=? 57) then digits_value t (acc * 10 + (n - 48))
      else None
  end.

Definition digits_int (s : string) : result Z :=
  match s with
  | EmptyString => Raise ValueError
  | _ => match digits_value s 0 with
         | Some v => Ok v
         | None => Raise ValueError
         end
  end.

Definition ascii_isdigit (s : string) : bool :=
  match s with
  | EmptyString => false
  | _ => match digits_value s 0 with Some _ => true | None => false end
  end.

Definition plain : builtins :=
  {| py_int := digits_int; isdigit := ascii_isdigit;
     gauss := fun mu _ g => (mu, next g) |}.

(** The start of a run: "1", Enter, a click on CAPTURE, "hi". *)
Definition CR : string := String (ascii_of_nat 13) EmptyString.

Definition typing : list event :=
  [KEYDOWN K_other "1"; KEYDOWN K_RETURN CR;
   MOUSEBUTTONDOWN 900 650 (Some Scenario.shot);
   KEYDOWN K_other "h"; KEYDOWN K_other "i"].

Definition fresh : session :=
  start Scenario.counting Scenario.draws Scenario.draws.

(** The session after the first two of these events, and after all five. *)
Definition swimming : session :=
  Eval vm_compute in
    match handle_events plain Reference.prims (firstn 2 typing) fresh with
    | Ok u => u
    | Raise _ => fresh
    end.

Definition typed : session :=
  Eval vm_compute in
    match handle_events plain Reference.prims typing fresh with
    | Ok u => u
    | Raise _ => fresh
    end.

End Simulator.

(** * Properties *)

(** ** Bytes and fixed-width integers *)

Lemma Z_of_byte_range (b : byte) : 0 <= Z_of_byte b < 256.
Proof.
  unfold Z_of_byte. pose proof (Byte.to_N_bounded b) as H. lia.
Qed.

Lemma byte_of_Z_of_byte (b : byte) : byte_of_Z (Z_of_byte b) = b.
Proof.
  unfold byte_of_Z, Z_of_byte.
  rewrite Z.mod_small by (pose proof (Byte.to_N_bounded b); lia).
  rewrite N2Z.id, Byte.of_to_N. reflexivity.
Qed.

Lemma Z_of_byte_of_Z (z : Z) : Z_of_byte (byte_of_Z z) = z mod 256.
Proof.
  unfold byte_of_Z, Z_of_byte.
  assert (Hr : 0 <= z mod 256 < 256) by (apply Z.mod_pos_bound; lia).
  destruct (Byte.of_N (Z.to_N (z mod 256))) as [b|] eqn:E.
  - apply Byte.to_of_N in E. rewrite E, Z2N.id; lia.
  - apply Byte.of_N_None_iff in E. lia.
Qed.

Lemma be_bytes_length (n : nat) (z : Z) : length (be_bytes n z) = n.
Proof. induction n; simpl; congruence. Qed.

Lemma le_bytes_length (n : nat) (z : Z) : length (le_bytes n z) = n.
Proof. revert z; induction n; intros; simpl; auto. Qed.

Lemma be_value_app (a b : bytes) (acc : Z) :
  be_value (a ++ b) acc = be_value b (be_value a acc).
Proof. revert acc; induction a; intros; simpl; auto. Qed.

Lemma be_value_acc (l : bytes) (acc : Z) :
  be_value l acc = acc * 256 ^ Z.of_nat (length l) + be_value l 0.
Proof.
  revert acc; induction l as [|b t IH]; intros acc.
  - simpl. lia.
  - cbn [be_value length]. rewrite IH, (IH (0 * 256 + Z_of_byte b)).
    rewrite Nat2Z.inj_succ, Z.pow_succ_r by lia. ring.
Qed.

Lemma be_value_be_bytes (n : nat) (z : Z) :
  be_value (be_bytes n z) 0 = z mod 256 ^ Z.of_nat n.
Proof.
  induction n as [|k IH].
  - simpl. rewrite Z.mod_1_r. reflexivity.
  - cbn [be_bytes be_value]. rewrite be_value_acc, be_bytes_length, IH.
    rewrite Z_of_byte_of_Z, Z.shiftr_div_pow2 by lia.
    rewrite Nat2Z.inj_succ, Z.pow_succ_r by lia.
    replace (2 ^ (8 * Z.of_nat k)) with (256 ^ Z.of_nat k)
      by (rewrite Z.pow_mul_r by lia; reflexivity).
    set (m := 256 ^ Z.of_nat k).
    assert (Hm : 0 < m) by (apply Z.pow_pos_nonneg; lia).
    replace (256 * m) with (m * 256) by ring.
    rewrite (Z.rem_mul_r z m 256) by lia. simpl. ring.
Qed.

Lemma unpack_q_pack (n : Z) :
  in_int64 n = true -> unpack_q (be_bytes 8 n) = n.
Proof.
  unfold in_int64, int64_min, int64_max, unpack_q. intros H.
  apply andb_true_iff in H as [H1 H2].
  apply Z.leb_le in H1, H2.
  rewrite be_value_be_bytes.
  change (256 ^ Z.of_nat 8) with (2 ^ 64).
  destruct (Z.ltb_spec n 0).
  - replace (n mod 2 ^ 64) with (n + 2 ^ 64).
    + destruct (Z.ltb_spec (n + 2 ^ 64) (2 ^ 63)); lia.
    + apply Z.mod_unique with (q := -1); lia.
  - rewrite Z.mod_small by lia.
    destruct (Z.ltb_spec n (2 ^ 63)); lia.
Qed.

Lemma struct_pack_q_inj (n m : Z) :
  in_int64 n = true -> in_int64 m = true ->
  be_bytes 8 n = be_bytes 8 m -> n = m.
Proof.
  intros Hn Hm E.
  rewrite <- (unpack_q_pack n Hn), <- (unpack_q_pack m Hm), E. reflexivity.
Qed.

Lemma app_eq_length {A : Type} (a a' b b' : list A) :
  length a = length a' -> a ++ b = a' ++ b' -> a = a' /\ b = b'.
Proof.
  revert a'; induction a as [|x a IH]; intros [|y a'] Hl E; simpl in *;
    try discriminate; auto.
  injection E as -> E. injection Hl as Hl.
  destruct (IH _ Hl E) as [-> ->]. auto.
Qed.

(** ** The coordinate encoding *)

Lemma bind_ok {A B : Type} (r : result A) (k : A -> result B) (b : B) :
  bind r k = Ok b -> exists a, r = Ok a /\ k a = Ok b.
Proof. destruct r; simpl; intros H; [eauto | discriminate]. Qed.

Lemma scale_round_exn (scale : Z) (x : pyfloat) (e : exn) :
  scale_round scale x = Raise e -> e = ValueError \/ e = OverflowError.
Proof.
  unfold scale_round, float_of_int, py_round.
  destruct (binary_normalize prec64 emax64 scale 0 false); cbn [bind];
    try (intros H; injection H as <-; auto);
    match goal with
    | |- context [fmul ?a ?b] => destruct (fmul a b)
    end; intros H; try discriminate; injection H as <-; auto.
Qed.

Lemma encode_pair_ok (scale : Z) (x y : pyfloat) :
  component_ok scale x = true -> component_ok scale y = true ->
  encode_pair scale (x, y) = Ok (pair_bytes scale (x, y)).
Proof.
  unfold component_ok, pair_bytes, component_int, encode_pair, scale_round, fst, snd.
  destruct (float_of_int scale) as [s|]; cbn [bind]; [|discriminate].
  destruct (py_round (fmul x s)) as [xi|]; cbn [bind]; [|discriminate].
  destruct (py_round (fmul y s)) as [yi|]; cbn [bind]; [|discriminate].
  intros Hx Hy. unfold struct_pack_q. rewrite Hx, Hy. reflexivity.
Qed.

Lemma encode_pair_fail (scale : Z) (x y : pyfloat) :
  component_ok scale x && component_ok scale y = false ->
  exists e, encode_pair scale (x, y) = Raise e
            /\ (e = ValueError \/ e = OverflowError \/ e = StructError).
Proof.
  unfold component_ok, encode_pair.
  destruct (scale_round scale x) as [xi|ex] eqn:Ex.
  - destruct (scale_round scale y) as [yi|ey] eqn:Ey.
    + unfold scale_round in Ex, Ey.
      destruct (float_of_int scale) as [s|]; cbn [bind] in *; [|discriminate].
      rewrite Ex, Ey. cbn [bind]. unfold struct_pack_q.
      destruct (in_int64 xi); cbn [bind andb].
      * intros ->. cbn [bind]. eauto.
      * intros _. eauto.
    + intros _. pose proof (scale_round_exn _ _ Ey) as He.
      unfold scale_round in Ex, Ey.
      destruct (float_of_int scale) as [s|]; cbn [bind] in *; [|discriminate].
      rewrite Ex, Ey. cbn [bind]. exists ey. intuition.
  - intros _. pose proof (scale_round_exn _ _ Ex) as He.
    unfold scale_round in Ex.
    destruct (float_of_int scale) as [s|]; cbn [bind] in *.
    + rewrite Ex. cbn [bind]. exists ex. intuition.
    + exists ex. injection Ex as ->. intuition.
Qed.

Lemma coords_loop_acc (scale : Z) (cs : list coord) (b : bytes) :
  coords_loop scale cs b =
  match coords_loop scale cs [] with
  | Ok e => Ok (b ++ e)
  | Raise e => Raise e
  end.
Proof.
  revert b; induction cs as [|c cs IH]; intros b; cbn [coords_loop].
  - rewrite app_nil_r. reflexivity.
  - destruct (encode_pair scale c) as [e|]; cbn [bind]; [|reflexivity].
    rewrite IH, (IH ([] ++ e)).
    destruct (coords_loop scale cs []); [|reflexivity].
    rewrite app_assoc. reflexivity.
Qed.

Lemma coords_to_bytes_cons (c : coord) (cs : list coord) (p : nat) :
  coords_to_bytes (c :: cs) p =
  (e <- encode_pair (10 ^ Z.of_nat p) c ;;
   r <- coords_to_bytes cs p ;;
   Ok (e ++ r)).
Proof.
  unfold coords_to_bytes. cbn [coords_loop].
  destruct (encode_pair (10 ^ Z.of_nat p) c) as [e|]; cbn [bind]; [|reflexivity].
  rewrite coords_loop_acc. reflexivity.
Qed.

Lemma coords_to_bytes_encodable (cs : list coord) (p : nat) :
  encodable p cs = true ->
  coords_to_bytes cs p = Ok (flat_map (pair_bytes (10 ^ Z.of_nat p)) cs).
Proof.
  induction cs as [|[x y] cs IH]; intros H.
  - reflexivity.
  - cbn [encodable forallb fst snd] in H.
    apply andb_true_iff in H as [Hc Hr]. apply andb_true_iff in Hc as [Hx Hy].
    rewrite coords_to_bytes_cons, (encode_pair_ok _ _ _ Hx Hy).
    cbn [bind]. rewrite (IH Hr). reflexivity.
Qed.

Lemma coords_to_bytes_not_encodable (cs : list coord) (p : nat) :
  encodable p cs = false ->
  exists e, coords_to_bytes cs p = Raise e
            /\ (e = ValueError \/ e = OverflowError \/ e = StructError).
Proof.
  induction cs as [|[x y] cs IH]; intros H.
  - discriminate.
  - cbn [encodable forallb fst snd] in H.
    rewrite coords_to_bytes_cons.
    destruct (component_ok (10 ^ Z.of_nat p) x && component_ok (10 ^ Z.of_nat p) y) eqn:Hc.
    + apply andb_true_iff in Hc as [Hx Hy].
      rewrite (encode_pair_ok _ _ _ Hx Hy). cbn [bind].
      destruct (IH H) as (e & -> & He). exists e. auto.
    + destruct (encode_pair_fail _ _ _ Hc) as (e & -> & He). exists e. auto.
Qed.

Lemma coords_to_bytes_is_ok (cs : list coord) (p : nat) :
  is_ok (coords_to_bytes cs p) = encodable p cs.
Proof.
  destruct (encodable p cs) eqn:E.
  - rewrite (coords_to_bytes_encodable _ _ E). reflexivity.
  - destruct (coords_to_bytes_not_encodable _ _ E) as (e & -> & _). reflexivity.
Qed.

Lemma pair_bytes_length (scale : Z) (c : coord) : length (pair_bytes scale c) = 16%nat.
Proof. unfold pair_bytes. rewrite length_app, !be_bytes_length. reflexivity. Qed.

Lemma flat_map_pair_bytes_length (scale : Z) (cs : list coord) :
  length (flat_map (pair_bytes scale) cs) = (16 * length cs)%nat.
Proof.
  induction cs as [|c cs IH]; [reflexivity|].
  cbn [flat_map]. rewrite length_app, pair_bytes_length, IH. cbn [length]. lia.
Qed.

(** ** Packaging ([src/ABB.py]) *)

Lemma os_urandom_length (n : nat) (s : entropy) :
  length (fst (os_urandom n s)) = n.
Proof. unfold os_urandom. cbn [fst]. rewrite length_map, length_seq. reflexivity. Qed.

Lemma slice_to_package (salt rest : bytes) :
  length salt = 16%nat -> slice_to 16 (salt ++ rest) = salt.
Proof.
  intros H. unfold slice_to. rewrite <- H, firstn_app, Nat.sub_diag, firstn_all.
  cbn [firstn]. apply app_nil_r.
Qed.

Lemma slice_package (salt nonce ct : bytes) :
  length salt = 16%nat -> length nonce = 12%nat ->
  slice 16 28 (salt ++ nonce ++ ct) = nonce.
Proof.
  intros Hs Hn. unfold slice.
  rewrite <- Hs, skipn_app, Nat.sub_diag, skipn_all. cbn [skipn app].
  rewrite Hs. change (28 - 16)%nat with 12%nat.
  rewrite <- Hn, firstn_app, Nat.sub_diag, firstn_all. cbn [firstn]. apply app_nil_r.
Qed.

Lemma slice_from_package (salt nonce ct : bytes) :
  length salt = 16%nat -> length nonce = 12%nat ->
  slice_from 28 (salt ++ nonce ++ ct) = ct.
Proof.
  intros Hs Hn. unfold slice_from.
  rewrite app_assoc.
  replace 28%nat with (length (salt ++ nonce)) by (rewrite length_app; lia).
  rewrite skipn_app, Nat.sub_diag, skipn_all. reflexivity.
Qed.

Section Packaging.

Variable P : primitives.
Hypothesis HP : primitives_ok P.

Lemma package_key_size (cb salt : bytes) : key_size_ok (package_key P cb salt) = true.
Proof.
  unfold key_size_ok, package_key.
  rewrite (hkdf_sha256_length HP) by lia. reflexivity.
Qed.

Lemma derive_package_key (cb salt : bytes) :
  (aes_key <- derive_keys P (sha256 P (cb ++ salt)) info_coords_aes256 32 ;;
   AESGCM aes_key) = Ok (package_key P cb salt).
Proof.
  unfold derive_keys, HKDF_derive.
  change (Nat.ltb (255 * 32) 32) with false. cbn [bind]. unfold AESGCM.
  fold (package_key P cb salt). rewrite package_key_size. reflexivity.
Qed.

Lemma bind_assoc {A B C : Type} (r : result A) (f : A -> result B) (g : B -> result C) :
  bind (bind r f) g = bind r (fun a => bind (f a) g).
Proof. destruct r; reflexivity. Qed.

(** What a successful encryption returns, field by field. *)
Lemma encrypt_with_coords_eq (coords : list coord) (cb pt ad : bytes) (s : entropy) :
  coords_to_bytes coords 6 = Ok cb ->
  let salt := fst (os_urandom 16 s) in
  let s1 := snd (os_urandom 16 s) in
  let nonce := fst (os_urandom 12 s1) in
  let s2 := snd (os_urandom 12 s1) in
  encrypt_with_coords P coords pt ad s =
  Ok (salt ++ nonce ++ gcm_seal P (package_key P cb salt) nonce pt ad, s2).
Proof.
  intros Hc. cbv zeta. unfold encrypt_with_coords.
  rewrite Hc. cbn [bind].
  destruct (os_urandom 16 s) as [salt s1]. cbn [fst snd].
  pose proof (os_urandom_length 12 s1) as Hn.
  destruct (os_urandom 12 s1) as [nonce s2]. cbn [fst snd] in *.
  rewrite <- bind_assoc, derive_package_key. cbn [bind].
  unfold AESGCM_encrypt, nonce_size_ok. rewrite Hn. reflexivity.
Qed.

(** Decryption re-derives the key from the salt it reads in the package. *)
Lemma decrypt_with_coords_eq (coords : list coord) (cb pkg ad : bytes) :
  coords_to_bytes coords 6 = Ok cb ->
  decrypt_with_coords P coords pkg ad =
  AESGCM_decrypt P (package_key P cb (slice_to 16 pkg))
                 (slice 16 28 pkg) (slice_from 28 pkg) ad.
Proof.
  intros Hc. unfold decrypt_with_coords. rewrite Hc. cbn [bind].
  rewrite <- bind_assoc, derive_package_key. reflexivity.
Qed.

Lemma decrypt_sealed (key nonce pt ad : bytes) :
  key_size_ok key = true -> length nonce = 12%nat ->
  AESGCM_decrypt P key nonce (gcm_seal P key nonce pt ad) ad = Ok pt.
Proof.
  intros Hk Hn. unfold AESGCM_decrypt.
  assert (Hn' : nonce_size_ok nonce = true)
    by (unfold nonce_size_ok; rewrite Hn; reflexivity).
  rewrite Hn', (gcm_seal_length HP) by assumption.
  replace (Nat.ltb (length pt + 16) 16) with false
    by (symmetry; apply Nat.ltb_ge; lia).
  rewrite (gcm_open_seal HP) by assumption. reflexivity.
Qed.

Lemma roundtrip_encoded (coords coords' : list coord) (cb pt ad : bytes) (s : entropy) :
  coords_to_bytes coords 6 = Ok cb ->
  coords_to_bytes coords' 6 = Ok cb ->
  exists pkg s',
    encrypt_with_coords P coords pt ad s = Ok (pkg, s')
    /\ decrypt_with_coords P coords' pkg ad = Ok pt.
Proof.
  intros Hc Hc'.
  pose proof (@encrypt_with_coords_eq coords cb pt ad s Hc) as He. cbv zeta in He.
  set (salt := fst (os_urandom 16 s)) in *.
  set (nonce := fst (os_urandom 12 (snd (os_urandom 16 s)))) in *.
  assert (Hs : length salt = 16%nat) by apply os_urandom_length.
  assert (Hn : length nonce = 12%nat) by apply os_urandom_length.
  eexists _, _. split; [exact He|].
  rewrite (@decrypt_with_coords_eq coords' cb _ _ Hc').
  rewrite slice_to_package, slice_package, slice_from_package by assumption.
  apply decrypt_sealed; [apply package_key_size | assumption].
Qed.

End Packaging.

(** ** The reference primitives meet the contract *)

Module ReferenceFacts.
Import Reference.

Lemma lxor_byte_range (a b : Z) :
  0 <= a < 256 -> 0 <= b < 256 -> 0 <= Z.lxor a b < 256.
Proof.
  intros Ha Hb.
  assert (H0 : 0 <= Z.lxor a b) by (apply Z.lxor_nonneg; lia).
  split; [exact H0|].
  destruct (Z.eq_dec (Z.lxor a b) 0) as [E|E]; [lia|].
  change 256 with (2 ^ 8). apply Z.log2_lt_pow2; [lia|].
  pose proof (Z.log2_lxor a b (proj1 Ha) (proj1 Hb)) as Hl.
  assert (Hla : Z.log2 a < 8).
  { destruct (Z.eq_dec a 0) as [->|]; [reflexivity|]. apply Z.log2_lt_pow2; lia. }
  assert (Hlb : Z.log2 b < 8).
  { destruct (Z.eq_dec b 0) as [->|]; [reflexivity|]. apply Z.log2_lt_pow2; lia. }
  lia.
Qed.

Lemma bxor_involutive (a k : byte) : bxor (bxor a k) k = a.
Proof.
  unfold bxor. rewrite Z_of_byte_of_Z.
  rewrite Z.mod_small
    by (apply lxor_byte_range; apply Z_of_byte_range).
  rewrite Z.lxor_assoc, Z.lxor_nilpotent, Z.lxor_0_r.
  apply byte_of_Z_of_byte.
Qed.

Lemma xor_bytes_length (d ks : bytes) : length (xor_bytes d ks) = length d.
Proof.
  revert ks; induction d as [|x d IH]; intros ks; [reflexivity|].
  destruct ks; cbn [xor_bytes length]; rewrite IH; reflexivity.
Qed.

Lemma xor_bytes_involutive (d ks : bytes) : xor_bytes (xor_bytes d ks) ks = d.
Proof.
  revert ks; induction d as [|x d IH]; intros ks; [reflexivity|].
  destruct ks as [|k ks]; cbn [xor_bytes].
  - rewrite IH. reflexivity.
  - rewrite bxor_involutive, IH. reflexivity.
Qed.

Lemma bytes_eqb_refl (a : bytes) : bytes_eqb a a = true.
Proof.
  induction a as [|x a IH]; [reflexivity|].
  cbn [bytes_eqb]. unfold byte_eqb. rewrite Z.eqb_refl, IH. reflexivity.
Qed.

Lemma sha256_length (d : bytes) : length (sha256 d) = 32%nat.
Proof.
  unfold sha256.
  destruct (sha_blocks _ H256 _) as [[[[[[[h0 h1] h2] h3] h4] h5] h6] h7].
  rewrite !length_app, !be_bytes_length. reflexivity.
Qed.

Lemma hmac_length (key msg : bytes) : length (hmac key msg) = 32%nat.
Proof. unfold hmac. apply sha256_length. Qed.

Lemma hkdf_blocks_length (n : nat) (prk info prev : bytes) (c : Z) :
  length (hkdf_blocks n prk info prev c) = (32 * n)%nat.
Proof.
  revert prev c; induction n as [|k IH]; intros prev c; [reflexivity|].
  cbn [hkdf_blocks]. rewrite length_app, hmac_length, IH. lia.
Qed.

Lemma hkdf_length (info : bytes) (n : nat) (ikm : bytes) :
  length (hkdf info n ikm) = n.
Proof.
  unfold hkdf, hkdf_expand.
  rewrite length_firstn, hkdf_blocks_length.
  apply Nat.min_l.
  pose proof (Nat.div_mod_eq (n + 31) 32) as E.
  pose proof (Nat.mod_upper_bound (n + 31) 32) as B. lia.
Qed.

Lemma gctr_length (key : bytes) (icb : Z) (data : bytes) :
  length (gctr key icb data) = length data.
Proof. unfold gctr. apply xor_bytes_length. Qed.

Lemma gctr_involutive (key : bytes) (icb : Z) (data : bytes) :
  gctr key icb (gctr key icb data) = data.
Proof.
  unfold gctr at 1. rewrite gctr_length. unfold gctr.
  apply xor_bytes_involutive.
Qed.

Lemma gcm_tag_length (key : bytes) (h j : Z) (ad ct : bytes) :
  length (gcm_tag key h j ad ct) = 16%nat.
Proof. unfold gcm_tag. apply be_bytes_length. Qed.

Lemma aes_gcm_seal_length (key nonce data ad : bytes) :
  length (aes_gcm_seal key nonce data ad) = (length data + 16)%nat.
Proof.
  unfold aes_gcm_seal. rewrite length_app, gctr_length, gcm_tag_length. reflexivity.
Qed.

Lemma aes_gcm_open_seal (key nonce data ad : bytes) :
  aes_gcm_open key nonce (aes_gcm_seal key nonce data ad) ad = Some data.
Proof.
  unfold aes_gcm_open. rewrite aes_gcm_seal_length.
  replace (length data + 16 - 16)%nat with (length data) by lia.
  unfold aes_gcm_seal.
  set (h := aes_block key 0). set (j := j0 h nonce).
  set (ct := gctr key (inc32 j) data).
  assert (Hl : length ct = length data) by apply gctr_length.
  rewrite <- Hl, firstn_app, Nat.sub_diag, firstn_all. cbn [firstn].
  rewrite app_nil_r, skipn_app, Nat.sub_diag, skipn_all. cbn [skipn app].
  rewrite bytes_eqb_refl. unfold ct. rewrite gctr_involutive. reflexivity.
Qed.

Lemma sextet_cases (n : Z) :
  0 <= n < 64 -> In n (map Z.of_nat (seq 0 64)).
Proof.
  intros H. rewrite <- (Z2Nat.id n) by lia.
  apply in_map, in_seq. lia.
Qed.

Lemma b64_value_char (n : Z) :
  0 <= n < 64 -> b64_value (b64_char n) = Some n.
Proof.
  intros H. apply sextet_cases in H. cbn [seq map] in H.
  repeat (destruct H as [<-|H]; [reflexivity|]). contradiction.
Qed.

Lemma b64_char_not_pad (n : Z) :
  0 <= n < 64 -> Ascii.eqb (b64_char n) "=" = false.
Proof.
  intros H. apply sextet_cases in H. cbn [seq map] in H.
  repeat (destruct H as [<-|H]; [reflexivity|]). contradiction.
Qed.

Ltac sextets :=
  repeat match goal with
         | b : byte |- _ =>
             lazymatch goal with
             | H : 0 <= Z_of_byte b < 256 |- _ => fail
             | _ => pose proof (Z_of_byte_range b)
             end
         end;
  Z.to_euclidean_division_equations; lia.

Lemma byte_of_Z_eq (b : byte) (z : Z) : z = Z_of_byte b -> byte_of_Z z = b.
Proof. intros ->. apply byte_of_Z_of_byte. Qed.

Lemma base64_roundtrip_bounded (n : nat) (l : bytes) :
  (length l <= n)%nat -> base64_decode (base64_encode l) = Ok l.
Proof.
  revert l; induction n as [|n IH]; intros l Hl.
  - destruct l; [reflexivity | cbn [length] in Hl; lia].
  - destruct l as [|a [|b [|c rest]]].
    + reflexivity.
    + cbn [base64_encode base64_decode].
      rewrite !b64_value_char by sextets.
      cbn [Ascii.eqb Bool.eqb andb].
      repeat f_equal; apply byte_of_Z_eq; sextets.
    + cbn [base64_encode base64_decode].
      rewrite !b64_value_char by sextets.
      rewrite (b64_char_not_pad (n := Z_of_byte b mod 16 * 4)) by sextets.
      cbn [andb]. rewrite Ascii.eqb_refl.
      repeat f_equal; apply byte_of_Z_eq; sextets.
    + cbn [base64_encode base64_decode].
      rewrite !b64_value_char by sextets.
      rewrite (b64_char_not_pad (n := Z_of_byte b mod 16 * 4 + Z_of_byte c / 64))
        by sextets.
      rewrite (b64_char_not_pad (n := Z_of_byte c mod 64)) by sextets.
      cbn [andb]. rewrite IH by (cbn [length] in Hl; lia). cbn [bind].
      repeat f_equal; apply byte_of_Z_eq; sextets.
Qed.

Lemma base64_roundtrip (l : bytes) : base64_decode (base64_encode l) = Ok l.
Proof. apply (base64_roundtrip_bounded (n := length l)). lia. Qed.

Lemma bytes_eqb_eq (a b : bytes) : bytes_eqb a b = true -> a = b.
Proof.
  revert b; induction a as [|x a IH]; intros [|y b] H; cbn [bytes_eqb] in H;
    try discriminate; [reflexivity|].
  apply andb_true_iff in H as [Hxy H]. unfold byte_eqb in Hxy.
  apply Z.eqb_eq in Hxy.
  rewrite <- (byte_of_Z_of_byte x), <- (byte_of_Z_of_byte y), Hxy, (IH b H).
  reflexivity.
Qed.

Lemma aes_gcm_open_ignores_ad : open_ignores_ad prims.
Proof.
  intros key nonce sealed ad ad' pt pt'. cbn [gcm_open prims].
  unfold aes_gcm_open.
  destruct (bytes_eqb _ (gcm_tag _ _ _ ad _)); [|discriminate].
  destruct (bytes_eqb _ (gcm_tag _ _ _ ad' _)); [|discriminate].
  congruence.
Qed.

(** Opening under other associated data compares the stored tag, computed
    over [a1], with the tag computed over [a2]. *)
Lemma aes_gcm_open_other_ad (key nonce data a1 a2 : bytes) :
  let h := aes_block key 0 in
  let j := j0 h nonce in
  let ct := gctr key (inc32 j) data in
  aes_gcm_open key nonce (aes_gcm_seal key nonce data a1) a2 =
  if bytes_eqb (gcm_tag key h j a1 ct) (gcm_tag key h j a2 ct) then Some data else None.
Proof.
  cbv zeta. unfold aes_gcm_open. rewrite aes_gcm_seal_length.
  replace (length data + 16 - 16)%nat with (length data) by lia.
  unfold aes_gcm_seal.
  set (h := aes_block key 0). set (j := j0 h nonce).
  set (ct := gctr key (inc32 j) data).
  assert (Hl : length ct = length data) by apply gctr_length.
  rewrite <- Hl, firstn_app, Nat.sub_diag, firstn_all. cbn [firstn].
  rewrite app_nil_r, skipn_app, Nat.sub_diag, skipn_all. cbn [skipn app].
  unfold ct at 3. rewrite gctr_involutive. reflexivity.
Qed.

Lemma prims_ok : primitives_ok prims.
Proof.
  constructor; cbn [prims sha256_digest hkdf_sha256 gcm_seal gcm_open b64encode b64decode].
  - apply sha256_length.
  - intros. apply hkdf_length.
  - intros. apply aes_gcm_seal_length.
  - intros. apply aes_gcm_open_seal.
  - apply base64_roundtrip.
Qed.

End ReferenceFacts.

(** The reference primitives on published test vectors: FIPS 180-4 ("abc"),
    an HMAC-SHA256 example, FIPS 197 appendix C.3, and test cases 13 and 14
    of the GCM specification. *)

Example sha256_abc :
  GVEMPlus.hex (Reference.sha256 [x61; x62; x63])
  = "ba7816bf8f01cfea414140de5dae2223b00361a396177a9cb410ff61f20015ad"%string.
Proof. vm_compute. reflexivity. Qed.

Example hmac_sha256_fox :
  GVEMPlus.hex
    (Reference.hmac (Reference.encode_utf8 "key")
       (Reference.encode_utf8 "The quick brown fox jumps over the lazy dog"))
  = "f7bc83f430538424b13298e6aa6fb143ef4d59a14946175997479dbc2d1a3cd8"%string.
Proof. vm_compute. reflexivity. Qed.

Example aes256_fips197 :
  Reference.aes_block (map byte_of_Z (map Z.of_nat (seq 0 32)))
    0x00112233445566778899aabbccddeeff
  = 0x8ea2b7ca516745bfeafc49904b496089.
Proof. vm_compute. reflexivity. Qed.

Example aes256_gcm_empty :
  GVEMPlus.hex (Reference.aes_gcm_seal (repeat x00 32) (repeat x00 12) [] [])
  = "530f8afbc74536b9a963b4f1c4cb738b"%string.
Proof. vm_compute. reflexivity. Qed.

Example aes256_gcm_zero_block :
  GVEMPlus.hex (Reference.aes_gcm_seal (repeat x00 32) (repeat x00 12) (repeat x00 16) [])
  = "cea7403d4d606b6e074ec5d3baf39d18d0d1c8a799996bf0265b98b5d48ab919"%string.
Proof. vm_compute. reflexivity. Qed.

Example base64_hello :
  Reference.base64_encode Scenario.hello = "aGVsbG8="%string.
Proof. reflexivity. Qed.

(** ** The measurement pool ([src/GVEMPlus/ABB.py]) *)

Module GVEMPlusFacts.
Import GVEMPlus.

Lemma insert_desc_perm (f : feature) (l : list feature) :
  Permutation (insert_desc f l) (f :: l).
Proof.
  induction l as [|g t IH]; cbn [insert_desc]; [reflexivity|].
  destruct (area_of f <? area_of g); [|reflexivity].
  rewrite IH. apply perm_swap.
Qed.

Lemma sorted_desc_perm (l : list feature) : Permutation (sorted_desc l) l.
Proof.
  induction l as [|f t IH]; [reflexivity|].
  cbn [sorted_desc fold_right]. fold (sorted_desc t).
  rewrite insert_desc_perm. auto.
Qed.

Lemma sorted_desc_length (l : list feature) : length (sorted_desc l) = length l.
Proof. apply Permutation_length, sorted_desc_perm. Qed.

Lemma insert_desc_sorted (f : feature) (l : list feature) :
  StronglySorted area_ge l -> StronglySorted area_ge (insert_desc f l).
Proof.
  induction l as [|g t IH]; intros Hs; cbn [insert_desc].
  - repeat constructor.
  - inversion Hs as [|? ? Ht Hg]; subst.
    destruct (Z.ltb_spec (area_of f) (area_of g)).
    + constructor; [auto|].
      eapply Permutation_Forall.
      * symmetry. apply insert_desc_perm.
      * constructor; [unfold area_ge; lia | assumption].
    + constructor; [assumption|].
      constructor; [unfold area_ge; lia|].
      eapply Forall_impl; [|exact Hg]. unfold area_ge. intros; lia.
Qed.

Lemma sorted_desc_sorted (l : list feature) : StronglySorted area_ge (sorted_desc l).
Proof.
  induction l as [|f t IH]; [constructor|].
  cbn [sorted_desc fold_right]. apply insert_desc_sorted, IH.
Qed.

Lemma insert_desc_stable (a : Z) (f : feature) (l : list feature) :
  filter (with_area a) (insert_desc f l) = filter (with_area a) (f :: l).
Proof.
  induction l as [|g t IH]; [reflexivity|].
  cbn [insert_desc].
  destruct (Z.ltb_spec (area_of f) (area_of g)); [|reflexivity].
  cbn [filter] in *. rewrite IH. unfold with_area.
  destruct (Z.eqb_spec (area_of f) a), (Z.eqb_spec (area_of g) a);
    try reflexivity; lia.
Qed.

Lemma sorted_desc_stable (a : Z) (l : list feature) :
  filter (with_area a) (sorted_desc l) = filter (with_area a) l.
Proof.
  induction l as [|f t IH]; [reflexivity|].
  cbn [sorted_desc fold_right]. fold (sorted_desc t).
  rewrite insert_desc_stable. cbn [filter]. rewrite IH. reflexivity.
Qed.

(** The array after the loop: the features, then the untouched zeros. *)

Lemma list_set_app (pre l : list Z) (j : nat) (v : Z) :
  list_set (length pre + j) v (pre ++ l) = pre ++ list_set j v l.
Proof. induction pre as [|x pre IH]; cbn [length app list_set Nat.add]; congruence. Qed.

Lemma vec_store_at (pre : list Z) (old v : Z) (rest : list Z) (i : nat) :
  i = length pre -> in_int32 v = true ->
  vec_store i v (pre ++ old :: rest) = Ok ((pre ++ [v]) ++ rest).
Proof.
  intros -> Hv. unfold vec_store.
  replace (Nat.ltb (length pre) (length (pre ++ old :: rest))) with true
    by (symmetry; apply Nat.ltb_lt; rewrite length_app; cbn [length]; lia).
  rewrite Hv. rewrite <- (Nat.add_0_r (length pre)), list_set_app.
  cbn [list_set]. rewrite <- app_assoc. reflexivity.
Qed.

Ltac side := first [assumption | rewrite ?length_app; cbn [length]; lia].

Lemma fill_vec_spec (fs : list feature) :
  forall (i k : nat) (pre : list Z),
    length pre = (i * 3)%nat -> (length fs <= k)%nat ->
    forallb feature_ok fs = true ->
    fill_vec i fs (pre ++ repeat 0 (k * 3)) =
    Ok (pre ++ flat_map triple fs ++ repeat 0 ((k - length fs) * 3)).
Proof.
  induction fs as [|[[cx cy] a] fs IH]; intros i k pre Hp Hk Hok.
  - cbn [fill_vec flat_map length app]. rewrite Nat.sub_0_r. reflexivity.
  - cbn [length] in Hk. destruct k as [|k]; [lia|].
    cbn [forallb feature_ok] in Hok.
    apply andb_true_iff in Hok as [Hf Hok].
    apply andb_true_iff in Hf as [Hf Ha]. apply andb_true_iff in Hf as [Hx Hy].
    cbn [fill_vec]. change (S k * 3)%nat with (3 + k * 3)%nat.
    cbn [repeat Nat.add].
    rewrite (@vec_store_at pre 0 cx _ (i * 3 + 0)) by side. cbn [bind].
    rewrite (@vec_store_at (pre ++ [cx]) 0 cy _ (i * 3 + 1)) by side. cbn [bind].
    rewrite (@vec_store_at ((pre ++ [cx]) ++ [cy]) 0 a _ (i * 3 + 2)) by side.
    cbn [bind].
    rewrite (IH (S i) k) by side.
    cbn [flat_map triple length Nat.sub]. rewrite <- !app_assoc. reflexivity.
Qed.

Lemma tobytes_app (a b : list Z) : tobytes (a ++ b) = tobytes a ++ tobytes b.
Proof. unfold tobytes. apply flat_map_app. Qed.

Lemma tobytes_zeros (n : nat) : tobytes (repeat 0 n) = repeat x00 (4 * n).
Proof.
  induction n as [|n IH]; [reflexivity|].
  replace (4 * S n)%nat with (4 + 4 * n)%nat by lia.
  unfold tobytes in *. cbn [repeat flat_map Nat.add]. rewrite IH. reflexivity.
Qed.

Lemma tobytes_triples (fs : list feature) :
  tobytes (flat_map triple fs) = flat_map slot_bytes fs.
Proof.
  induction fs as [|[[cx cy] a] fs IH]; [reflexivity|].
  cbn [flat_map triple]. change [cx; cy; a] with ([cx; cy; a] ++ []).
  rewrite tobytes_app, IH. unfold tobytes at 1. cbn [flat_map app slot_bytes].
  rewrite !app_nil_r, <- !app_assoc. reflexivity.
Qed.

Lemma slot_bytes_length (f : feature) : length (slot_bytes f) = 12%nat.
Proof.
  destruct f as [[cx cy] a]. unfold slot_bytes.
  rewrite !length_app, !le_bytes_length. reflexivity.
Qed.

Lemma feature_block_length (top : list feature) :
  (length top <= 128)%nat -> length (feature_block top) = 1536%nat.
Proof.
  intros H. unfold feature_block. rewrite length_app, repeat_length.
  assert (E : length (flat_map slot_bytes top) = (12 * length top)%nat).
  { clear H. induction top as [|f t IH]; [reflexivity|].
    cbn [flat_map]. rewrite length_app, slot_bytes_length, IH. cbn [length]. lia. }
  rewrite E. lia.
Qed.

Lemma randint_from_0 (n : Z) (g : rng) :
  1 <= n ->
  exists v g', randint 0 (n - 1) g = Ok (v, g') /\ 0 <= v < n.
Proof.
  intros Hn. unfold randint.
  replace (n - 1 <? 0) with false by (symmetry; apply Z.ltb_ge; lia).
  eexists _, _. split; [reflexivity|].
  replace (n - 1 - 0 + 1) with n by lia.
  pose proof (Z.mod_pos_bound (raw g (rpos g)) n). lia.
Qed.

Lemma sample_pixels_spec (img : screenshot) (n : nat) :
  1 <= shape_w img -> 1 <= shape_h img ->
  forall (pool : bytes) (g : rng),
  exists pix g',
    sample_pixels n img pool g = Ok (pool ++ pix, g')
    /\ length pix = n /\ Forall (pixel_of img) pix.
Proof.
  intros Hw Hh. induction n as [|n IH]; intros pool g.
  - exists [], g. cbn [sample_pixels]. rewrite app_nil_r. auto.
  - cbn [sample_pixels].
    destruct (@randint_from_0 _ g Hw) as (x & g1 & -> & Hx). cbn [bind].
    destruct (@randint_from_0 _ g1 Hh) as (y & g2 & -> & Hy). cbn [bind].
    destruct (IH (pool ++ [gray img y x]) g2) as (pix & g' & -> & Hl & Hp).
    exists (gray img y x :: pix), g'. rewrite <- app_assoc.
    split; [reflexivity|]. split; [cbn [length]; lia|].
    constructor; [|assumption]. exists x, y. auto.
Qed.

Lemma top_length (features : list feature) :
  (length (firstn 128 (sorted_desc features)) <= 128)%nat.
Proof. rewrite length_firstn. lia. Qed.

Lemma fill_top (top : list feature) :
  (length top <= 128)%nat -> forallb feature_ok top = true ->
  (vec <- fill_vec 0 top (repeat 0 (128 * 3)) ;; Ok (tobytes vec))
  = Ok (feature_block top).
Proof.
  intros Hl Hok.
  pose proof (@fill_vec_spec top 0 128 [] eq_refl Hl Hok) as E.
  cbn [app] in E. rewrite E. cbn [bind].
  rewrite tobytes_app, tobytes_triples, tobytes_zeros. unfold feature_block.
  do 3 f_equal. lia.
Qed.

Lemma forallb_firstn {A : Type} (p : A -> bool) (n : nat) (l : list A) :
  forallb p l = true -> forallb p (firstn n l) = true.
Proof.
  revert n; induction l as [|x l IH]; intros [|n] H; try reflexivity.
  cbn [firstn forallb] in *. apply andb_true_iff in H as [-> H].
  rewrite IH; auto.
Qed.

Lemma forallb_perm {A : Type} (p : A -> bool) (l l' : list A) :
  Permutation l l' -> forallb p l = true -> forallb p l' = true.
Proof.
  intros Hp H. rewrite forallb_forall in *. intros x Hx.
  apply H. eapply Permutation_in; [symmetry; exact Hp | exact Hx].
Qed.

Lemma build_pool_spec (img : screenshot) (features : list feature) (g : rng) (s : entropy) :
  forallb feature_ok features = true ->
  1 <= shape_w img -> 1 <= shape_h img ->
  exists pix g',
    build_pool img features g s =
    Ok (feature_block (firstn 128 (sorted_desc features)) ++ pix
          ++ fst (os_urandom 32 s), g', snd (os_urandom 32 s))
    /\ length pix = 64%nat /\ Forall (pixel_of img) pix.
Proof.
  intros Hok Hw Hh. unfold build_pool.
  set (top := firstn 128 (sorted_desc features)).
  assert (Htop : forallb feature_ok top = true).
  { apply forallb_firstn. eapply forallb_perm; [|exact Hok].
    symmetry. apply sorted_desc_perm. }
  pose proof (fill_top top (top_length features) Htop) as Hf.
  destruct (fill_vec 0 top (repeat 0 (128 * 3))) as [vec|]; [|discriminate].
  cbn [bind] in *. injection Hf as ->.
  destruct (@sample_pixels_spec img 64 Hw Hh (feature_block top) g)
    as (pix & g' & -> & Hl & Hp).
  cbn [bind]. destruct (os_urandom 32 s) as [r s']. cbn [fst snd].
  exists pix, g'. rewrite <- app_assoc. auto.
Qed.

Lemma le_value_le_bytes (n : nat) :
  forall z, le_value (le_bytes n z) = z mod 256 ^ Z.of_nat n.
Proof.
  induction n as [|k IH]; intros z.
  - cbn. rewrite Z.mod_1_r. reflexivity.
  - cbn [le_bytes le_value]. rewrite IH, Z_of_byte_of_Z, Z.shiftr_div_pow2 by lia.
    rewrite Nat2Z.inj_succ, Z.pow_succ_r by lia.
    change (2 ^ 8) with 256.
    assert (Hm : 0 < 256 ^ Z.of_nat k) by (apply Z.pow_pos_nonneg; lia).
    rewrite (Z.rem_mul_r z 256 (256 ^ Z.of_nat k)) by lia. reflexivity.
Qed.

Lemma unpack_i32_le_bytes (v : Z) :
  in_int32 v = true -> unpack_i32 (le_bytes 4 v) = v.
Proof.
  unfold in_int32, int32_min, int32_max, unpack_i32. intros H.
  apply andb_true_iff in H as [H1 H2]. apply Z.leb_le in H1, H2.
  rewrite le_value_le_bytes. change (256 ^ Z.of_nat 4) with (2 ^ 32).
  destruct (Z.ltb_spec v 0).
  - replace (v mod 2 ^ 32) with (v + 2 ^ 32).
    + destruct (Z.ltb_spec (v + 2 ^ 32) (2 ^ 31)); lia.
    + apply Z.mod_unique with (q := -1); lia.
  - rewrite Z.mod_small by lia.
    destruct (Z.ltb_spec v (2 ^ 31)); lia.
Qed.

Lemma slot_feature_slot_bytes (f : feature) :
  feature_ok f = true -> slot_feature (slot_bytes f) = f.
Proof.
  destruct f as [[cx cy] a]. cbn [feature_ok slot_bytes]. intros H.
  apply andb_true_iff in H as [H Ha]. apply andb_true_iff in H as [Hx Hy].
  unfold slot_feature, slice. cbn [Nat.sub].
  assert (E1 : firstn 4 (skipn 0 (le_bytes 4 cx ++ le_bytes 4 cy ++ le_bytes 4 a))
               = le_bytes 4 cx).
  { cbn [skipn]. rewrite firstn_app, le_bytes_length, Nat.sub_diag, firstn_O, app_nil_r.
    apply firstn_all2. rewrite le_bytes_length. lia. }
  assert (E2 : firstn 4 (skipn 4 (le_bytes 4 cx ++ le_bytes 4 cy ++ le_bytes 4 a))
               = le_bytes 4 cy).
  { rewrite skipn_app, le_bytes_length, Nat.sub_diag, skipn_all2
      by (rewrite le_bytes_length; lia).
    cbn [skipn app].
    rewrite firstn_app, le_bytes_length, Nat.sub_diag, firstn_O, app_nil_r.
    apply firstn_all2. rewrite le_bytes_length. lia. }
  assert (E3 : firstn 4 (skipn 8 (le_bytes 4 cx ++ le_bytes 4 cy ++ le_bytes 4 a))
               = le_bytes 4 a).
  { rewrite skipn_app, le_bytes_length, skipn_all2 by (rewrite le_bytes_length; lia).
    cbn [Nat.sub app].
    rewrite skipn_app, le_bytes_length, Nat.sub_diag, skipn_all2
      by (rewrite le_bytes_length; lia).
    cbn [skipn app]. apply firstn_all2. rewrite le_bytes_length. lia. }
  rewrite E1, E2, E3, !unpack_i32_le_bytes by assumption. reflexivity.
Qed.

(** Slot [i] of a block: the bytes of the [i]-th feature, or zeros past the
    last feature. *)
Lemma block_slot (top : list feature) (rest : bytes) :
  forall (i : nat) (f : feature),
    nth_error top i = Some f ->
    slice (12 * i) (12 * i + 12) (flat_map slot_bytes top ++ rest) = slot_bytes f.
Proof.
  induction top as [|g top IH]; intros [|i] f Hn; cbn [nth_error] in Hn;
    try discriminate.
  - injection Hn as ->. unfold slice. cbn [Nat.mul Nat.add Nat.sub skipn flat_map].
    rewrite <- app_assoc.
    rewrite firstn_app, slot_bytes_length, Nat.sub_diag, firstn_O, app_nil_r.
    apply firstn_all2. rewrite slot_bytes_length. lia.
  - specialize (IH i f Hn). unfold slice in *. cbn [flat_map].
    rewrite <- app_assoc.
    replace (12 * S i)%nat with (length (slot_bytes g) + 12 * i)%nat
      by (rewrite slot_bytes_length; lia).
    rewrite skipn_app, skipn_all2 by lia.
    replace (length (slot_bytes g) + 12 * i - length (slot_bytes g))%nat
      with (12 * i)%nat by lia.
    cbn [app].
    replace (length (slot_bytes g) + 12 * i + 12 - (length (slot_bytes g) + 12 * i))%nat
      with (12 * i + 12 - 12 * i)%nat by lia.
    exact IH.
Qed.

Lemma block_zero_slot (top : list feature) (i : nat) :
  (length top <= i < 128)%nat ->
  slice (12 * i) (12 * i + 12) (feature_block top) = repeat x00 12.
Proof.
  intros Hi. unfold feature_block, slice.
  assert (Hl : length (flat_map slot_bytes top) = (12 * length top)%nat).
  { induction top as [|g top IH]; [reflexivity|].
    cbn [flat_map length]. rewrite length_app, slot_bytes_length.
    rewrite IH by (cbn [length] in Hi; lia). lia. }
  rewrite skipn_app, skipn_all2, Hl by lia. cbn [app].
  replace (12 * (128 - length top))%nat
    with ((12 * i - 12 * length top) + (12 + 12 * (127 - i)))%nat by lia.
  rewrite repeat_app, skipn_app, repeat_length, Nat.sub_diag, skipn_all2
    by (rewrite repeat_length; lia).
  cbn [skipn app].
  replace (12 * i + 12 - 12 * i)%nat with 12%nat by lia.
  rewrite repeat_app, firstn_app, repeat_length, Nat.sub_diag, firstn_O, app_nil_r.
  apply firstn_all2. rewrite repeat_length. lia.
Qed.

Section Session.

Variable P : primitives.
Hypothesis HP : primitives_ok P.

Lemma reachable_well_formed (w : world) : reachable P w -> well_formed P w.
Proof.
  induction 1 as [s g | w img w' _ IH Hc | w phrase w' _ IH He].
  - split; cbn; discriminate.
  - destruct IH as [Hk Hb]. unfold take_screenshot_and_process in Hc.
    destruct img as [img|]; [|injection Hc as <-; split; assumption].
    destruct (detect (cnts img) []) as [fs|]; cbn [bind] in Hc; [|discriminate].
    destruct (build_pool img fs (py_random w) (os_entropy w)) as [[[pool g] s]|];
      cbn [bind] in Hc; [|discriminate].
    injection Hc as <-. split; cbn.
    + intros key [= <-]. unfold key_size_ok.
      rewrite (sha256_digest_length HP). reflexivity.
    + exact Hb.
  - destruct IH as [Hk Hb]. unfold encrypt_phrase in He.
    destruct (derived_key w) as [key|] eqn:Ek;
      [|injection He as <-; split;
        [intros key Hkey; rewrite Ek in Hkey; discriminate | assumption]].
    destruct (AESGCM key) as [aesgcm|]; cbn [bind] in He; [|discriminate].
    destruct (os_urandom 12 (os_entropy w)) as [n s].
    destruct (AESGCM_encrypt P aesgcm n (utf8_encode P phrase) []) as [ct|];
      cbn [bind] in He; [|discriminate].
    injection He as <-. split; cbn.
    + exact Hk.
    + intros c [= <-]. eauto.
Qed.

Lemma decrypt_ciphertext_well_formed (w : world) :
  well_formed P w ->
  exists r, decrypt_ciphertext P w = Ok r
    /\ (ciphertext_b64 w = None \/ derived_key w = None -> r = None)
    /\ (forall c key raw e,
          ciphertext_b64 w = Some c -> derived_key w = Some key ->
          b64decode P c = Ok raw ->
          AESGCM_decrypt P key (slice_to 12 raw) (slice_from 12 raw) [] = Raise e ->
          r = None).
Proof.
  intros [Hk Hb]. unfold decrypt_ciphertext.
  destruct (ciphertext_b64 w) as [c|] eqn:Ec.
  2:{ exists None. repeat split; auto; intros; discriminate. }
  destruct (derived_key w) as [key|] eqn:Ek.
  2:{ exists None. repeat split; auto; intros; discriminate. }
  destruct (Hb c eq_refl) as [raw ->].
  rewrite (b64decode_b64encode HP). cbn [bind].
  unfold AESGCM. rewrite (Hk key eq_refl). cbn [bind].
  destruct (decrypt_body P key (slice_to 12 raw) (slice_from 12 raw)) as [r|e0] eqn:Ed.
  - exists r. split; [reflexivity|]. split.
    + intros [H|H]; discriminate.
    + intros c' key' raw' e [= <-] [= <-] Hraw Herr.
      rewrite (b64decode_b64encode HP) in Hraw. injection Hraw as <-.
      unfold decrypt_body in Ed. rewrite Herr in Ed. discriminate.
  - exists None. repeat split; auto.
Qed.

End Session.

End GVEMPlusFacts.

(** * The properties of the specification *)

Import Scenario.

(** C1, as stated, fails: all components of [[(1e13, 0.0)]] are finite, yet
    [encrypt_with_coords] raises [struct.error] on it, so there is no
    package to decrypt. *)
Lemma C1_finite_coordinates_rejected :
  all_finite far = true
  /\ encrypt_with_coords Reference.prims far hello header counting = Raise StructError.
Proof. split; vm_compute; reflexivity. Qed.

(** C1 (amended): for every coordinate list whose components, scaled by 10^6
    and rounded, fit a signed 64-bit integer -- exactly the lists on which
    encryption succeeds --, every plaintext and every associated data,
    decrypting the package produced by encryption with the same coordinates
    and associated data returns the plaintext. *)
Theorem C1_round_trip (P : primitives) (coords : list coord)
    (plaintext associated_data : bytes) (s : entropy) :
  primitives_ok P ->
  is_ok (encrypt_with_coords P coords plaintext associated_data s) = encodable 6 coords
  /\ (encodable 6 coords = true ->
      exists packaged s',
        encrypt_with_coords P coords plaintext associated_data s = Ok (packaged, s')
        /\ decrypt_with_coords P coords packaged associated_data = Ok plaintext).
Proof.
  intros HP. split.
  - destruct (encodable 6 coords) eqn:E.
    + pose proof (coords_to_bytes_encodable _ _ E) as Hc.
      rewrite (@encrypt_with_coords_eq P HP coords _ plaintext associated_data s Hc).
      reflexivity.
    + destruct (coords_to_bytes_not_encodable _ _ E) as (e & He & _).
      unfold encrypt_with_coords. rewrite He. reflexivity.
  - intros E. pose proof (coords_to_bytes_encodable _ _ E) as Hc.
    exact (@roundtrip_encoded P HP coords coords _ plaintext associated_data s Hc Hc).
Qed.

Lemma C1_round_trip_witness :
  exists packaged s',
    encrypt_with_coords Reference.prims seed hello header counting = Ok (packaged, s')
    /\ decrypt_with_coords Reference.prims seed packaged header = Ok hello.
Proof.
  apply (C1_round_trip seed hello header counting ReferenceFacts.prims_ok).
  vm_compute. reflexivity.
Defined.

(** C2: the package returned by [encrypt_with_coords] is salt, nonce and
    sealed data in that order, at bytes [0:16), [16:28) and [28:end); it is
    16 + 12 + len(plaintext) + 16 bytes long, 49 bytes for a 5-byte
    plaintext. *)
Theorem C2_package_layout (P : primitives) (coords : list coord)
    (plaintext associated_data : bytes) (s : entropy) (packaged : bytes) (s' : entropy) :
  primitives_ok P ->
  encrypt_with_coords P coords plaintext associated_data s = Ok (packaged, s') ->
  exists coord_b salt nonce sealed,
    coords_to_bytes coords 6 = Ok coord_b
    /\ salt = fst (os_urandom 16 s)
    /\ nonce = fst (os_urandom 12 (snd (os_urandom 16 s)))
    /\ sealed = gcm_seal P (package_key P coord_b salt) nonce plaintext associated_data
    /\ packaged = salt ++ nonce ++ sealed
    /\ length salt = 16%nat /\ length nonce = 12%nat
    /\ length sealed = (length plaintext + 16)%nat
    /\ slice_to 16 packaged = salt
    /\ slice 16 28 packaged = nonce
    /\ slice_from 28 packaged = sealed
    /\ length packaged = (16 + 12 + length plaintext + 16)%nat
    /\ (length plaintext = 5%nat -> length packaged = 49%nat).
Proof.
  intros HP He.
  destruct (coords_to_bytes coords 6) as [cb|e] eqn:Hc.
  2:{ unfold encrypt_with_coords in He. rewrite Hc in He. discriminate. }
  rewrite (@encrypt_with_coords_eq P HP coords cb plaintext associated_data s Hc) in He.
  set (salt := fst (os_urandom 16 s)) in *.
  set (nonce := fst (os_urandom 12 (snd (os_urandom 16 s)))) in *.
  set (sealed := gcm_seal P (package_key P cb salt) nonce plaintext associated_data) in *.
  assert (Epk : packaged = salt ++ nonce ++ sealed) by congruence.
  clear He. subst packaged.
  assert (Hs : length salt = 16%nat) by apply os_urandom_length.
  assert (Hn : length nonce = 12%nat) by apply os_urandom_length.
  assert (Hl : length sealed = (length plaintext + 16)%nat).
  { apply (gcm_seal_length HP); [apply package_key_size; exact HP|].
    unfold nonce_size_ok. rewrite Hn. reflexivity. }
  assert (Hp : length (salt ++ nonce ++ sealed) = (16 + 12 + length plaintext + 16)%nat)
    by (rewrite !length_app, Hs, Hn, Hl; lia).
  exists cb, salt, nonce, sealed.
  split; [reflexivity|]. split; [reflexivity|]. split; [reflexivity|].
  split; [reflexivity|]. split; [reflexivity|].
  split; [exact Hs|]. split; [exact Hn|]. split; [exact Hl|].
  split; [apply slice_to_package; exact Hs|].
  split; [apply slice_package; assumption|].
  split; [apply slice_from_package; assumption|].
  split; [exact Hp|].
  intros H5. rewrite Hp, H5. reflexivity.
Qed.

Lemma C2_package_layout_witness :
  exists packaged s',
    encrypt_with_coords Reference.prims seed hello header counting = Ok (packaged, s')
    /\ length packaged = 49%nat.
Proof.
  assert (E : exists packaged s',
             encrypt_with_coords Reference.prims seed hello header counting
             = Ok (packaged, s')).
  { vm_compute. eexists _, _. reflexivity. }
  destruct E as (packaged & s' & E).
  exists packaged, s'. split; [exact E|].
  destruct (C2_package_layout _ _ _ _ ReferenceFacts.prims_ok E)
    as (cb & salt & nonce & sealed & H).
  apply H. reflexivity.
Defined.

(** C3, as stated, fails: a 27-byte blob is not rejected with a kind of its
    own.  Its failure is [InvalidTag], the very exception that a full-length
    package raises when it is opened with the wrong associated data. *)
Lemma C3_short_blob_invalid_tag :
  length blob27 = 27%nat
  /\ decrypt_with_coords Reference.prims seed blob27 header = Raise InvalidTag
  /\ (exists packaged s',
        encrypt_with_coords Reference.prims seed hello header counting = Ok (packaged, s')
        /\ length packaged = 49%nat
        /\ decrypt_with_coords Reference.prims seed packaged other = Raise InvalidTag).
Proof.
  split; [reflexivity|]. split; [vm_compute; reflexivity|].
  eexists _, _. split; [vm_compute; reflexivity|].
  split; vm_compute; reflexivity.
Qed.

(** C3 (amended): [decrypt_with_coords] checks no length and has no
    [MalformedPackage] kind.  With encodable coordinates, a blob shorter than
    24 bytes fails with the [ValueError] that the AEAD binding raises for a
    nonce shorter than 8 bytes, and a blob of 24 to 43 bytes -- a 28-byte
    blob included -- fails with [InvalidTag], like an authentication
    failure. *)
Theorem C3_short_package (P : primitives) (coords : list coord)
    (packaged associated_data : bytes) :
  primitives_ok P ->
  encodable 6 coords = true ->
  ((length packaged < 24)%nat ->
     decrypt_with_coords P coords packaged associated_data = Raise ValueError)
  /\ ((24 <= length packaged < 44)%nat ->
     decrypt_with_coords P coords packaged associated_data = Raise InvalidTag)
  /\ (length packaged = 28%nat ->
     slice_from 28 packaged = []
     /\ decrypt_with_coords P coords packaged associated_data = Raise InvalidTag).
Proof.
  intros HP E. pose proof (coords_to_bytes_encodable _ _ E) as Hc.
  rewrite (@decrypt_with_coords_eq P HP coords _ packaged associated_data Hc).
  unfold AESGCM_decrypt, nonce_size_ok.
  assert (Hn : length (slice 16 28 packaged) = Nat.min 12 (length packaged - 16)).
  { unfold slice. rewrite length_firstn, length_skipn. reflexivity. }
  assert (Hd : length (slice_from 28 packaged) = (length packaged - 28)%nat).
  { unfold slice_from. apply length_skipn. }
  rewrite Hn, Hd.
  assert (Short : (24 <= length packaged < 44)%nat ->
    (if (Nat.leb 8 (Nat.min 12 (length packaged - 16))
         && Nat.leb (Nat.min 12 (length packaged - 16)) 128)%bool
     then if Nat.ltb (length packaged - 28) 16
          then Raise InvalidTag
          else match gcm_open P (package_key P (flat_map (pair_bytes (10 ^ Z.of_nat 6)) coords)
                                   (slice_to 16 packaged))
                          (slice 16 28 packaged) (slice_from 28 packaged)
                          associated_data with
               | Some pt => Ok pt
               | None => Raise InvalidTag
               end
     else Raise ValueError) = Raise InvalidTag).
  { intros H.
    replace (Nat.leb 8 (Nat.min 12 (length packaged - 16))) with true
      by (symmetry; apply Nat.leb_le; lia).
    replace (Nat.leb (Nat.min 12 (length packaged - 16)) 128) with true
      by (symmetry; apply Nat.leb_le; lia).
    replace (Nat.ltb (length packaged - 28) 16) with true
      by (symmetry; apply Nat.ltb_lt; lia).
    reflexivity. }
  split; [|split].
  - intros H.
    replace (Nat.leb 8 (Nat.min 12 (length packaged - 16))) with false
      by (symmetry; apply Nat.leb_gt; lia).
    reflexivity.
  - exact Short.
  - intros H. split.
    + apply length_zero_iff_nil. rewrite Hd. lia.
    + apply Short. lia.
Qed.

Lemma C3_short_package_witness :
  decrypt_with_coords Reference.prims seed (repeat x00 28) header = Raise InvalidTag.
Proof.
  apply (@C3_short_package Reference.prims seed (repeat x00 28) header
           ReferenceFacts.prims_ok).
  - vm_compute. reflexivity.
  - reflexivity.
Defined.











(** C5, as stated, fails: the scenario's package, encrypted with the
    associated data [b"header"], opens under the different 16-byte string
    [forged], whose tag coincides; the plaintext is returned. *)
Lemma C5_forged_associated_data :
  forged <> header
  /\ exists packaged s',
       encrypt_with_coords Reference.prims seed hello header counting = Ok (packaged, s')
       /\ decrypt_with_coords Reference.prims seed packaged forged = Ok hello.
Proof.
  split; [discriminate|].
  eexists _, _. split; [vm_compute; reflexivity|].
  vm_compute. reflexivity.
Qed.

(** C5 (amended): a package encrypted with associated data A1 and opened
    with A2 under the same coordinates yields what AES-GCM's open yields for
    the original key, nonce and sealed data under A2: [InvalidTag] when open
    rejects, the original plaintext when it accepts, and nothing else.
    Under A1 it returns the plaintext.  AES-GCM accepts under A2 exactly
    when the tag computed over A2 and the ciphertext equals the stored tag,
    the one computed over A1.  In the concrete scenario, opening the
    "hello" / "header" package with "other" fails with [InvalidTag]. *)
Theorem C5_associated_data :
  (forall (P : primitives) (coords : list coord) (plaintext a1 a2 : bytes) (s : entropy),
      primitives_ok P -> open_ignores_ad P -> encodable 6 coords = true ->
      exists packaged s' coord_b,
        coords_to_bytes coords 6 = Ok coord_b
        /\ encrypt_with_coords P coords plaintext a1 s = Ok (packaged, s')
        /\ let key := package_key P coord_b (slice_to 16 packaged) in
           let nonce := slice 16 28 packaged in
           let sealed := slice_from 28 packaged in
           key_size_ok key = true /\ length nonce = 12%nat
           /\ sealed = gcm_seal P key nonce plaintext a1
           /\ decrypt_with_coords P coords packaged a1 = Ok plaintext
           /\ (gcm_open P key nonce sealed a2 = None ->
               decrypt_with_coords P coords packaged a2 = Raise InvalidTag)
           /\ (gcm_open P key nonce sealed a2 <> None ->
               decrypt_with_coords P coords packaged a2 = Ok plaintext)
           /\ (decrypt_with_coords P coords packaged a2 = Ok plaintext
               \/ decrypt_with_coords P coords packaged a2 = Raise InvalidTag))
  /\ (forall (key nonce plaintext a1 a2 : bytes),
        let h := Reference.aes_block key 0 in
        let j := Reference.j0 h nonce in
        let ct := Reference.gctr key (Reference.inc32 j) plaintext in
        let sealed := gcm_seal Reference.prims key nonce plaintext a1 in
        sealed = ct ++ Reference.gcm_tag key h j a1 ct
        /\ (Reference.gcm_tag key h j a2 ct = Reference.gcm_tag key h j a1 ct ->
            gcm_open Reference.prims key nonce sealed a2 = Some plaintext)
        /\ (Reference.gcm_tag key h j a2 ct <> Reference.gcm_tag key h j a1 ct ->
            gcm_open Reference.prims key nonce sealed a2 = None))
  /\ (exists packaged s',
        encrypt_with_coords Reference.prims seed hello header counting = Ok (packaged, s')
        /\ decrypt_with_coords Reference.prims seed packaged header = Ok hello
        /\ decrypt_with_coords Reference.prims seed packaged other = Raise InvalidTag).
Proof.
  split; [|split].
  - intros P coords plaintext a1 a2 s HP Hig E.
    pose proof (coords_to_bytes_encodable _ _ E) as Hc.
    match type of Hc with _ = Ok ?b => set (cb := b) in * end.
    pose proof (@encrypt_with_coords_eq P HP coords cb plaintext a1 s Hc) as He.
    cbv zeta in He.
    set (salt := fst (os_urandom 16 s)) in *.
    set (nonce := fst (os_urandom 12 (snd (os_urandom 16 s)))) in *.
    set (key := package_key P cb salt) in *.
    assert (Hs : length salt = 16%nat) by apply os_urandom_length.
    assert (Hn : length nonce = 12%nat) by apply os_urandom_length.
    assert (Hk : key_size_ok key = true) by (apply package_key_size; exact HP).
    assert (Hno : nonce_size_ok nonce = true)
      by (unfold nonce_size_ok; rewrite Hn; reflexivity).
    eexists _, _, cb. split; [exact Hc|]. split; [exact He|]. cbv zeta.
    rewrite !(@decrypt_with_coords_eq P HP coords cb _ _ Hc).
    rewrite slice_to_package, slice_package, slice_from_package by assumption.
    fold key.
    set (sealed := gcm_seal P key nonce plaintext a1).
    assert (Hopen : AESGCM_decrypt P key nonce sealed a2 =
                    match gcm_open P key nonce sealed a2 with
                    | Some pt => Ok pt
                    | None => Raise InvalidTag
                    end).
    { unfold AESGCM_decrypt. rewrite Hno. unfold sealed.
      rewrite (gcm_seal_length HP) by assumption.
      replace (Nat.ltb (length plaintext + 16) 16) with false
        by (symmetry; apply Nat.ltb_ge; lia).
      reflexivity. }
    assert (Hsame : forall pt, gcm_open P key nonce sealed a2 = Some pt -> pt = plaintext).
    { intros pt Hpt. symmetry.
      exact (Hig key nonce sealed a1 a2 plaintext pt
               (gcm_open_seal HP key nonce plaintext a1 Hk Hno) Hpt). }
    split; [exact Hk|]. split; [exact Hn|]. split; [reflexivity|].
    split; [apply decrypt_sealed; assumption|].
    rewrite Hopen.
    destruct (gcm_open P key nonce sealed a2) as [pt|] eqn:Eo.
    + rewrite (Hsame pt eq_refl).
      split; [discriminate|]. split; [reflexivity|]. left. reflexivity.
    + split; [reflexivity|]. split; [congruence|]. right. reflexivity.
  - intros key nonce plaintext a1 a2 h j ct sealed.
    pose proof (ReferenceFacts.aes_gcm_open_other_ad key nonce plaintext a1 a2) as Ho.
    cbv zeta in Ho. fold h j ct in Ho.
    split; [reflexivity|]. unfold sealed. cbn [gcm_open gcm_seal Reference.prims].
    rewrite Ho. split.
    + intros ->. rewrite ReferenceFacts.bytes_eqb_refl. reflexivity.
    + intros Hne.
      destruct (Reference.bytes_eqb _ _) eqn:Eb; [|reflexivity].
      apply ReferenceFacts.bytes_eqb_eq in Eb. congruence.
  - eexists _, _. split; [vm_compute; reflexivity|].
    split; vm_compute; reflexivity.
Qed.

Lemma C5_associated_data_witness :
  exists packaged s',
    encrypt_with_coords Reference.prims seed hello header counting = Ok (packaged, s')
    /\ decrypt_with_coords Reference.prims seed packaged header = Ok hello
    /\ decrypt_with_coords Reference.prims seed packaged other = Raise InvalidTag.
Proof.
  assert (E : encodable 6 seed = true) by (vm_compute; reflexivity).
  destruct (proj1 C5_associated_data Reference.prims seed hello header other
              counting ReferenceFacts.prims_ok ReferenceFacts.aes_gcm_open_ignores_ad E)
    as (packaged & s' & cb & Hcb & He & _ & _ & _ & Hd & Hnone & _).
  assert (Hc : exists p0 s0 cb0,
             encrypt_with_coords Reference.prims seed hello header counting = Ok (p0, s0)
             /\ coords_to_bytes seed 6 = Ok cb0
             /\ gcm_open Reference.prims
                  (package_key Reference.prims cb0 (slice_to 16 p0))
                  (slice 16 28 p0) (slice_from 28 p0) other = None).
  { eexists _, _, _. split; [vm_compute; reflexivity|].
    split; [vm_compute; reflexivity|]. vm_compute. reflexivity. }
  destruct Hc as (p0 & s0 & cb0 & He0 & Hcb0 & Hn0).
  assert (Hp : packaged = p0) by congruence.
  assert (Hb : cb = cb0) by congruence.
  subst p0 cb0.
  exists packaged, s'. split; [exact He|]. split; [exact Hd|]. exact (Hnone Hn0).
Defined.

Lemma component_ok_int (scale : Z) (x : pyfloat) :
  component_ok scale x = true ->
  scale_round scale x = Ok (component_int scale x)
  /\ in_int64 (component_int scale x) = true.
Proof.
  unfold component_ok, component_int.
  destruct (scale_round scale x); [auto | discriminate].
Qed.

(** C6, as stated, fails: both components of [[(1e19, 0.0)]] are finite and
    the list has no encoding at precision 6; [struct.pack] rejects the scaled
    value. *)
Lemma C6_finite_pair_not_encoded :
  all_finite farther = true
  /\ coords_to_bytes farther 6 = Raise StructError.
Proof. split; vm_compute; reflexivity. Qed.

(** C6 (amended): for every list of n coordinate pairs and every precision p
    such that each component's [int(round(x * 10**p))] lies in the signed
    64-bit range (finiteness alone does not ensure it), the canonical
    encoding is exactly 16 n bytes: every component is packed as its eight
    big-endian two's-complement bytes, x before y within a pair and pairs in
    input order; the encoding is a function of the list and the precision. *)
Theorem C6_canonical_encoding (coords : list coord) (precision : nat) :
  encodable precision coords = true ->
  let scale := 10 ^ Z.of_nat precision in
  coords_to_bytes coords precision = Ok (flat_map (pair_bytes scale) coords)
  /\ length (flat_map (pair_bytes scale) coords) = (16 * length coords)%nat
  /\ Forall (fun c =>
       exists xi yi,
         scale_round scale (fst c) = Ok xi /\ scale_round scale (snd c) = Ok yi
         /\ pair_bytes scale c = be_bytes 8 xi ++ be_bytes 8 yi
         /\ length (be_bytes 8 xi) = 8%nat /\ length (be_bytes 8 yi) = 8%nat
         /\ unpack_q (be_bytes 8 xi) = xi /\ unpack_q (be_bytes 8 yi) = yi) coords
  /\ (forall b1 b2,
        coords_to_bytes coords precision = Ok b1 ->
        coords_to_bytes coords precision = Ok b2 -> b1 = b2).
Proof.
  intros E scale.
  split; [apply coords_to_bytes_encodable, E|].
  split; [apply flat_map_pair_bytes_length|].
  split; [|intros b1 b2 H1 H2; congruence].
  apply Forall_forall. intros [x y] Hin.
  unfold encodable in E. rewrite forallb_forall in E.
  specialize (E _ Hin). cbn [fst snd] in *.
  apply andb_true_iff in E as [Hx Hy].
  destruct (component_ok_int _ _ Hx) as [Ex Rx].
  destruct (component_ok_int _ _ Hy) as [Ey Ry].
  exists (component_int scale x), (component_int scale y).
  repeat split; auto using be_bytes_length, unpack_q_pack.
Qed.

Lemma C6_canonical_encoding_witness :
  coords_to_bytes seed 6 = Ok (flat_map (pair_bytes (10 ^ Z.of_nat 6)) seed)
  /\ length (flat_map (pair_bytes (10 ^ Z.of_nat 6)) seed) = 32%nat.
Proof.
  assert (E : encodable 6 seed = true) by (vm_compute; reflexivity).
  destruct (@C6_canonical_encoding seed 6 E) as (H1 & H2 & _).
  split; [exact H1 | exact H2].
Defined.

Lemma pair_bytes_inj (scale : Z) (c d : coord) :
  component_ok scale (fst c) && component_ok scale (snd c) = true ->
  component_ok scale (fst d) && component_ok scale (snd d) = true ->
  pair_bytes scale c = pair_bytes scale d -> pair_ints scale c = pair_ints scale d.
Proof.
  intros Hc Hd E.
  apply andb_true_iff in Hc as [Hc1 Hc2]. apply andb_true_iff in Hd as [Hd1 Hd2].
  unfold pair_bytes in E.
  apply app_eq_length in E as [E1 E2]; [|rewrite !be_bytes_length; reflexivity].
  unfold pair_ints. f_equal.
  - apply struct_pack_q_inj; auto; apply component_ok_int; assumption.
  - apply struct_pack_q_inj; auto; apply component_ok_int; assumption.
Qed.

Lemma encoding_eq_iff (p : nat) (c1 c2 : list coord) :
  encodable p c1 = true -> encodable p c2 = true ->
  (flat_map (pair_bytes (10 ^ Z.of_nat p)) c1 = flat_map (pair_bytes (10 ^ Z.of_nat p)) c2
   <-> map (pair_ints (10 ^ Z.of_nat p)) c1 = map (pair_ints (10 ^ Z.of_nat p)) c2).
Proof.
  set (scale := 10 ^ Z.of_nat p). unfold encodable. fold scale.
  revert c2; induction c1 as [|c c1 IH]; intros [|d c2] H1 H2.
  - tauto.
  - split; intros H; [|discriminate].
    apply (f_equal (@length byte)) in H.
    cbn [flat_map] in H. rewrite length_app, pair_bytes_length in H. discriminate.
  - split; intros H; [|discriminate].
    apply (f_equal (@length byte)) in H.
    cbn [flat_map] in H. rewrite length_app, pair_bytes_length in H. discriminate.
  - cbn [forallb] in H1, H2.
    apply andb_true_iff in H1 as [Hc H1]. apply andb_true_iff in H2 as [Hd H2].
    cbn [flat_map map]. split; intros H.
    + apply app_eq_length in H as [Hp Hr]; [|rewrite !pair_bytes_length; reflexivity].
      f_equal; [apply pair_bytes_inj; assumption | apply IH; assumption].
    + assert (Hp : pair_ints scale c = pair_ints scale d) by congruence.
      assert (Hr : map (pair_ints scale) c1 = map (pair_ints scale) c2) by congruence.
      f_equal; [|apply IH; assumption].
      unfold pair_ints in Hp.
      assert (Hx : component_int scale (fst c) = component_int scale (fst d))
        by congruence.
      assert (Hy : component_int scale (snd c) = component_int scale (snd d))
        by congruence.
      unfold pair_bytes. rewrite Hx, Hy. reflexivity.
Qed.

(** C7, as stated, fails in both halves: 12.9715987 and 12.9715984 differ in
    the 7th decimal only and are encoded differently (12971599 and
    12971598); 0.0000015 and 0.0000025 differ in the 6th decimal and are
    encoded alike (both products are ties and round to the even 2). *)
Lemma C7_decimal_digits :
  (coords_to_bytes seventh_a 6 = Ok (be_bytes 8 12971599 ++ be_bytes 8 0)
   /\ coords_to_bytes seventh_b 6 = Ok (be_bytes 8 12971598 ++ be_bytes 8 0))
  /\ (coords_to_bytes sixth_a 6 = Ok (be_bytes 8 2 ++ be_bytes 8 0)
      /\ coords_to_bytes sixth_b 6 = Ok (be_bytes 8 2 ++ be_bytes 8 0)).
Proof. repeat split; vm_compute; reflexivity. Qed.

(** C7 (amended): at precision 6 two encodable coordinate lists have the
    same canonical encoding exactly when [int(round(x * 10**6))] agrees for
    every component, whatever the decimal digit in which they differ; lists
    with the same encoding derive the same key, so each decrypts the
    packages of the other. *)
Theorem C7_encoding_sensitivity (c1 c2 : list coord) :
  encodable 6 c1 = true -> encodable 6 c2 = true ->
  (coords_to_bytes c1 6 = coords_to_bytes c2 6
   <-> map (pair_ints (10 ^ Z.of_nat 6)) c1 = map (pair_ints (10 ^ Z.of_nat 6)) c2)
  /\ (forall (P : primitives) (plaintext associated_data : bytes) (s : entropy),
        primitives_ok P ->
        coords_to_bytes c1 6 = coords_to_bytes c2 6 ->
        exists packaged s',
          encrypt_with_coords P c1 plaintext associated_data s = Ok (packaged, s')
          /\ decrypt_with_coords P c2 packaged associated_data = Ok plaintext).
Proof.
  intros E1 E2.
  pose proof (coords_to_bytes_encodable _ _ E1) as H1.
  pose proof (coords_to_bytes_encodable _ _ E2) as H2.
  split.
  - rewrite H1, H2. destruct (@encoding_eq_iff 6 c1 c2 E1 E2) as [Hf Hb].
    split; intros H; [apply Hf; congruence | rewrite (Hb H); reflexivity].
  - intros P plaintext associated_data s HP H.
    assert (H1' : coords_to_bytes c2 6 = Ok (flat_map (pair_bytes (10 ^ Z.of_nat 6)) c1))
      by (rewrite <- H; exact H1).
    exact (@roundtrip_encoded P HP c1 c2 _ plaintext associated_data s H1 H1').
Qed.

Lemma C7_encoding_sensitivity_witness :
  exists packaged s',
    encrypt_with_coords Reference.prims main_coords hello header counting
    = Ok (packaged, s')
    /\ decrypt_with_coords Reference.prims seed packaged header = Ok hello.
Proof.
  assert (E1 : encodable 6 main_coords = true) by (vm_compute; reflexivity).
  assert (E2 : encodable 6 seed = true) by (vm_compute; reflexivity).
  assert (H : coords_to_bytes main_coords 6 = coords_to_bytes seed 6)
    by (vm_compute; reflexivity).
  exact (proj2 (@C7_encoding_sensitivity main_coords seed E1 E2)
           Reference.prims hello header counting
           ReferenceFacts.prims_ok H).
Defined.

(** C9: the empty coordinate list is accepted.  Its encoding is the empty
    byte string, and encryption succeeds with a package of 44 + len(P) bytes
    whose key is derived from the salt alone -- the salt that the package
    carries in its first 16 bytes, so that the package decrypts with the
    empty list. *)
Theorem C9_empty_coordinates (P : primitives) (plaintext associated_data : bytes)
    (s : entropy) :
  primitives_ok P ->
  (forall precision, coords_to_bytes [] precision = Ok [])
  /\ exists packaged s' salt nonce,
       encrypt_with_coords P [] plaintext associated_data s = Ok (packaged, s')
       /\ salt = fst (os_urandom 16 s) /\ length salt = 16%nat
       /\ packaged = salt ++ nonce
            ++ gcm_seal P (hkdf_sha256 P info_coords_aes256 32 (sha256_digest P salt))
                 nonce plaintext associated_data
       /\ slice_to 16 packaged = salt
       /\ length packaged = (44 + length plaintext)%nat
       /\ decrypt_with_coords P [] packaged associated_data = Ok plaintext.
Proof.
  intros HP. split; [reflexivity|].
  assert (Hc : coords_to_bytes [] 6 = Ok []) by reflexivity.
  pose proof (@encrypt_with_coords_eq P HP [] [] plaintext associated_data s Hc) as He.
  cbv zeta in He.
  set (salt := fst (os_urandom 16 s)) in *.
  set (nonce := fst (os_urandom 12 (snd (os_urandom 16 s)))) in *.
  set (sealed := gcm_seal P (package_key P [] salt) nonce plaintext associated_data) in *.
  assert (Hs : length salt = 16%nat) by apply os_urandom_length.
  assert (Hn : length nonce = 12%nat) by apply os_urandom_length.
  assert (Hl : length sealed = (length plaintext + 16)%nat).
  { apply (gcm_seal_length HP); [apply package_key_size; exact HP|].
    unfold nonce_size_ok. rewrite Hn. reflexivity. }
  exists (salt ++ nonce ++ sealed), (snd (os_urandom 12 (snd (os_urandom 16 s)))),
    salt, nonce.
  split; [exact He|]. split; [reflexivity|]. split; [exact Hs|].
  split; [reflexivity|].
  split; [apply slice_to_package; exact Hs|].
  split; [rewrite !length_app, Hs, Hn, Hl; lia|].
  rewrite (@decrypt_with_coords_eq P HP [] [] _ _ Hc).
  rewrite slice_to_package, slice_package, slice_from_package by assumption.
  apply decrypt_sealed; [exact HP | apply package_key_size; exact HP | exact Hn].
Qed.

Lemma C9_empty_coordinates_witness :
  exists packaged s',
    encrypt_with_coords Reference.prims [] hello header counting = Ok (packaged, s')
    /\ length packaged = 49%nat
    /\ decrypt_with_coords Reference.prims [] packaged header = Ok hello.
Proof.
  destruct (proj2 (@C9_empty_coordinates Reference.prims hello header counting
                     ReferenceFacts.prims_ok))
    as (packaged & s' & salt & nonce & He & _ & _ & _ & _ & Hl & Hd).
  exists packaged, s'. split; [exact He|]. split; [exact Hl | exact Hd].
Defined.

(** C8: the pool hashed into the key is the 1536-byte block of 128 feature
    slots (three little-endian 32-bit integers each; the up-to-128 features
    of largest area, in descending order of area, ties in input order; the
    remaining slots zero), then 64 sampled pixel intensities, then 32 bytes
    of OS randomness: 1632 bytes, however many features were detected.
    Slot [i] is bytes [12i, 12i+12) of the block; read back as three signed
    32-bit integers it gives the [i]-th ranked feature, and every slot past
    the last feature is twelve zero bytes. *)
Theorem C8_measurement_pool (P : primitives) (img : GVEMPlus.screenshot)
    (features : list GVEMPlus.feature) (w : GVEMPlus.world) :
  GVEMPlus.detect (GVEMPlus.cnts img) [] = Ok features ->
  forallb GVEMPlus.feature_ok features = true ->
  1 <= GVEMPlus.shape_w img -> 1 <= GVEMPlus.shape_h img ->
  let ranked := GVEMPlus.sorted_desc features in
  let top := firstn 128 ranked in
  let block := flat_map GVEMPlus.slot_bytes top ++ repeat x00 (12 * (128 - length top)) in
  let random := fst (os_urandom 32 (GVEMPlus.os_entropy w)) in
  exists pixels w',
    GVEMPlus.take_screenshot_and_process P (Some img) w = Ok w'
    /\ GVEMPlus.derived_key w' = Some (sha256_digest P (block ++ pixels ++ random))
    /\ GVEMPlus.raw_pool_sample w' = Some (block ++ pixels ++ random)
    /\ length top = Nat.min 128 (length features)
    /\ Forall (fun f => length (GVEMPlus.slot_bytes f) = 12%nat) top
    /\ length block = 1536%nat
    /\ length pixels = 64%nat /\ Forall (GVEMPlus.pixel_of img) pixels
    /\ length random = 32%nat
    /\ length (block ++ pixels ++ random) = 1632%nat
    /\ Permutation ranked features
    /\ StronglySorted GVEMPlus.area_ge ranked
    /\ (forall a, filter (GVEMPlus.with_area a) ranked
                  = filter (GVEMPlus.with_area a) features)
    /\ (forall i f, nth_error top i = Some f ->
          slice (12 * i) (12 * i + 12) block = GVEMPlus.slot_bytes f
          /\ GVEMPlus.slot_feature (slice (12 * i) (12 * i + 12) block) = f)
    /\ (forall i, (length top <= i < 128)%nat ->
          slice (12 * i) (12 * i + 12) block = repeat x00 12).
Proof.
  intros Hd Hok Hw Hh ranked top block random.
  destruct (@GVEMPlusFacts.build_pool_spec img features (GVEMPlus.py_random w)
              (GVEMPlus.os_entropy w) Hok Hw Hh) as (pixels & g' & Hb & Hl & Hp).
  fold ranked in Hb. fold top in Hb. fold random in Hb.
  change (GVEMPlus.feature_block top) with block in Hb.
  assert (Hblock : length block = 1536%nat).
  { apply (@GVEMPlusFacts.feature_block_length top). unfold top.
    rewrite length_firstn. lia. }
  assert (Hr : length random = 32%nat) by apply os_urandom_length.
  assert (Hpool : length (block ++ pixels ++ random) = 1632%nat)
    by (rewrite !length_app, Hblock, Hl, Hr; reflexivity).
  exists pixels.
  eexists. split.
  { unfold GVEMPlus.take_screenshot_and_process. rewrite Hd. cbn [bind].
    rewrite Hb. cbn [bind]. reflexivity. }
  cbn [GVEMPlus.derived_key GVEMPlus.raw_pool_sample].
  split; [reflexivity|].
  split.
  { unfold slice_to. rewrite firstn_all2 by (rewrite Hpool; lia). reflexivity. }
  split.
  { unfold top, ranked. rewrite length_firstn, GVEMPlusFacts.sorted_desc_length.
    reflexivity. }
  split; [apply Forall_forall; intros f _; apply GVEMPlusFacts.slot_bytes_length|].
  split; [exact Hblock|]. split; [exact Hl|]. split; [exact Hp|].
  split; [exact Hr|]. split; [exact Hpool|].
  split; [apply GVEMPlusFacts.sorted_desc_perm|].
  split; [apply GVEMPlusFacts.sorted_desc_sorted|].
  split; [intros a; apply GVEMPlusFacts.sorted_desc_stable|].
  split.
  - intros i f Hn.
    assert (Hf : GVEMPlus.feature_ok f = true).
    { assert (Htop : forallb GVEMPlus.feature_ok top = true).
      { apply GVEMPlusFacts.forallb_firstn.
        eapply GVEMPlusFacts.forallb_perm; [|exact Hok].
        symmetry. apply GVEMPlusFacts.sorted_desc_perm. }
      rewrite forallb_forall in Htop. apply Htop.
      eapply nth_error_In. exact Hn. }
    unfold block. rewrite (@GVEMPlusFacts.block_slot top _ i f Hn).
    split; [reflexivity | exact (@GVEMPlusFacts.slot_feature_slot_bytes f Hf)].
  - intros i Hi. exact (@GVEMPlusFacts.block_zero_slot top i Hi).
Qed.

Lemma C8_measurement_pool_witness :
  GVEMPlus.detect contours [] = Ok [(100, 200, 30); (300, 50, 30); (10, 50, 50)]
  /\ GVEMPlus.sorted_desc [(100, 200, 30); (300, 50, 30); (10, 50, 50)]
     = [(10, 50, 50); (100, 200, 30); (300, 50, 30)]
  /\ exists w' block rest,
       GVEMPlus.take_screenshot_and_process Reference.prims (Some shot) start = Ok w'
       /\ GVEMPlus.raw_pool_sample w' = Some (block ++ rest)
       /\ length block = 1536%nat
       /\ length (block ++ rest) = 1632%nat
       /\ GVEMPlus.slot_feature (slice 0 12 block) = (10, 50, 50)
       /\ GVEMPlus.slot_feature (slice 12 24 block) = (100, 200, 30)
       /\ GVEMPlus.slot_feature (slice 24 36 block) = (300, 50, 30)
       /\ slice 36 48 block = repeat x00 12.
Proof.
  assert (Hd : GVEMPlus.detect (GVEMPlus.cnts shot) []
               = Ok [(100, 200, 30); (300, 50, 30); (10, 50, 50)])
    by (vm_compute; reflexivity).
  split; [exact Hd|]. split; [reflexivity|].
  destruct (@C8_measurement_pool Reference.prims shot _ start Hd eq_refl
              ltac:(cbn; lia) ltac:(cbn; lia))
    as (pixels & w' & Ht & _ & Hs & _ & _ & Hb & _ & _ & _ & Hl & _ & _ & _ & Hslot & Hzero).
  exists w'. eexists _, _. split; [exact Ht|]. split; [exact Hs|].
  split; [exact Hb|]. split; [exact Hl|].
  split; [exact (proj2 (Hslot 0%nat _ eq_refl))|].
  split; [exact (proj2 (Hslot 1%nat _ eq_refl))|].
  split; [exact (proj2 (Hslot 2%nat _ eq_refl))|].
  exact (Hzero 3%nat ltac:(cbn; lia)).
Defined.

(** The three steps of the scenario's session. *)
Lemma capture_run :
  GVEMPlus.take_screenshot_and_process Reference.prims (Some shot) start = Ok captured.
Proof. vm_compute. reflexivity. Qed.

Lemma encrypt_run :
  GVEMPlus.encrypt_phrase Reference.prims "hello" captured = Ok encrypted.
Proof. vm_compute. reflexivity. Qed.

Lemma recapture_run :
  GVEMPlus.take_screenshot_and_process Reference.prims (Some shot) encrypted
  = Ok recaptured.
Proof. vm_compute. reflexivity. Qed.

(** C10, as stated, fails: [base64.b64decode] and [AESGCM(derived_key)] run
    before the [try].  With globals that hold a 5-byte key and a valid
    Base64 text, [decrypt_ciphertext] raises the [ValueError] of the
    [AESGCM] constructor. *)
Lemma C10_foreign_globals_raise :
  GVEMPlus.ciphertext_b64 foreign = Some "aGVsbG8="%string
  /\ GVEMPlus.derived_key foreign = Some hello
  /\ b64decode Reference.prims "aGVsbG8=" = Ok hello
  /\ AESGCM hello = Raise ValueError
  /\ GVEMPlus.decrypt_ciphertext Reference.prims foreign = Raise ValueError.
Proof.
  split; [reflexivity|]. split; [reflexivity|].
  split; [vm_compute; reflexivity|]. split; [reflexivity|].
  vm_compute. reflexivity.
Qed.

(** C10 (amended): in every state the session can reach,
    [decrypt_ciphertext] does not raise.  It returns a value, which is
    [None] when no ciphertext or no key is stored and also [None] when
    AES-GCM rejects the stored ciphertext (or raises anything else inside
    the [try]); the two cases return the same thing. *)
Theorem C10_decrypt_ciphertext_total (P : primitives) (w : GVEMPlus.world) :
  primitives_ok P -> GVEMPlus.reachable P w ->
  exists r,
    GVEMPlus.decrypt_ciphertext P w = Ok r
    /\ (GVEMPlus.ciphertext_b64 w = None \/ GVEMPlus.derived_key w = None -> r = None)
    /\ (forall c key raw e,
          GVEMPlus.ciphertext_b64 w = Some c -> GVEMPlus.derived_key w = Some key ->
          b64decode P c = Ok raw ->
          AESGCM_decrypt P key (slice_to 12 raw) (slice_from 12 raw) [] = Raise e ->
          r = None).
Proof.
  intros HP Hr.
  apply (@GVEMPlusFacts.decrypt_ciphertext_well_formed P HP w).
  apply (@GVEMPlusFacts.reachable_well_formed P HP w Hr).
Qed.

Lemma C10_decrypt_ciphertext_total_witness :
  GVEMPlus.reachable Reference.prims encrypted
  /\ GVEMPlus.decrypt_ciphertext Reference.prims encrypted = Ok (Some "hello"%string)
  /\ GVEMPlus.reachable Reference.prims recaptured
  /\ (exists c key raw,
        GVEMPlus.ciphertext_b64 recaptured = Some c
        /\ GVEMPlus.derived_key recaptured = Some key
        /\ b64decode Reference.prims c = Ok raw
        /\ AESGCM_decrypt Reference.prims key (slice_to 12 raw) (slice_from 12 raw) []
           = Raise InvalidTag)
  /\ GVEMPlus.decrypt_ciphertext Reference.prims recaptured = Ok None.
Proof.
  assert (Hr2 : GVEMPlus.reachable Reference.prims encrypted).
  { exact (@GVEMPlus.reach_encrypt _ captured "hello" encrypted
             (@GVEMPlus.reach_capture _ start (Some shot) captured
                (GVEMPlus.reach_initial _ _ _) capture_run) encrypt_run). }
  assert (Hr3 : GVEMPlus.reachable Reference.prims recaptured).
  { exact (@GVEMPlus.reach_capture _ encrypted (Some shot) recaptured Hr2
             recapture_run). }
  assert (Hex : exists c key raw,
             GVEMPlus.ciphertext_b64 recaptured = Some c
             /\ GVEMPlus.derived_key recaptured = Some key
             /\ b64decode Reference.prims c = Ok raw
             /\ AESGCM_decrypt Reference.prims key (slice_to 12 raw) (slice_from 12 raw) []
                = Raise InvalidTag).
  { eexists _, _, _. split; [reflexivity|]. split; [reflexivity|].
    split; [vm_compute; reflexivity|]. vm_compute. reflexivity. }
  split; [exact Hr2|]. split.
  { destruct (@C10_decrypt_ciphertext_total Reference.prims encrypted
                ReferenceFacts.prims_ok Hr2) as (r & Hd & _).
    rewrite Hd. vm_compute in Hd. congruence. }
  split; [exact Hr3|]. split; [exact Hex|].
  destruct Hex as (c & key & raw & Hc & Hk & Hb & Ha).
  destruct (@C10_decrypt_ciphertext_total Reference.prims recaptured
              ReferenceFacts.prims_ok Hr3) as (r & Hd & _ & Hexn).
  rewrite Hd. f_equal. exact (Hexn c key raw InvalidTag Hc Hk Hb Ha).
Defined.

(** A session on the reference primitives: after a capture and an
    encryption the phrase is recovered; after a second capture the key has
    changed, AES-GCM rejects the stored ciphertext, and the caller sees the
    same [None] as in the initial state. *)
Example session_outcomes :
  exists w1 w2 w3,
    GVEMPlus.take_screenshot_and_process Reference.prims (Some shot) start = Ok w1
    /\ GVEMPlus.encrypt_phrase Reference.prims "hello" w1 = Ok w2
    /\ GVEMPlus.decrypt_ciphertext Reference.prims w2 = Ok (Some "hello"%string)
    /\ GVEMPlus.take_screenshot_and_process Reference.prims (Some shot) w2 = Ok w3
    /\ GVEMPlus.decrypt_ciphertext Reference.prims w3 = Ok None
    /\ GVEMPlus.decrypt_ciphertext Reference.prims start = Ok None.
Proof.
  eexists _, _, _.
  split; [vm_compute; reflexivity|].
  split; [vm_compute; reflexivity|].
  split; [vm_compute; reflexivity|].
  split; [vm_compute; reflexivity|].
  split; vm_compute; reflexivity.
Qed.

(** On the reference primitives, a package made with 12.9715987 is rejected
    with [InvalidTag] when it is opened with 12.9715984. *)
Example altered_seed_rejected :
  exists packaged s',
    encrypt_with_coords Reference.prims seventh_a hello header counting
    = Ok (packaged, s')
    /\ decrypt_with_coords Reference.prims seventh_b packaged header = Raise InvalidTag.
Proof.
  eexists _, _. split; [vm_compute; reflexivity|].
  vm_compute. reflexivity.
Qed.

(** * Further properties of the two scripts *)

(** ** [src/ABB.py] *)

Lemma bind_raise {A B : Type} (e : exn) (k : A -> result B) : bind (Raise e) k = Raise e.
Proof. reflexivity. Qed.

(** X1: the encoding of a concatenated coordinate list is the encoding of
    the first part followed by that of the second; when a part cannot be
    encoded, the error of the earliest failing part is the error of the
    whole. *)
Theorem X1_encoding_of_concatenation (a b : list coord) (precision : nat) :
  coords_to_bytes (a ++ b) precision =
  (x <- coords_to_bytes a precision ;;
   y <- coords_to_bytes b precision ;;
   Ok (x ++ y)).
Proof.
  induction a as [|c a IH].
  - cbn [app]. change (coords_to_bytes [] precision) with (@Ok bytes []).
    cbn [bind app]. destruct (coords_to_bytes b precision); reflexivity.
  - cbn [app]. rewrite !coords_to_bytes_cons, IH.
    destruct (encode_pair (10 ^ Z.of_nat precision) c) as [e|]; cbn [bind];
      [|reflexivity].
    destruct (coords_to_bytes a precision) as [x|]; cbn [bind]; [|reflexivity].
    destruct (coords_to_bytes b precision) as [y|]; cbn [bind]; [|reflexivity].
    rewrite app_assoc. reflexivity.
Qed.

Lemma os_urandom_bytes (n : nat) (s : entropy) :
  fst (os_urandom n s) = map (supply s) (seq (cursor s) n)
  /\ supply (snd (os_urandom n s)) = supply s
  /\ cursor (snd (os_urandom n s)) = (cursor s + n)%nat.
Proof. unfold os_urandom. cbn. auto. Qed.

(** X2: a successful [encrypt_with_coords] reads exactly 28 bytes of OS
    randomness, the salt first and the nonce after it, and stores them
    unchanged at the head of the package; a second call continues where the
    first stopped, so the two calls never read the same position. *)
Theorem X2_encryption_reads_fresh_randomness (P : primitives) (coords : list coord)
    (plaintext associated_data plaintext' associated_data' : bytes)
    (s s1 s2 : entropy) (packaged packaged' : bytes) :
  primitives_ok P ->
  encrypt_with_coords P coords plaintext associated_data s = Ok (packaged, s1) ->
  encrypt_with_coords P coords plaintext' associated_data' s1 = Ok (packaged', s2) ->
  supply s1 = supply s /\ cursor s1 = (cursor s + 28)%nat
  /\ slice_to 16 packaged = map (supply s) (seq (cursor s) 16)
  /\ slice 16 28 packaged = map (supply s) (seq (cursor s + 16) 12)
  /\ slice_to 16 packaged' = map (supply s) (seq (cursor s + 28) 16)
  /\ slice 16 28 packaged' = map (supply s) (seq (cursor s + 44) 12)
  /\ cursor s2 = (cursor s + 56)%nat.
Proof.
  intros HP H1 H2.
  assert (Step : forall pt ad s0 pk s0',
    encrypt_with_coords P coords pt ad s0 = Ok (pk, s0') ->
    supply s0' = supply s0 /\ cursor s0' = (cursor s0 + 28)%nat
    /\ slice_to 16 pk = map (supply s0) (seq (cursor s0) 16)
    /\ slice 16 28 pk = map (supply s0) (seq (cursor s0 + 16) 12)).
  { intros pt ad s0 pk s0' He.
    destruct (coords_to_bytes coords 6) as [cb|e] eqn:Hc.
    2:{ unfold encrypt_with_coords in He. rewrite Hc in He. discriminate. }
    rewrite (@encrypt_with_coords_eq P HP coords cb pt ad s0 Hc) in He.
    destruct (os_urandom_bytes 16 s0) as (Ea & Eb & Ec).
    destruct (os_urandom_bytes 12 (snd (os_urandom 16 s0))) as (Fa & Fb & Fc).
    rewrite Eb, Ec in Fa. rewrite Eb in Fb. rewrite Ec in Fc.
    set (salt := fst (os_urandom 16 s0)) in *.
    set (nonce := fst (os_urandom 12 (snd (os_urandom 16 s0)))) in *.
    assert (Hs : length salt = 16%nat) by apply os_urandom_length.
    assert (Hn : length nonce = 12%nat) by apply os_urandom_length.
    assert (Epk : pk = salt ++ nonce
              ++ gcm_seal P (package_key P cb salt) nonce pt ad) by congruence.
    assert (Es : s0' = snd (os_urandom 12 (snd (os_urandom 16 s0)))) by congruence.
    subst pk s0'.
    rewrite slice_to_package, slice_package by assumption.
    repeat split; auto. lia. }
  destruct (Step _ _ _ _ _ H1) as (A1 & A2 & A3 & A4).
  destruct (Step _ _ _ _ _ H2) as (B1 & B2 & B3 & B4).
  rewrite A1, A2 in B3, B4. rewrite A2 in B2.
  replace (cursor s + 28 + 16)%nat with (cursor s + 44)%nat in B4 by lia.
  repeat split; auto. lia.
Qed.

Lemma X2_encryption_reads_fresh_randomness_witness :
  exists packaged packaged' s1 s2,
    encrypt_with_coords Reference.prims seed hello header counting = Ok (packaged, s1)
    /\ encrypt_with_coords Reference.prims seed hello header s1 = Ok (packaged', s2)
    /\ slice_to 16 packaged' = map (supply counting) (seq 28 16).
Proof.
  assert (E1 : exists packaged s1,
             encrypt_with_coords Reference.prims seed hello header counting
             = Ok (packaged, s1)).
  { vm_compute. eexists _, _. reflexivity. }
  destruct E1 as (packaged & s1 & E1).
  assert (E2 : exists packaged' s2,
             encrypt_with_coords Reference.prims seed hello header s1
             = Ok (packaged', s2)).
  { assert (Hc : encodable 6 seed = true) by (vm_compute; reflexivity).
    apply coords_to_bytes_encodable in Hc.
    destruct (@roundtrip_encoded Reference.prims ReferenceFacts.prims_ok seed seed _
                hello header s1 Hc Hc) as (p & s' & E & _).
    exists p, s'. exact E. }
  destruct E2 as (packaged' & s2 & E2).
  exists packaged, packaged', s1, s2. split; [exact E1|]. split; [exact E2|].
  apply (@X2_encryption_reads_fresh_randomness Reference.prims seed hello header
           hello header counting s1 s2 packaged packaged'
           ReferenceFacts.prims_ok E1 E2).
Defined.

(** X3: the exceptions of the two functions.  [encrypt_with_coords] raises
    only what the coordinate encoding raises.  With encodable coordinates
    [decrypt_with_coords] raises [ValueError] exactly when the blob is
    shorter than 24 bytes, otherwise only [InvalidTag], and it returns a
    plaintext only for a blob of at least 44 bytes. *)
Theorem X3_exceptions (P : primitives) (coords : list coord)
    (data associated_data : bytes) (s : entropy) :
  primitives_ok P ->
  (forall e, encrypt_with_coords P coords data associated_data s = Raise e ->
     coords_to_bytes coords 6 = Raise e
     /\ (e = ValueError \/ e = OverflowError \/ e = StructError))
  /\ (encodable 6 coords = true ->
      (decrypt_with_coords P coords data associated_data = Raise ValueError
       <-> (length data < 24)%nat)
      /\ (forall e, decrypt_with_coords P coords data associated_data = Raise e ->
            e = ValueError \/ e = InvalidTag)
      /\ (forall pt, decrypt_with_coords P coords data associated_data = Ok pt ->
            (44 <= length data)%nat)).
Proof.
  intros HP. split.
  - intros e He. destruct (encodable 6 coords) eqn:E.
    + pose proof (coords_to_bytes_encodable _ _ E) as Hc.
      rewrite (@encrypt_with_coords_eq P HP coords _ data associated_data s Hc) in He.
      discriminate.
    + destruct (coords_to_bytes_not_encodable _ _ E) as (e' & Hc & Hk).
      unfold encrypt_with_coords in He. rewrite Hc in He. cbn [bind] in He.
      injection He as <-. auto.
  - intros E. pose proof (coords_to_bytes_encodable _ _ E) as Hc.
    rewrite (@decrypt_with_coords_eq P HP coords _ data associated_data Hc).
    unfold AESGCM_decrypt, nonce_size_ok.
    assert (Hn : length (slice 16 28 data) = Nat.min 12 (length data - 16)).
    { unfold slice. rewrite length_firstn, length_skipn. reflexivity. }
    assert (Hd : length (slice_from 28 data) = (length data - 28)%nat).
    { unfold slice_from. apply length_skipn. }
    rewrite Hn, Hd.
    destruct (Nat.leb_spec 8 (Nat.min 12 (length data - 16))) as [H8|H8];
      cbn [andb].
    + replace (Nat.leb (Nat.min 12 (length data - 16)) 128) with true
        by (symmetry; apply Nat.leb_le; lia).
      destruct (Nat.ltb_spec (length data - 28) 16) as [Hs|Hs].
      * repeat split; try discriminate; try lia.
        intros e [= <-]. auto.
      * destruct (gcm_open P _ _ _ associated_data).
        -- repeat split; try discriminate; try lia.
        -- repeat split; try discriminate; try lia.
           intros e [= <-]. auto.
    + repeat split; try discriminate; try lia.
      intros e [= <-]. auto.
Qed.

Lemma X3_exceptions_witness :
  decrypt_with_coords Reference.prims seed (repeat x00 23) header = Raise ValueError.
Proof.
  assert (E : encodable 6 seed = true) by (vm_compute; reflexivity).
  destruct (proj2 (@X3_exceptions Reference.prims seed (repeat x00 23) header counting
                     ReferenceFacts.prims_ok) E) as ((_ & H) & _).
  apply H. cbn [length repeat]. lia.
Defined.

Lemma decode_encode_utf8 (s : string) :
  Reference.decode_utf8 (Reference.encode_utf8 s) = Ok s.
Proof.
  induction s as [|c t IH]; [reflexivity|].
  cbn [Reference.encode_utf8].
  pose proof (nat_ascii_bounded c) as Hb.
  set (n := Z.of_nat (nat_of_ascii c)).
  assert (Hn : 0 <= n < 256) by (unfold n; lia).
  assert (Hc : ascii_of_nat (Z.to_nat n) = c)
    by (unfold n; rewrite Nat2Z.id; apply ascii_nat_embedding).
  destruct (Z.ltb_spec n 128) as [Hlt|Hge].
  - cbn [Reference.decode_utf8]. rewrite Z_of_byte_of_Z, Z.mod_small by lia.
    replace (n <? 128) with true by (symmetry; apply Z.ltb_lt; exact Hlt).
    rewrite IH. cbn [bind]. rewrite Hc. reflexivity.
  - cbn [Reference.decode_utf8]. rewrite !Z_of_byte_of_Z.
    assert (Hq : 2 <= n / 64 <= 3) by (Z.to_euclidean_division_equations; lia).
    assert (Hr : 0 <= n mod 64 < 64) by (apply Z.mod_pos_bound; lia).
    rewrite (Z.mod_small (192 + n / 64)) by lia.
    rewrite (Z.mod_small (128 + n mod 64)) by lia.
    replace (192 + n / 64 <? 128) with false by (symmetry; apply Z.ltb_ge; lia).
    replace (194 <=? 192 + n / 64) with true by (symmetry; apply Z.leb_le; lia).
    replace (192 + n / 64 <=? 195) with true by (symmetry; apply Z.leb_le; lia).
    replace (128 <=? 128 + n mod 64) with true by (symmetry; apply Z.leb_le; lia).
    replace (128 + n mod 64 <=? 191) with true by (symmetry; apply Z.leb_le; lia).
    cbn [andb]. rewrite IH. cbn [bind].
    replace ((192 + n / 64 - 192) * 64 + (128 + n mod 64 - 128)) with n
      by (Z.to_euclidean_division_equations; lia).
    rewrite Hc. reflexivity.
Qed.

Lemma main_coords_encodable : encodable 6 main_coords = true.
Proof. vm_compute. reflexivity. Qed.

(** X4: run as a script, [ABB.py] never fails on its own coordinates and
    prints back the text that was entered, whatever the text and the
    randomness: after the prompt come the package in hexadecimal, which is
    44 bytes longer than the encoded text, and the entered text itself. *)
Theorem X4_script_prints_the_input (P : primitives) (line : string) (s : entropy) :
  primitives_ok P ->
  (forall t, utf8_decode P (utf8_encode P t) = Ok t) ->
  exists packaged s',
    encrypt_with_coords P main_coords (utf8_encode P line) header s = Ok (packaged, s')
    /\ length packaged = (44 + length (utf8_encode P line))%nat
    /\ main P line s =
       Ok (("Enter text to encrypt: "
            ++ newline ++ "Encrypted (hex): " ++ GVEMPlus.hex packaged ++ newline
            ++ "Decrypted text: " ++ line ++ newline)%string, s').
Proof.
  intros HP Hutf.
  pose proof (coords_to_bytes_encodable _ _ main_coords_encodable) as Hc.
  destruct (@roundtrip_encoded P HP main_coords main_coords _ (utf8_encode P line)
              header s Hc Hc) as (packaged & s' & He & Hd).
  exists packaged, s'. split; [exact He|]. split.
  - match type of Hc with _ = Ok ?b => set (cb := b) in * end.
    rewrite (@encrypt_with_coords_eq P HP main_coords cb (utf8_encode P line)
               header s Hc) in He.
    assert (Epk : packaged = fst (os_urandom 16 s)
              ++ fst (os_urandom 12 (snd (os_urandom 16 s)))
              ++ gcm_seal P (package_key P cb (fst (os_urandom 16 s)))
                   (fst (os_urandom 12 (snd (os_urandom 16 s))))
                   (utf8_encode P line) header) by congruence.
    rewrite Epk, !length_app, !os_urandom_length.
    rewrite (gcm_seal_length HP);
      [lia | apply package_key_size; exact HP
       | unfold nonce_size_ok; rewrite os_urandom_length; reflexivity].
  - unfold main. rewrite He. cbn [bind]. rewrite Hd. cbn [bind].
    rewrite Hutf. reflexivity.
Qed.

Lemma X4_script_prints_the_input_witness :
  exists packaged s',
    main Reference.prims "hello" counting =
    Ok (("Enter text to encrypt: "
         ++ newline ++ "Encrypted (hex): " ++ GVEMPlus.hex packaged ++ newline
         ++ "Decrypted text: hello" ++ newline)%string, s')
    /\ length packaged = 49%nat.
Proof.
  destruct (@X4_script_prints_the_input Reference.prims "hello" counting
              ReferenceFacts.prims_ok decode_encode_utf8)
    as (packaged & s' & _ & Hl & Hm).
  exists packaged, s'. split; [exact Hm | exact Hl].
Defined.

(** ** [src/GVEMPlus/ABB.py]: capture, encryption and decryption *)

Section Capture.
Import GVEMPlus.

Lemma digits2_pos_lower (m : positive) :
  2 ^ (Zpos (digits2_pos m) - 1) <= Zpos m.
Proof.
  induction m as [p IH|p IH|]; cbn [digits2_pos].
  - rewrite Pos2Z.inj_succ. replace (Z.succ (Zpos (digits2_pos p)) - 1)
      with (Z.succ (Zpos (digits2_pos p) - 1)) by lia.
    rewrite Z.pow_succ_r by lia. lia.
  - rewrite Pos2Z.inj_succ. replace (Z.succ (Zpos (digits2_pos p)) - 1)
      with (Z.succ (Zpos (digits2_pos p) - 1)) by lia.
    rewrite Z.pow_succ_r by lia. lia.
  - cbn. lia.
Qed.

(** A float that is not below [20.0] and that [int] accepts truncates to
    at least 20. *)
(** The float [20.0]. *)
Lemma float_20_mantissa : exists c, Zpos c = 5629499534213120 /\ float_20 = S754_finite false c (-48).
Proof. eexists. split; [|vm_compute; reflexivity]. reflexivity. Qed.

Lemma int_of_area (x : pyfloat) (a : Z) :
  valid_binary prec64 emax64 x = true ->
  SFltb x float_20 = false -> py_int_of_float x = Ok a -> 20 <= a.
Proof.
  destruct float_20_mantissa as (c & Hc20 & ->).
  destruct x as [s|s| |s m e]; intros Hv Hlt Hi; try discriminate.
  unfold SFltb, SFcompare in Hlt.
  destruct s; [discriminate|].
  cbn [py_int_of_float] in Hi. injection Hi as <-.
  cbn [valid_binary] in Hv. unfold bounded, canonical_mantissa, fexp, emin in Hv.
  apply andb_true_iff in Hv as [Hc _].
  apply Z.eqb_eq in Hc. unfold prec64, emax64 in Hc.
  pose proof (digits2_pos_lower m) as Hm.
  destruct (Z.compare_spec e (-48)) as [He|He|He]; [| discriminate Hlt |].
  - assert (Hp : Zpos c <= Zpos m).
    { destruct (Pos.compare_cont Eq m c) eqn:Ec; [| discriminate Hlt |].
      - apply Pos.compare_eq in Ec. subst; lia.
      - change (Pos.compare m c = Gt) in Ec. apply Pos.compare_gt_iff in Ec. lia. }
    subst e. rewrite Hc20 in Hp. clear Hlt Hc Hm Hc20.
    assert (H48 : Z.pow_pos 2 48 = 281474976710656) by reflexivity.
    cbv beta iota. rewrite H48.
    apply Z.div_le_lower_bound; lia.
  - assert (Hd : Zpos (digits2_pos m) = 53) by lia.
    rewrite Hd in Hm. change (2 ^ (53 - 1)) with 4503599627370496 in Hm.
    clear Hlt Hc20.
    destruct e as [|k|k].
    + change (20 <= Zpos m * 1). lia.
    + assert (0 < 2 ^ Zpos k) by (apply Z.pow_pos_nonneg; lia). 
      assert (Zpos m * 1 <= Zpos m * 2 ^ Zpos k) by (apply Z.mul_le_mono_nonneg_l; lia).
      change (20 <= Zpos m * 2 ^ Zpos k). lia.
    + assert (Zpos k <= 47) by lia.
      assert (0 < 2 ^ Zpos k) by (apply Z.pow_pos_nonneg; lia).
      assert (2 ^ Zpos k <= 2 ^ 47) by (apply Z.pow_le_mono_r; lia).
      assert (H47 : 2 ^ 47 = 140737488355328) by reflexivity.
      rewrite H47 in *.
      change (20 <= Zpos m / 2 ^ Zpos k).
      apply Z.div_le_lower_bound; nia.
Qed.

Lemma detect_acc (cs : list contour) : forall (acc fs : list feature),
  Forall (fun c => valid_binary prec64 emax64 (contourArea c) = true) cs ->
  detect cs acc = Ok fs ->
  exists new, fs = acc ++ new
    /\ Forall2 measures (filter kept cs) new
    /\ Forall (fun f => 20 <= area_of f) new.
Proof.
  induction cs as [|c cs IH]; intros acc fs Hv Hd.
  - cbn [detect] in Hd. injection Hd as <-. exists []. rewrite app_nil_r.
    repeat split; constructor.
  - inversion Hv as [|c' cs' Hc Hcs]; subst c' cs'.
    cbn [detect] in Hd. cbn [filter]. unfold kept at 1.
    destruct (SFltb (contourArea c) float_20) eqn:Ea; cbn [negb andb].
    { exact (IH acc fs Hcs Hd). }
    destruct (SFeqb (m00 c) float_0) eqn:Em; cbn [negb].
    { exact (IH acc fs Hcs Hd). }
    destruct (py_int_of_float (fdiv (m10 c) (m00 c))) as [cx|] eqn:Ex;
      cbn [bind] in Hd; [|discriminate].
    destruct (py_int_of_float (fdiv (m01 c) (m00 c))) as [cy|] eqn:Ey;
      cbn [bind] in Hd; [|discriminate].
    destruct (py_int_of_float (contourArea c)) as [a|] eqn:Ei;
      cbn [bind] in Hd; [|discriminate].
    destruct (IH _ fs Hcs Hd) as (new & -> & Hm & Hge).
    exists ((cx, cy, a) :: new). rewrite <- app_assoc. split; [reflexivity|].
    split.
    + constructor; [|exact Hm]. repeat split; assumption.
    + constructor; [|exact Hge]. exact (@int_of_area _ a Hc Ea Ei).
Qed.

(** X5: the detection loop.  When it returns, the features are those of the
    contours that pass the two filters (area not below 20, [m00] not zero),
    in the order of the contours; each is the truncated centroid and the
    truncated area of its contour, and every area in the list is at least
    20.  Nothing else is added, so there are at most as many features as
    contours. *)
Theorem X5_detected_features (cs : list contour) (features : list feature) :
  Forall (fun c => valid_binary prec64 emax64 (contourArea c) = true) cs ->
  detect cs [] = Ok features ->
  Forall2 measures (filter kept cs) features
  /\ Forall (fun f => 20 <= area_of f) features
  /\ (length features <= length cs)%nat.
Proof.
  intros Hv Hd.
  destruct (@detect_acc cs [] features Hv Hd) as (new & -> & Hm & Hge).
  cbn [app]. split; [exact Hm|]. split; [exact Hge|].
  rewrite <- (Forall2_length Hm). apply filter_length_le.
Qed.

Lemma X5_detected_features_witness :
  detect contours [] = Ok [(100, 200, 30); (300, 50, 30); (10, 50, 50)]
  /\ Forall (fun f => 20 <= area_of f) [(100, 200, 30); (300, 50, 30); (10, 50, 50)].
Proof.
  assert (Hd : detect contours [] = Ok [(100, 200, 30); (300, 50, 30); (10, 50, 50)])
    by (vm_compute; reflexivity).
  split; [exact Hd|].
  refine (proj1 (proj2 (@X5_detected_features contours _ _ Hd))).
  repeat constructor.
Defined.

Lemma sorted_split {A : Type} (R : A -> A -> Prop) (l : list A) :
  StronglySorted R l ->
  forall n, Forall (fun x => Forall (R x) (skipn n l)) (firstn n l).
Proof.
  induction 1 as [|x l Hs IH Hx]; intros [|n]; cbn [firstn skipn]; constructor.
  - clear - Hx. revert n. induction Hx as [|y l Hy Hl IHl]; intros [|n]; cbn [skipn];
      try constructor; auto.
  - apply IH.
Qed.

(** X6: which features are kept.  The 128 features that enter the pool are
    a selection of largest area: no feature that is left out has a larger
    area than one that is kept.  Kept and left-out features together are
    the detected ones, and nothing is left out when at most 128 were
    detected. *)
Theorem X6_largest_features_kept (features : list feature) :
  let ranked := sorted_desc features in
  let top := firstn 128 ranked in
  let dropped := skipn 128 ranked in
  Forall (fun f => Forall (fun g => area_of g <= area_of f) dropped) top
  /\ Permutation (top ++ dropped) features
  /\ length top = Nat.min 128 (length features)
  /\ ((length features <= 128)%nat -> dropped = [] /\ Permutation top features).
Proof.
  intros ranked top dropped.
  pose proof (GVEMPlusFacts.sorted_desc_perm features) as Hp.
  pose proof (GVEMPlusFacts.sorted_desc_length features) as Hl.
  split; [|split; [|split]].
  - exact (@sorted_split _ _ _ (GVEMPlusFacts.sorted_desc_sorted features) 128).
  - unfold top, dropped. rewrite firstn_skipn. exact Hp.
  - unfold top, ranked. rewrite length_firstn, Hl. reflexivity.
  - intros Hle. assert (Hd : dropped = []).
    { unfold dropped, ranked. apply skipn_all2. rewrite Hl. exact Hle. }
    split; [exact Hd|].
    rewrite <- (app_nil_r top), <- Hd. unfold top, dropped.
    rewrite firstn_skipn. exact Hp.
Qed.

Lemma list_set_length (i : nat) (v : Z) (l : list Z) :
  length (list_set i v l) = length l.
Proof.
  revert i; induction l as [|x l IH]; intros [|i]; cbn [list_set length];
    try reflexivity. rewrite IH. reflexivity.
Qed.

Lemma vec_store_length (i : nat) (v : Z) (vec vec' : list Z) :
  vec_store i v vec = Ok vec' -> length vec' = length vec.
Proof.
  unfold vec_store. destruct (Nat.ltb i (length vec)); [|discriminate].
  destruct (in_int32 v); [|discriminate].
  intros [= <-]. apply list_set_length.
Qed.

Lemma fill_vec_length (fs : list feature) :
  forall (i : nat) (vec vec' : list Z),
    fill_vec i fs vec = Ok vec' -> length vec' = length vec.
Proof.
  induction fs as [|[[cx cy] a] fs IH]; intros i vec vec' Hf; cbn [fill_vec] in Hf.
  - injection Hf as <-. reflexivity.
  - destruct (vec_store (i * 3 + 0) cx vec) as [v1|] eqn:E1; cbn [bind] in Hf;
      [|discriminate].
    destruct (vec_store (i * 3 + 1) cy v1) as [v2|] eqn:E2; cbn [bind] in Hf;
      [|discriminate].
    destruct (vec_store (i * 3 + 2) a v2) as [v3|] eqn:E3; cbn [bind] in Hf;
      [|discriminate].
    rewrite (IH _ _ _ Hf), (@vec_store_length _ _ _ _ E3),
      (@vec_store_length _ _ _ _ E2), (@vec_store_length _ _ _ _ E1). reflexivity.
Qed.

Lemma tobytes_length (vec : list Z) : length (tobytes vec) = (4 * length vec)%nat.
Proof.
  unfold tobytes. induction vec as [|x vec IH]; [reflexivity|].
  cbn [flat_map length]. rewrite length_app, le_bytes_length, IH. lia.
Qed.

Lemma sample_pixels_inv (img : screenshot) (n : nat) :
  forall (pool pool' : bytes) (g g' : rng),
    sample_pixels n img pool g = Ok (pool', g') ->
    (exists pix, pool' = pool ++ pix /\ length pix = n /\ Forall (pixel_of img) pix)
    /\ raw g' = raw g /\ rpos g' = (rpos g + 2 * n)%nat
    /\ (n <> O -> 1 <= shape_w img /\ 1 <= shape_h img).
Proof.
  induction n as [|n IH]; intros pool pool' g g' Hs; cbn [sample_pixels] in Hs.
  - injection Hs as <- <-. split; [exists []; rewrite app_nil_r; auto|].
    repeat split; try lia; congruence.
  - unfold randint at 1 in Hs.
    destruct (Z.ltb_spec (shape_w img - 1) 0) as [Hw|Hw]; [discriminate|].
    cbn [bind] in Hs. unfold randint at 1 in Hs.
    destruct (Z.ltb_spec (shape_h img - 1) 0) as [Hh|Hh]; [discriminate|].
    cbn [bind] in Hs.
    apply IH in Hs as ((pix & -> & Hl & Hp) & Hraw & Hpos & _).
    cbn [raw rpos] in Hraw, Hpos.
    split; [|repeat split; try lia; assumption].
    eexists (_ :: pix). rewrite <- app_assoc. split; [reflexivity|].
    split; [cbn [length]; lia|]. constructor; [|exact Hp].
    eexists _, _. split; [|split]; cycle 2; [reflexivity| |]; cbn [raw rpos].
    + pose proof (Z.mod_pos_bound (raw g (rpos g)) (shape_w img - 1 - 0 + 1)). lia.
    + pose proof (Z.mod_pos_bound (raw g (S (rpos g))) (shape_h img - 1 - 0 + 1)). lia.
Qed.

(** The effects of a capture that returns; the results below share it. *)
Lemma capture_effects (P : primitives) (img : screenshot) (w w' : world) :
  primitives_ok P ->
  take_screenshot_and_process P (Some img) w = Ok w' ->
  (exists pool key,
      length pool = 1632%nat /\ key = sha256_digest P pool /\ length key = 32%nat
      /\ derived_key w' = Some key
      /\ raw_pool_sample w' = Some pool
      /\ entropy_pool_bin w' = Some pool
      /\ slice_from 1600 pool = fst (os_urandom 32 (os_entropy w)))
  /\ ciphertext_b64 w' = ciphertext_b64 w
  /\ nonce w' = nonce w
  /\ plaintext_hash_hex w' = plaintext_hash_hex w
  /\ os_entropy w' = snd (os_urandom 32 (os_entropy w))
  /\ raw (py_random w') = raw (py_random w)
  /\ rpos (py_random w') = (rpos (py_random w) + 128)%nat
  /\ 1 <= shape_w img /\ 1 <= shape_h img.
Proof.
  intros HP Ht. unfold take_screenshot_and_process in Ht.
  destruct (detect (cnts img) []) as [fs|]; cbn [bind] in Ht; [|discriminate].
  unfold build_pool in Ht.
  destruct (fill_vec 0 (firstn 128 (sorted_desc fs)) (repeat 0 (128 * 3)))
    as [vec|] eqn:Ef; cbn [bind] in Ht; [|discriminate].
  destruct (sample_pixels 64 img (tobytes vec) (py_random w)) as [[pool g]|] eqn:Es;
    cbn [bind] in Ht; [|discriminate].
  pose proof (os_urandom_length 32 (os_entropy w)) as Hr.
  destruct (os_urandom 32 (os_entropy w)) as [r s]. cbn [bind fst snd] in *.
  apply sample_pixels_inv in Es as ((pix & -> & Hl & _) & Hraw & Hpos & Hdim).
  apply fill_vec_length in Ef. rewrite repeat_length in Ef.
  assert (Hb : length (tobytes vec) = 1536%nat)
    by (rewrite tobytes_length, Ef; reflexivity).
  assert (Hpool : length ((tobytes vec ++ pix) ++ r) = 1632%nat)
    by (rewrite !length_app, Hb, Hl, Hr; reflexivity).
  assert (Hcut : slice_to 2048 ((tobytes vec ++ pix) ++ r) = (tobytes vec ++ pix) ++ r)
    by (unfold slice_to; apply firstn_all2; lia).
  rewrite Hcut in Ht. injection Ht as <-.
  cbn [derived_key raw_pool_sample entropy_pool_bin ciphertext_b64 nonce
       plaintext_hash_hex os_entropy py_random].
  split.
  - eexists _, _. split; [exact Hpool|]. split; [reflexivity|].
    split; [apply (sha256_digest_length HP)|]. repeat split.
    unfold slice_from.
    replace 1600%nat with (length (tobytes vec ++ pix) + 0)%nat
      by (rewrite length_app, Hb, Hl; reflexivity).
    rewrite skipn_app, skipn_all2, Nat.add_0_r, Nat.sub_diag by lia.
    reflexivity.
  - destruct (Hdim ltac:(discriminate)) as [Hw Hh].
    repeat split; auto.
Qed.

(** X7: what a capture that returns has done.  The pool has 1632 bytes, so
    the 2048-byte cut keeps all of it: the audit file holds exactly the
    bytes whose SHA-256 is the key.  A stored ciphertext, nonce and hash
    are left as they were; 32 bytes were read from the OS and 128 numbers
    drawn from [random]; and the image had at least one pixel, since
    [randint] raises otherwise. *)
Theorem X7_capture_effects (P : primitives) (img : screenshot) (w w' : world) :
  primitives_ok P ->
  take_screenshot_and_process P (Some img) w = Ok w' ->
  (exists pool key,
      length pool = 1632%nat /\ key = sha256_digest P pool /\ length key = 32%nat
      /\ derived_key w' = Some key
      /\ raw_pool_sample w' = Some pool
      /\ entropy_pool_bin w' = Some pool
      /\ slice_from 1600 pool = fst (os_urandom 32 (os_entropy w)))
  /\ ciphertext_b64 w' = ciphertext_b64 w
  /\ nonce w' = nonce w
  /\ plaintext_hash_hex w' = plaintext_hash_hex w
  /\ os_entropy w' = snd (os_urandom 32 (os_entropy w))
  /\ raw (py_random w') = raw (py_random w)
  /\ rpos (py_random w') = (rpos (py_random w) + 128)%nat
  /\ 1 <= shape_w img /\ 1 <= shape_h img.
Proof. exact (@capture_effects P img w w'). Qed.

Lemma X7_capture_effects_witness :
  exists pool,
    take_screenshot_and_process Reference.prims (Some shot) start = Ok captured
    /\ entropy_pool_bin captured = Some pool
    /\ derived_key captured = Some (Reference.sha256 pool)
    /\ rpos (py_random captured) = 128%nat.
Proof.
  destruct (@X7_capture_effects Reference.prims shot start captured
              ReferenceFacts.prims_ok capture_run)
    as ((pool & key & _ & -> & _ & Hk & _ & Hf & _) & _ & _ & _ & _ & _ & Hp & _).
  exists pool. split; [exact capture_run|]. repeat split; assumption.
Defined.

Lemma encrypt_then_decrypt (P : primitives) (w : world) (key : bytes) (phrase : string) :
  primitives_ok P ->
  (forall t, utf8_decode P (utf8_encode P t) = Ok t) ->
  key_size_ok key = true -> derived_key w = Some key ->
  exists w' raw,
    encrypt_phrase P phrase w = Ok w'
    /\ decrypt_ciphertext P w' = Ok (Some phrase)
    /\ derived_key w' = Some key
    /\ ciphertext_b64 w' = Some (b64encode P raw)
    /\ length raw = (12 + length (utf8_encode P phrase) + 16)%nat
    /\ nonce w' = Some (slice_to 12 raw)
    /\ slice_to 12 raw = fst (os_urandom 12 (os_entropy w))
    /\ os_entropy w' = snd (os_urandom 12 (os_entropy w)).
Proof.
  intros HP Hutf Hkey Hk.
  pose proof (os_urandom_length 12 (os_entropy w)) as Hn.
  assert (Hnonce : nonce_size_ok (fst (os_urandom 12 (os_entropy w))) = true)
    by (unfold nonce_size_ok; rewrite Hn; reflexivity).
  unfold encrypt_phrase. rewrite Hk. unfold AESGCM. rewrite Hkey. cbn [bind].
  destruct (os_urandom 12 (os_entropy w)) as [n s]. cbn [fst snd] in *.
  unfold AESGCM_encrypt. rewrite Hnonce. cbn [bind].
  set (ph := utf8_encode P phrase).
  set (ct := gcm_seal P key n ph []).
  assert (Hct : length ct = (length ph + 16)%nat)
    by (apply (gcm_seal_length HP); assumption).
  assert (Hto : slice_to 12 (n ++ ct) = n).
  { unfold slice_to. rewrite firstn_app, Hn, Nat.sub_diag, firstn_O, app_nil_r.
    apply firstn_all2. lia. }
  assert (Hfrom : slice_from 12 (n ++ ct) = ct).
  { unfold slice_from. rewrite skipn_app, Hn, Nat.sub_diag, skipn_all2 by lia.
    reflexivity. }
  eexists _, (n ++ ct). split; [reflexivity|].
  cbn [derived_key ciphertext_b64 nonce os_entropy].
  split.
  { unfold decrypt_ciphertext. cbn [derived_key ciphertext_b64].
    rewrite (b64decode_b64encode HP). cbn [bind].
    unfold AESGCM. rewrite Hkey. cbn [bind].
    rewrite Hto, Hfrom. unfold decrypt_body, AESGCM_decrypt.
    rewrite Hnonce.
    replace (Nat.ltb (length ct) 16) with false
      by (symmetry; apply Nat.ltb_ge; lia).
    unfold ct. rewrite (gcm_open_seal HP) by assumption. cbn [bind].
    unfold ph. rewrite Hutf. reflexivity. }
  rewrite Hto. repeat split.
  rewrite length_app, Hn, Hct. lia.
Qed.

(** X8: the stored values belong together.  In every state that the three
    functions can produce from the initial one: the audit file holds the
    stored pool sample, and both exist exactly when a key does; a key has
    32 bytes; and ciphertext, nonce and phrase hash are set together, by
    one encryption: the ciphertext is the Base64 text of the stored
    12-byte nonce followed by the sealed phrase, and the hash is that of
    the same phrase. *)
Theorem X8_stored_values_belong_together (P : primitives) (w : world) :
  primitives_ok P -> reachable P w ->
  entropy_pool_bin w = raw_pool_sample w
  /\ (derived_key w = None <-> raw_pool_sample w = None)
  /\ (forall key, derived_key w = Some key -> length key = 32%nat)
  /\ (ciphertext_b64 w = None -> nonce w = None /\ plaintext_hash_hex w = None)
  /\ (forall c, ciphertext_b64 w = Some c ->
        derived_key w <> None
        /\ exists key n phrase,
             length key = 32%nat /\ length n = 12%nat
             /\ nonce w = Some n
             /\ plaintext_hash_hex w = Some (hex (sha256_digest P (utf8_encode P phrase)))
             /\ c = b64encode P (n ++ gcm_seal P key n (utf8_encode P phrase) [])).
Proof.
  intros HP Hr.
  induction Hr as [s g | w img w' _ IH Hc | w phrase w' _ IH He].
  - cbn. repeat split; try discriminate; auto.
  - destruct img as [img|]; [|cbn in Hc; injection Hc as <-; exact IH].
    destruct IH as (_ & _ & _ & Hnone & Hsome).
    destruct (@capture_effects P img w w' HP Hc)
      as ((pool & key & _ & _ & Hkl & Hk & Hs & Hf & _) & Hct & Hn & Hh & _).
    rewrite Hk, Hs, Hf, Hct, Hn, Hh.
    split; [reflexivity|]. split; [split; discriminate|].
    split; [intros key' [= <-]; exact Hkl|].
    split; [exact Hnone|].
    intros c Hc'. destruct (Hsome c Hc') as (_ & Hex).
    split; [discriminate | exact Hex].
  - destruct IH as (Hfile & Hiff & Hlen & Hnone & Hsome).
    unfold encrypt_phrase in He.
    destruct (derived_key w) as [key|] eqn:Ek.
    2:{ injection He as <-. rewrite Ek.
        split; [exact Hfile|]. split; [exact Hiff|].
        split; [intros; discriminate|]. split; [exact Hnone|].
        intros c Hc'. destruct (Hsome c Hc') as [Habs _]. congruence. }
    pose proof (Hlen key eq_refl) as Hkl.
    unfold AESGCM, key_size_ok in He. rewrite Hkl in He. cbn [Nat.eqb orb bind] in He.
    pose proof (os_urandom_length 12 (os_entropy w)) as Hn.
    destruct (os_urandom 12 (os_entropy w)) as [n s]. cbn [fst] in Hn.
    unfold AESGCM_encrypt, nonce_size_ok in He. rewrite Hn in He.
    cbn [Nat.leb andb bind] in He. injection He as <-.
    cbn [derived_key raw_pool_sample entropy_pool_bin ciphertext_b64 nonce
         plaintext_hash_hex].
    split; [exact Hfile|]. split; [exact Hiff|].
    split; [intros key' [= <-]; exact Hkl|].
    split; [discriminate|].
    intros c [= <-]. split; [discriminate|].
    exists key, n, phrase. repeat split; assumption.
Qed.

Lemma X8_stored_values_belong_together_witness :
  exists w2 c,
    encrypt_phrase Reference.prims "hello" captured = Ok w2
    /\ ciphertext_b64 w2 = Some c
    /\ entropy_pool_bin w2 = raw_pool_sample w2
    /\ derived_key w2 <> None.
Proof.
  assert (Hkey : exists key, derived_key captured = Some key
                             /\ key_size_ok key = true)
    by (eexists; split; reflexivity).
  destruct Hkey as (key & Hk & Hsize).
  destruct (@encrypt_then_decrypt Reference.prims captured key "hello"
              ReferenceFacts.prims_ok decode_encode_utf8 Hsize Hk)
    as (w2 & raw & H2 & _ & _ & H3 & _).
  exists w2, (b64encode Reference.prims raw).
  split; [exact H2|]. split; [exact H3|].
  destruct (@X8_stored_values_belong_together Reference.prims w2 ReferenceFacts.prims_ok
              (@reach_encrypt _ captured "hello" w2
                 (@reach_capture _ start (Some shot) captured (reach_initial _ _ _)
                    capture_run) H2))
    as (Hf & _ & _ & _ & Hs).
  split; [exact Hf | exact (proj1 (Hs _ H3))].
Defined.

(** X9: a phrase encrypted in the session is the phrase that decryption
    returns.  In a reachable state with a key, [encrypt_phrase] does not
    raise and keeps the key; it reads 12 bytes from the OS as nonce, and the
    stored text decodes to those 12 bytes followed by the encoded phrase's
    length plus 16 bytes; [decrypt_ciphertext] on the new state returns
    the phrase. *)
Theorem X9_phrase_round_trip (P : primitives) (w : world) (key : bytes)
    (phrase : string) :
  primitives_ok P ->
  (forall t, utf8_decode P (utf8_encode P t) = Ok t) ->
  reachable P w -> derived_key w = Some key ->
  exists w' raw,
    encrypt_phrase P phrase w = Ok w'
    /\ decrypt_ciphertext P w' = Ok (Some phrase)
    /\ derived_key w' = Some key
    /\ ciphertext_b64 w' = Some (b64encode P raw)
    /\ length raw = (12 + length (utf8_encode P phrase) + 16)%nat
    /\ nonce w' = Some (slice_to 12 raw)
    /\ slice_to 12 raw = fst (os_urandom 12 (os_entropy w))
    /\ os_entropy w' = snd (os_urandom 12 (os_entropy w)).
Proof.
  intros HP Hutf Hr Hk.
  destruct (@GVEMPlusFacts.reachable_well_formed P HP w Hr) as [Hks _].
  exact (@encrypt_then_decrypt P w key phrase HP Hutf (Hks key Hk) Hk).
Qed.

Lemma X9_phrase_round_trip_witness :
  exists w2,
    encrypt_phrase Reference.prims "hello" captured = Ok w2
    /\ decrypt_ciphertext Reference.prims w2 = Ok (Some "hello"%string).
Proof.
  assert (Hkey : exists key, derived_key captured = Some key)
    by (eexists; reflexivity).
  destruct Hkey as (key & Hk).
  destruct (@X9_phrase_round_trip Reference.prims captured key "hello"
              ReferenceFacts.prims_ok decode_encode_utf8
              (@reach_capture _ start (Some shot) captured (reach_initial _ _ _)
                 capture_run) Hk)
    as (w2 & raw & He & Hd & _).
  exists w2. split; assumption.
Defined.

End Capture.

(** ** [src/GVEMPlus/ABB.py]: the types and the event loop *)

Section EventLoop.
Import GVEMPlus.
Import Simulator.

Lemma uniform_next (a b : pyfloat) (g : rng) : snd (uniform a b g) = next g.
Proof. reflexivity. Qed.

Lemma np_randint_range (g : rng) : 50 <= fst (np_randint 50 230 g) < 230.
Proof.
  unfold np_randint. cbn [fst].
  pose proof (Z.mod_pos_bound (raw g (rpos g)) (230 - 50)). lia.
Qed.

Lemma make_type_spec (i : nat) (g npg : rng) :
  let '(t, g', npg') := make_type i g npg in
  kind_id t = i
  /\ shape t = nth (i mod 4) shapes EmptyString
  /\ in_colour_range (color t)
  /\ raw g' = raw g /\ rpos g' = (rpos g + 5)%nat
  /\ raw npg' = raw npg /\ rpos npg' = (rpos npg + 3)%nat.
Proof.
  unfold make_type, uniform, random_random, np_randint, next.
  cbn [kind_id shape color raw rpos in_colour_range].
  repeat split; try lia;
    match goal with
    | |- _ <= 50 + ?x mod ?m => pose proof (Z.mod_pos_bound x m); lia
    | |- 50 + ?x mod ?m < _ => pose proof (Z.mod_pos_bound x m); lia
    end.
Qed.

Lemma make_types_loop_spec (n : nat) :
  forall (i : nat) (g npg : rng) (types : list MicroType),
  let '(out, g', npg') := make_types_loop n i g npg types in
  exists new,
    out = types ++ new
    /\ map kind_id new = seq i n
    /\ map shape new = map (fun j => nth (j mod 4) shapes EmptyString) (seq i n)
    /\ Forall (fun t => in_colour_range (color t)) new
    /\ raw g' = raw g /\ rpos g' = (rpos g + 5 * n)%nat
    /\ raw npg' = raw npg /\ rpos npg' = (rpos npg + 3 * n)%nat.
Proof.
  induction n as [|n IH]; intros i g npg types; cbn [make_types_loop].
  - exists []. rewrite app_nil_r. repeat split; try lia. constructor.
  - pose proof (make_type_spec i g npg) as Ht.
    destruct (make_type i g npg) as [[t g1] npg1].
    destruct Ht as (Hk & Hs & Hc & Hr & Hp & Hnr & Hnp).
    specialize (IH (S i) g1 npg1 (types ++ [t])).
    destruct (make_types_loop n (S i) g1 npg1 (types ++ [t])) as [[out g'] npg'].
    destruct IH as (new & -> & Hk' & Hs' & Hc' & Hr' & Hp' & Hnr' & Hnp').
    exists (t :: new). rewrite <- app_assoc. cbn [app map seq].
    rewrite Hk, Hs, Hk', Hs'.
    repeat split; try congruence; try lia. constructor; assumption.
Qed.

(** X10: [make_types].  For any count it returns that many types (none for
    a count below 1), numbered 0, 1, 2, ... in order, with the four shapes
    repeating in the order circle, rect, triangle, star; every colour
    component lies in 50..229; and it takes five draws from [random] and
    three from NumPy's generator per type. *)
Theorem X10_make_types (count : Z) (g npg : rng) :
  let '(types, g', npg') := make_types count g npg in
  let n := Z.to_nat count in
  length types = n
  /\ map kind_id types = seq 0 n
  /\ map shape types = map (fun j => nth (j mod 4) shapes EmptyString) (seq 0 n)
  /\ Forall (fun t => in_colour_range (color t)) types
  /\ raw g' = raw g /\ rpos g' = (rpos g + 5 * n)%nat
  /\ raw npg' = raw npg /\ rpos npg' = (rpos npg + 3 * n)%nat.
Proof.
  unfold make_types.
  pose proof (make_types_loop_spec (Z.to_nat count) 0 g npg []) as Hs.
  destruct (make_types_loop (Z.to_nat count) 0 g npg []) as [[types g'] npg'].
  destruct Hs as (new & -> & Hk & Hrest). cbn [app].
  split; [|split; [exact Hk | exact Hrest]].
  rewrite <- (length_map kind_id), Hk. apply length_seq.
Qed.


Section WithBuiltins.

Variable B : builtins.
Variable P : primitives.

Lemma new_micro_type (t : MicroType) (g : rng) : type_ (fst (new_micro B t g)) = t.
Proof.
  unfold new_micro, uniform, random_random.
  destruct (gauss B _ _ _) as [v g']. reflexivity.
Qed.

Lemma spawn_type_spec (n : nat) (t : MicroType) :
  forall (g : rng) (acc : list Micro),
  exists new, fst (spawn_type B n t g acc) = acc ++ new
    /\ map type_ new = repeat t n.
Proof.
  induction n as [|n IH]; intros g acc; cbn [spawn_type].
  - exists []. rewrite app_nil_r. auto.
  - pose proof (new_micro_type t g) as Hm.
    destruct (new_micro B t g) as [m g1]. cbn [fst] in Hm.
    destruct (IH g1 (acc ++ [m])) as (new & -> & Hn).
    exists (m :: new). rewrite <- app_assoc. cbn [app map repeat].
    rewrite Hm, Hn. auto.
Qed.

Lemma spawn_spec (types : list MicroType) :
  forall (g : rng) (acc : list Micro),
  exists new, fst (spawn B types g acc) = acc ++ new
    /\ map type_ new = flat_map (fun t => repeat t 40) types.
Proof.
  induction types as [|t types IH]; intros g acc; cbn [spawn].
  - exists []. rewrite app_nil_r. auto.
  - destruct (spawn_type_spec 40 t g acc) as (m1 & H1 & Ht).
    destruct (spawn_type B 40 t g acc) as [ms g1]. cbn [fst] in H1. subst ms.
    destruct (IH g1 (acc ++ m1)) as (new & -> & Hn).
    exists (m1 ++ new). rewrite <- app_assoc. split; [reflexivity|].
    rewrite map_app, Ht, Hn. reflexivity.
Qed.

Lemma flat_map_repeat_length {A : Type} (k : nat) (l : list A) :
  length (flat_map (fun t => repeat t k) l) = (k * length l)%nat.
Proof.
  induction l as [|x l IH]; cbn [flat_map length]; [lia|].
  rewrite length_app, repeat_length, IH. lia.
Qed.

Lemma start_simulation_spec (val : Z) (u : session) :
  let u' := start_simulation B val u in
  let n := Z.max 1 (Z.min 12 val) in
  state u' = state_running
  /\ typed_text u' = EmptyString
  /\ running u' = running u
  /\ count_types u' = Some n
  /\ map kind_id (micro_types u') = seq 0 (Z.to_nat n)
  /\ map type_ (microbes u') = flat_map (fun t => repeat t 40) (micro_types u')
  /\ length (microbes u') = (40 * Z.to_nat n)%nat
  /\ printed u' = printed u ++ [Spawning n (40 * n)]
  /\ globals u' = set_py_random (py_random (globals u')) (globals u).
Proof.
  cbv zeta. unfold start_simulation.
  set (v1 := if val <? 1 then 1 else val).
  set (v2 := if 12 <? v1 then 12 else v1).
  assert (Hv : v2 = Z.max 1 (Z.min 12 val)).
  { unfold v2, v1.
    destruct (Z.ltb_spec val 1);
      [destruct (Z.ltb_spec 12 1) | destruct (Z.ltb_spec 12 val)]; lia. }
  unfold make_types.
  pose proof (make_types_loop_spec (Z.to_nat v2) 0 (py_random (globals u))
                (np_random u) []) as Hm.
  destruct (make_types_loop (Z.to_nat v2) 0 (py_random (globals u)) (np_random u) [])
    as [[types g] npg].
  destruct Hm as (new & -> & Hk & _). cbn [app] in *.
  assert (Hl : length new = Z.to_nat v2)
    by (rewrite <- (length_map kind_id), Hk; apply length_seq).
  rename new into types.
  destruct (spawn_spec types g []) as (ms & Hs & Ht).
  destruct (spawn B types g []) as [ms' g']. cbn [fst app] in Hs. subst ms'.
  cbn [state typed_text running count_types micro_types microbes printed globals].
  assert (Hlen : length ms = (40 * Z.to_nat v2)%nat).
  { rewrite <- (length_map type_), Ht, flat_map_repeat_length, Hl. reflexivity. }
  rewrite <- Hv. repeat split; try assumption.
  - rewrite Hlen. do 3 f_equal. lia.
Qed.


Lemma rects_disjoint (mx my : Z) :
  collidepoint decrypt_rect mx my = true -> collidepoint capture_rect mx my = false.
Proof.
  unfold collidepoint, decrypt_rect, capture_rect, W, H. cbn [left top width height].
  intros Hd. apply andb_true_iff in Hd as [Hd _]. apply andb_true_iff in Hd as [Hd _].
  apply andb_true_iff in Hd as [_ Hd]. apply Z.ltb_lt in Hd.
  replace (1000 - 180 <=? mx) with false by (symmetry; apply Z.leb_gt; lia).
  reflexivity.
Qed.

(** X11: Enter in state ["ask_count"].  If [int] accepts the typed text,
    the count is brought into 1..12, that many types are made and 40
    microbes of each type are spawned, type after type; the state becomes
    ["running"], the text is cleared and the line printed names the count
    and 40 times the count.  If [int] raises, only the text is cleared.
    Nothing but the state of [random] changes in the crypto globals. *)
Theorem X11_enter_starts_the_simulation (unicode : string) (u : session) :
  state u = ask_count ->
  (forall val, py_int B (typed_text u) = Ok val ->
     let n := Z.max 1 (Z.min 12 val) in
     exists u' g,
       handle_keydown B P K_RETURN unicode u = Ok u'
       /\ state u' = state_running /\ typed_text u' = EmptyString
       /\ count_types u' = Some n
       /\ map kind_id (micro_types u') = seq 0 (Z.to_nat n)
       /\ map type_ (microbes u') = flat_map (fun t => repeat t 40) (micro_types u')
       /\ length (microbes u') = (40 * Z.to_nat n)%nat
       /\ printed u' = printed u ++ [Spawning n (40 * n)]
       /\ globals u' = set_py_random g (globals u))
  /\ (forall e, py_int B (typed_text u) = Raise e ->
        handle_keydown B P K_RETURN unicode u = Ok (set_typed_text EmptyString u)).
Proof.
  intros Hs. split.
  - intros val Hv n. unfold handle_keydown. rewrite Hs, Hv.
    destruct (start_simulation_spec val u)
      as (H1 & H2 & _ & H4 & H5 & H6 & H7 & H8 & H9).
    eexists _, _. split; [reflexivity|]. repeat split; eassumption.
  - intros e He. unfold handle_keydown. rewrite Hs, He. reflexivity.
Qed.


Lemma encrypt_phrase_inv (phrase : string) (w w' : world) :
  encrypt_phrase P phrase w = Ok w' ->
  derived_key w' = derived_key w
  /\ raw_pool_sample w' = raw_pool_sample w
  /\ entropy_pool_bin w' = entropy_pool_bin w
  /\ (derived_key w = None -> w' = w)
  /\ (derived_key w <> None -> ciphertext_b64 w' <> None).
Proof.
  unfold encrypt_phrase. destruct (derived_key w) as [key|] eqn:Ek.
  - destruct (AESGCM key) as [a|]; cbn [bind]; [|discriminate].
    destruct (os_urandom 12 (os_entropy w)) as [n s].
    destruct (AESGCM_encrypt P a n (utf8_encode P phrase) []) as [ct|];
      cbn [bind]; [|discriminate].
    intros [= <-]. cbn. repeat split; try assumption; discriminate.
  - intros [= <-]. repeat split; auto; congruence.
Qed.

Lemma capture_none (w w' : world) :
  take_screenshot_and_process P None w = Ok w' -> w' = w.
Proof. intros [= <-]. reflexivity. Qed.

Lemma ui_state_eqb_eq (a b : ui_state) : ui_state_eqb a b = true <-> a = b.
Proof. destruct a, b; cbn; split; intros; congruence. Qed.

Lemma handle_click_inv (mx my : Z) (img : option screenshot) (u u' : session) :
  handle_click P mx my img u = Ok u' ->
  exists u1,
    (u' = u1 \/ exists o, u' = print o u1)
    /\ (u1 = u
        \/ state u = state_running
           /\ exists w, take_screenshot_and_process P img (globals u) = Ok w
                /\ u1 = set_typed_text EmptyString
                          (set_state phrase_input (set_globals w u))).
Proof.
  unfold handle_click.
  destruct (collidepoint capture_rect mx my && ui_state_eqb (state u) state_running)
    eqn:Ec.
  - apply andb_true_iff in Ec as [_ Ec]. apply ui_state_eqb_eq in Ec.
    destruct (take_screenshot_and_process P img (globals u)) as [w|] eqn:Et;
      cbn [bind]; [|discriminate].
    set (u1 := set_typed_text EmptyString (set_state phrase_input (set_globals w u))).
    intros Hd. exists u1. split.
    + destruct (collidepoint decrypt_rect mx my && _); [|left; congruence].
      destruct (decrypt_ciphertext P (globals u1)) as [[t|]|]; cbn [bind] in Hd;
        try discriminate; right; eexists; injection Hd as <-; reflexivity.
    + right. split; [exact Ec|]. exists w. auto.
  - cbn [bind]. intros Hd. exists u. split; [|left; reflexivity].
    destruct (collidepoint decrypt_rect mx my && _); [|left; congruence].
    destruct (decrypt_ciphertext P (globals u)) as [[t|]|]; cbn [bind] in Hd;
      try discriminate; right; eexists; injection Hd as <-; reflexivity.
Qed.

Lemma spawned_fields (u u' : session) :
  count_types u' = count_types u -> micro_types u' = micro_types u ->
  map type_ (microbes u') = map type_ (microbes u) ->
  spawned u -> spawned u'.
Proof.
  intros Hc Hm Hs (n & H1 & H2 & H3 & H4).
  exists n. rewrite Hc, Hm, Hs. auto.
Qed.

Lemma same_kind_types (ms ms' : list Micro) :
  Forall2 same_kind ms ms' -> map type_ ms' = map type_ ms.
Proof.
  induction 1 as [|m m' ms ms' [Ht _] _ IH]; [reflexivity|].
  cbn [map]. rewrite Ht, IH. reflexivity.
Qed.

Lemma consistent_start (s : entropy) (g npg : rng) : consistent (start s g npg).
Proof. split; cbn; [discriminate | auto]. Qed.

Lemma consistent_frame (u u' : session) : consistent u -> frame u u' -> consistent u'.
Proof.
  intros Hc [Ha | ms g npg Hn Hk]; [exact Hc|].
  destruct Hc as [Hlen Hst]. split; [exact Hlen|].
  cbn [state after_steps globals set_py_random derived_key ciphertext_b64].
  assert (Hsp : spawned u -> spawned (after_steps ms g npg u)).
  { apply spawned_fields; try reflexivity. cbn [microbes after_steps].
    apply same_kind_types, Hk. }
  destruct (state u); [congruence| | |]; intuition.
Qed.

Hypothesis HP : primitives_ok P.

Lemma consistent_event (e : event) (u u' : session) :
  consistent u -> handle_event B P e u = Ok u' -> consistent u'.
Proof.
  intros Hc He. destruct e as [|k unicode|mx my img|]; cbn [handle_event] in He.
  - injection He as <-. exact Hc.
  - unfold handle_keydown in He. destruct (state u) eqn:Es.
    + destruct k.
      * destruct (py_int B (typed_text u)) as [val|] eqn:Ev.
        -- injection He as <-.
           destruct (start_simulation_spec val u)
             as (H1 & _ & _ & H4 & H5 & H6 & _ & _ & H9).
           destruct Hc as [Hlen Hst]. rewrite Es in Hst.
           destruct Hst as (_ & _ & _ & Hk & Hct).
           split; rewrite ?H1, H9; cbn [set_py_random derived_key ciphertext_b64].
           ++ exact Hlen.
           ++ split; [|auto]. eexists. split; [exact H4|].
              split; [lia|]. split; [|exact H6].
              rewrite <- (length_map kind_id), H5. apply length_seq.
        -- injection He as <-. unfold consistent in *. cbn. rewrite Es in *. exact Hc.
      * injection He as <-. unfold consistent in *. cbn. rewrite Es in *. exact Hc.
      * destruct (isdigit B unicode); injection He as <-;
          unfold consistent in *; cbn; rewrite Es in *; exact Hc.
    + injection He as <-. exact Hc.
    + destruct k.
      * cbn [globals set_typed_text] in He.
        destruct (encrypt_phrase P (typed_text u) (globals u)) as [w|] eqn:Ee;
          cbn [bind] in He; [|discriminate].
        injection He as <-.
        apply encrypt_phrase_inv in Ee as (Hk & _ & _ & Hnone & Hsome).
        destruct Hc as [Hlen Hst]. rewrite Es in Hst. destruct Hst as [Hsp Hct].
        split; cbn [globals state set_state set_globals set_typed_text].
        -- rewrite Hk. exact Hlen.
        -- split; [exact Hsp|]. rewrite Hk.
           destruct (derived_key (globals u)) as [key|].
           ++ split; intros Habs; [|discriminate].
              exfalso. apply Hsome; [discriminate | exact Habs].
           ++ rewrite (Hnone eq_refl). split; auto.
      * injection He as <-. unfold consistent in *. cbn. rewrite Es in *. exact Hc.
      * injection He as <-. unfold consistent in *. cbn. rewrite Es in *. exact Hc.
    + injection He as <-. exact Hc.
  - apply handle_click_inv in He as (u1 & Hp & Hu1).
    assert (Hc1 : consistent u1).
    { destruct Hu1 as [->|(Es & w & Ht & ->)]; [exact Hc|].
      destruct Hc as [Hlen Hst]. rewrite Es in Hst. destruct Hst as (Hsp & Hk & Hct).
      destruct img as [img|].
      - destruct (@capture_effects P img (globals u) w HP Ht)
          as ((pool & key & _ & _ & Hkl & Hkey & _) & Hc' & _).
        split; cbn [globals state set_state set_globals set_typed_text].
        + rewrite Hkey. intros k [= <-]. exact Hkl.
        + split; [exact Hsp|]. rewrite Hc'. exact Hct.
      - apply capture_none in Ht. subst w.
        split; cbn [globals state set_state set_globals set_typed_text].
        + exact Hlen.
        + split; [exact Hsp | exact Hct]. }
    destruct Hp as [->|[o ->]]; exact Hc1.
  - injection He as <-. exact Hc.
Qed.

Lemma reaches_consistent (u u' : session) :
  consistent u -> reaches B P u u' -> consistent u'.
Proof.
  intros Hc Hr. induction Hr as [|e u1 u2 _ IH He|u1 u2 _ IH Hf].
  - exact Hc.
  - exact (@consistent_event e u1 u2 IH He).
  - exact (@consistent_frame u1 u2 IH Hf).
Qed.

(** X12: what the session's globals look like in each state, at any moment
    of any run.  Before Enter nothing is spawned; from then on there are 1
    to 12 types and 40 microbes of each.  A key exists only in the states
    ["phrase_input"] and ["done"] and has 32 bytes.  A ciphertext exists
    only in state ["done"], and there it exists exactly when a key
    does. *)
Theorem X12_session_invariant (s : entropy) (g npg : rng) (u : session) :
  reaches B P (start s g npg) u ->
  (state u = ask_count -> count_types u = None /\ microbes u = [])
  /\ (state u <> ask_count -> spawned u)
  /\ (forall k, derived_key (globals u) = Some k ->
        length k = 32%nat /\ (state u = phrase_input \/ state u = done))
  /\ (forall c, ciphertext_b64 (globals u) = Some c ->
        state u = done /\ derived_key (globals u) <> None)
  /\ (state u = done -> derived_key (globals u) <> None ->
        ciphertext_b64 (globals u) <> None).
Proof.
  intros Hr.
  destruct (@reaches_consistent _ u (consistent_start s g npg) Hr) as [Hlen Hst].
  cbv zeta in Hst.
  destruct (state u) eqn:Es.
  - destruct Hst as (Hc & _ & Hm & Hk & Hct).
    split; [auto|]. split; [congruence|]. split; [congruence|].
    split; [congruence|]. discriminate.
  - destruct Hst as (Hsp & Hk & Hct).
    split; [discriminate|]. split; [auto|]. split; [congruence|].
    split; [congruence|]. discriminate.
  - destruct Hst as (Hsp & Hct).
    split; [discriminate|]. split; [auto|].
    split; [intros k Hk; split; [exact (Hlen k Hk) | left; reflexivity]|].
    split; [congruence|]. discriminate.
  - destruct Hst as (Hsp & Hiff).
    split; [discriminate|]. split; [auto|].
    split; [intros k Hk; split; [exact (Hlen k Hk) | right; reflexivity]|].
    split.
    + intros c Hc. split; [reflexivity|]. intros Hn. apply Hiff in Hn. congruence.
    + intros _ Hk Hn. apply Hk, Hiff, Hn.
Qed.


Lemma rank_from_capture (st : ui_state) :
  (2 <= rank st)%nat <-> st = phrase_input \/ st = done.
Proof.
  destruct st; cbn; split; intros Hx; try lia; try (destruct Hx; discriminate); auto.
Qed.

Lemma rank_done (st : ui_state) : (3 <= rank st)%nat <-> st = done.
Proof. destruct st; cbn; split; intros Hx; try lia; try discriminate; auto. Qed.

Lemma keeps_refl (u : session) : keeps u u.
Proof. repeat split; auto. Qed.

Lemma keeps_trans (u u1 u2 : session) : keeps u u1 -> keeps u1 u2 -> keeps u u2.
Proof.
  intros (Hr & Hk & Hc) (Hr' & Hk' & Hc').
  split; [lia|]. split.
  - intros H2. destruct (Hk H2) as [A1 A2]. destruct (Hk' ltac:(lia)) as [B1 B2].
    split; congruence.
  - intros H3. rewrite <- (Hc H3). apply Hc'. lia.
Qed.

Lemma event_keeps (e : event) (u u' : session) :
  handle_event B P e u = Ok u' -> keeps u u'.
Proof.
  intros He. destruct e as [|k unicode|mx my img|]; cbn [handle_event] in He.
  - injection He as <-. unfold keeps. cbn. repeat split; auto.
  - unfold handle_keydown in He. destruct (state u) eqn:Es.
    + unfold keeps. rewrite Es. cbn [rank].
      split; [lia|]. split; intros; lia.
    + injection He as <-. apply keeps_refl.
    + destruct k.
      * cbn [globals set_typed_text] in He.
        destruct (encrypt_phrase P (typed_text u) (globals u)) as [w|] eqn:Ee;
          cbn [bind] in He; [|discriminate].
        injection He as <-.
        apply encrypt_phrase_inv in Ee as (Hk & _ & Hf & _).
        unfold keeps. rewrite Es.
        cbn [rank globals state set_state set_globals set_typed_text].
        split; [lia|]. split; [auto | intros; lia].
      * injection He as <-. unfold keeps. cbn. repeat split; auto.
      * injection He as <-. unfold keeps. cbn. repeat split; auto.
    + injection He as <-. apply keeps_refl.
  - apply handle_click_inv in He as (u1 & Hp & Hu1).
    assert (Hk : keeps u u1).
    { destruct Hu1 as [->|(Es & w & Ht & ->)]; [apply keeps_refl|].
      unfold keeps. rewrite Es. cbn. split; [lia|]. split; intros; lia. }
    destruct Hp as [->|[o ->]]; exact Hk.
  - injection He as <-. apply keeps_refl.
Qed.

Lemma frame_keeps (u u' : session) : frame u u' -> keeps u u'.
Proof.
  intros [Ha | ms g npg Hn Hk]; [apply keeps_refl|].
  unfold keeps. cbn. repeat split; auto.
Qed.

Lemma reaches_keeps (u u' : session) : reaches B P u u' -> keeps u u'.
Proof.
  induction 1 as [|e u1 u2 _ IH He|u1 u2 _ IH Hf].
  - apply keeps_refl.
  - exact (@keeps_trans u u1 u2 IH (@event_keeps e u1 u2 He)).
  - exact (@keeps_trans u u1 u2 IH (@frame_keeps u1 u2 Hf)).
Qed.

Lemma reaches_frame_or_event (u0 u u1 u2 : session) (e : event) :
  reaches B P u0 u -> handle_event B P e u = Ok u1 -> reaches B P u1 u2 ->
  reaches B P u0 u2.
Proof.
  intros H0 He H12. induction H12 as [|e' v1 v2 _ IH He'|v1 v2 _ IH Hf].
  - exact (@reaches_event B P u0 e u u1 H0 He).
  - exact (@reaches_event B P u0 e' v1 v2 IH He').
  - exact (@reaches_frame B P u0 v1 v2 IH Hf).
Qed.

Lemma handle_events_reaches (es : list event) :
  forall u u', handle_events B P es u = Ok u' -> reaches B P u u'.
Proof.
  assert (Hgen : forall u0 u u', reaches B P u0 u ->
                   handle_events B P es u = Ok u' -> reaches B P u0 u').
  { induction es as [|e es IH]; intros u0 u u' Hr He; cbn [handle_events] in He.
    - injection He as <-. exact Hr.
    - destruct (handle_event B P e u) as [u1|] eqn:E1; cbn [bind] in He;
        [|discriminate].
      exact (IH u0 u1 u' (@reaches_event B P u0 e u u1 Hr E1) He). }
  intros u u'. apply Hgen. constructor.
Qed.

(** X13: the session only moves forward, and captures once.  Along any
    run the state never goes back in the order ask_count, running,
    phrase_input, done.  Once the CAPTURE click has been handled (state
    ["phrase_input"] or ["done"]) the key and the audit file never change
    again, whether a key was derived or not; once the phrase has been
    entered (state ["done"]) the state and the ciphertext never change
    again. *)
Theorem X13_session_moves_forward (u u' : session) :
  reaches B P u u' ->
  (rank (state u) <= rank (state u'))%nat
  /\ (state u = phrase_input \/ state u = done ->
      (state u' = phrase_input \/ state u' = done)
      /\ derived_key (globals u') = derived_key (globals u)
      /\ entropy_pool_bin (globals u') = entropy_pool_bin (globals u))
  /\ (state u = done ->
      state u' = done /\ ciphertext_b64 (globals u') = ciphertext_b64 (globals u)).
Proof.
  intros Hr. destruct (@reaches_keeps u u' Hr) as (Hm & Hk & Hc).
  split; [exact Hm|]. split.
  - intros Hs. apply rank_from_capture in Hs.
    split; [apply rank_from_capture; lia | exact (Hk Hs)].
  - intros Hs. apply rank_done in Hs.
    split; [apply rank_done; lia | exact (Hc Hs)].
Qed.

Lemma decrypt_ciphertext_fields (w w' : world) :
  ciphertext_b64 w' = ciphertext_b64 w -> derived_key w' = derived_key w ->
  decrypt_ciphertext P w' = decrypt_ciphertext P w.
Proof. intros Hc Hk. unfold decrypt_ciphertext. rewrite Hc, Hk. reflexivity. Qed.

Lemma decrypt_click (mx my : Z) (img : option screenshot) (u : session) :
  collidepoint decrypt_rect mx my = true ->
  state u = phrase_input \/ state u = done ->
  handle_event B P (MOUSEBUTTONDOWN mx my img) u =
  (pt <- decrypt_ciphertext P (globals u) ;;
   match pt with
   | Some text => Ok (print (DecryptedText text) u)
   | None => Ok (print DecryptionFailed u)
   end).
Proof.
  intros Hd Hs. cbn [handle_event]. unfold handle_click.
  rewrite (rects_disjoint mx my Hd), Hd. cbn [andb bind].
  destruct Hs as [-> | ->]; reflexivity.
Qed.

(** X14: the DECRYPT button shows the phrase.  In a run that has a key,
    Enter in state ["phrase_input"] encrypts the typed text and moves to
    ["done"]; from then on, whatever else happens, every click on the
    DECRYPT button prints exactly that text, and changes nothing else. *)
Theorem X14_decrypt_button_shows_the_phrase (s : entropy) (g npg : rng)
    (u : session) (key : bytes) (unicode : string) :
  (forall t, utf8_decode P (utf8_encode P t) = Ok t) ->
  reaches B P (start s g npg) u ->
  state u = phrase_input -> derived_key (globals u) = Some key ->
  exists u1,
    handle_event B P (KEYDOWN K_RETURN unicode) u = Ok u1
    /\ state u1 = done /\ typed_text u1 = EmptyString
    /\ forall u2 mx my img,
         reaches B P u1 u2 -> collidepoint decrypt_rect mx my = true ->
         handle_event B P (MOUSEBUTTONDOWN mx my img) u2
         = Ok (print (DecryptedText (typed_text u)) u2).
Proof.
  intros Hutf Hr Hs Hk.
  destruct (@reaches_consistent _ u (consistent_start s g npg) Hr) as [Hlen _].
  assert (Hkey : key_size_ok key = true)
    by (unfold key_size_ok; rewrite (Hlen key Hk); reflexivity).
  destruct (@encrypt_then_decrypt P (globals u) key (typed_text u) HP Hutf Hkey Hk)
    as (w' & raw & He & Hd & Hk' & _).
  eexists. split.
  { cbn [handle_event]. unfold handle_keydown. rewrite Hs.
    cbn [globals set_typed_text]. rewrite He. cbn [bind]. reflexivity. }
  split; [reflexivity|]. split; [reflexivity|].
  intros u2 mx my img Hr2 Hc.
  destruct (@reaches_keeps _ u2 Hr2) as (Hm & Hkeep & Hct).
  cbn [state set_state rank globals set_globals set_typed_text] in Hm, Hkeep, Hct.
  destruct (Hkeep ltac:(lia)) as [Hk2 _].
  rewrite (@decrypt_click mx my img u2 Hc)
    by (apply rank_from_capture; lia).
  rewrite (@decrypt_ciphertext_fields w' (globals u2) (Hct ltac:(lia)) Hk2), Hd.
  reflexivity.
Qed.

(** X15: a failed capture cannot be repeated.  When the screenshot cannot
    be read, the CAPTURE click still moves the session to
    ["phrase_input"], with the globals untouched.  From there no run ever
    derives a key or stores a ciphertext, and every click on the DECRYPT
    button prints the failure message. *)
Theorem X15_failed_capture_is_final (s : entropy) (g npg : rng) (u : session)
    (cx cy : Z) :
  reaches B P (start s g npg) u ->
  state u = state_running -> collidepoint capture_rect cx cy = true ->
  exists u1,
    handle_event B P (MOUSEBUTTONDOWN cx cy None) u = Ok u1
    /\ state u1 = phrase_input /\ globals u1 = globals u
    /\ forall u2,
         reaches B P u1 u2 ->
         derived_key (globals u2) = None
         /\ ciphertext_b64 (globals u2) = None
         /\ forall mx my img,
              collidepoint decrypt_rect mx my = true ->
              handle_event B P (MOUSEBUTTONDOWN mx my img) u2
              = Ok (print DecryptionFailed u2).
Proof.
  intros Hr Hs Hc.
  pose proof (@reaches_consistent _ u (consistent_start s g npg) Hr) as Hcon.
  assert (Hk : derived_key (globals u) = None)
    by (destruct Hcon as [_ Hst]; cbv zeta in Hst; rewrite Hs in Hst; tauto).
  assert (Hnd : collidepoint decrypt_rect cx cy = false).
  { destruct (collidepoint decrypt_rect cx cy) eqn:Hd; [|reflexivity].
    rewrite (rects_disjoint cx cy Hd) in Hc. discriminate. }
  assert (E1 : handle_event B P (MOUSEBUTTONDOWN cx cy None) u
               = Ok (set_typed_text EmptyString
                       (set_state phrase_input (set_globals (globals u) u)))).
  { cbn [handle_event]. unfold handle_click. rewrite Hc, Hs, Hnd. reflexivity. }
  eexists. split; [exact E1|]. split; [reflexivity|]. split; [reflexivity|].
  intros u2 Hr2.
  pose proof (@reaches_consistent _ u2 (consistent_start s g npg)
                (@reaches_frame_or_event _ u _ u2 _ Hr E1 Hr2)) as Hcon2.
  destruct (@reaches_keeps _ u2 Hr2) as (Hm & Hkeep & _).
  cbn [state set_state rank globals set_globals set_typed_text] in Hm, Hkeep.
  destruct (Hkeep ltac:(lia)) as [Hk2 _]. rewrite Hk in Hk2.
  assert (Hct : ciphertext_b64 (globals u2) = None).
  { destruct Hcon2 as [_ Hst]. cbv zeta in Hst.
    destruct (state u2); cbn [rank] in Hm; try lia; [tauto|].
    destruct Hst as [_ Hiff]. apply Hiff, Hk2. }
  split; [exact Hk2|]. split; [exact Hct|].
  intros mx my img Hd.
  rewrite (@decrypt_click mx my img u2 Hd) by (apply rank_from_capture; lia).
  unfold decrypt_ciphertext. rewrite Hct. reflexivity.
Qed.

End WithBuiltins.
End EventLoop.

Lemma X11_enter_starts_the_simulation_witness :
  exists u',
    Simulator.handle_keydown Simulator.plain Reference.prims Simulator.K_RETURN
      Simulator.CR
      (Simulator.set_typed_text "20" Simulator.fresh) = Ok u'
    /\ Simulator.count_types u' = Some 12
    /\ length (Simulator.microbes u') = 480%nat.
Proof.
  destruct (proj1 (@X11_enter_starts_the_simulation Simulator.plain Reference.prims
                     Simulator.CR (Simulator.set_typed_text "20" Simulator.fresh)
                     eq_refl) 20 eq_refl)
    as (u' & g & Hk & _ & _ & Hc & _ & _ & Hl & _).
  exists u'. split; [exact Hk|]. split; [exact Hc | exact Hl].
Defined.

Lemma typing_run :
  Simulator.handle_events Simulator.plain Reference.prims Simulator.typing
    Simulator.fresh = Ok Simulator.typed.
Proof. vm_compute. reflexivity. Qed.

Lemma swimming_run :
  Simulator.handle_events Simulator.plain Reference.prims (firstn 2 Simulator.typing)
    Simulator.fresh = Ok Simulator.swimming.
Proof. vm_compute. reflexivity. Qed.

Lemma X12_session_invariant_witness :
  Simulator.state Simulator.typed = Simulator.phrase_input
  /\ Simulator.spawned Simulator.typed
  /\ exists k, GVEMPlus.derived_key (Simulator.globals Simulator.typed) = Some k
               /\ length k = 32%nat.
Proof.
  destruct (@X12_session_invariant Simulator.plain Reference.prims
              ReferenceFacts.prims_ok counting draws draws Simulator.typed
              (@handle_events_reaches _ _ _ _ _ typing_run))
    as (_ & Hs & Hk & _).
  split; [reflexivity|]. split; [apply Hs; discriminate|].
  eexists. split; [reflexivity|]. exact (proj1 (Hk _ eq_refl)).
Defined.

Lemma X13_session_moves_forward_witness :
  (Simulator.rank (Simulator.state Simulator.fresh)
   <= Simulator.rank (Simulator.state Simulator.typed))%nat.
Proof.
  exact (proj1 (@X13_session_moves_forward Simulator.plain Reference.prims
                  Simulator.fresh Simulator.typed
                  (@handle_events_reaches _ _ _ _ _ typing_run))).
Defined.

Lemma X14_decrypt_button_shows_the_phrase_witness :
  exists u1,
    Simulator.handle_event Simulator.plain Reference.prims
      (Simulator.KEYDOWN Simulator.K_RETURN Simulator.CR) Simulator.typed = Ok u1
    /\ Simulator.handle_event Simulator.plain Reference.prims
         (Simulator.MOUSEBUTTONDOWN 700 650 None) u1
       = Ok (Simulator.print (Simulator.DecryptedText "hi") u1).
Proof.
  destruct (@X14_decrypt_button_shows_the_phrase Simulator.plain Reference.prims
              ReferenceFacts.prims_ok counting draws draws Simulator.typed _
              Simulator.CR decode_encode_utf8
              (@handle_events_reaches _ _ _ _ _ typing_run) eq_refl eq_refl)
    as (u1 & He & _ & _ & Hd).
  exists u1. split; [exact He|].
  exact (Hd u1 700 650 None (Simulator.reaches_here _ _ u1) eq_refl).
Defined.

Lemma X15_failed_capture_is_final_witness :
  exists u1,
    Simulator.handle_event Simulator.plain Reference.prims
      (Simulator.MOUSEBUTTONDOWN 900 650 None) Simulator.swimming = Ok u1
    /\ Simulator.handle_event Simulator.plain Reference.prims
         (Simulator.MOUSEBUTTONDOWN 700 650 None) u1
       = Ok (Simulator.print Simulator.DecryptionFailed u1).
Proof.
  destruct (@X15_failed_capture_is_final Simulator.plain Reference.prims
              ReferenceFacts.prims_ok counting draws draws Simulator.swimming 900 650
              (@handle_events_reaches _ _ _ _ _ swimming_run) eq_refl eq_refl)
    as (u1 & He & _ & _ & Hd).
  exists u1. split; [exact He|].
  exact (proj2 (proj2 (Hd u1 (Simulator.reaches_here _ _ u1))) 700 650 None eq_refl).
Defined.
